(** * ASTRA-2.0: the retrieval subsystem, embedded and checked against its spec

    The development follows the TypeScript sources:
    - [server/services/file.ts]      (chunkText, summarizeText, processFile),
    - [server/utils/supabase.ts]     (getCurrentUserId, saveEmbedding,
                                      searchEmbeddings, getKnowledgeNodes,
                                      the messages and summaries, ...),
    - [server/services/openai.ts]    (generateEmbedding, extractKnowledge,
                                      getRelevantContext, processMessage),
    - [server/services/knowledge.ts] (processTextForKnowledge, queryKnowledge),
    - [server/services/emotion.ts]   (trackEmotion, mapScoreToEmotion, ...),
    - [supabase-schema.sql]          (tables, row-level-security policies).

    JavaScript strings are sequences of UTF-16 code units; asynchronous
    functions that read or write the database, call the OpenAI client or throw
    are functions in a state-and-exception monad over a [World], or over a
    [Db] where they use the tables outside the retrieval path. *)

From Stdlib Require Import String Ascii Bool Arith NArith ZArith QArith.
From Stdlib Require Import DecimalString Qround Qabs.
From Stdlib Require Import Lia Lqa Permutation Sorted Relations List.
Import ListNotations.

Set Implicit Arguments.
Open Scope nat_scope.

(* ================================================================== *)
(** * Strings *)

(** A JavaScript string: its UTF-16 code units; [length] is [String.length]. *)
Definition str : Type := list N.

(** A string literal of the source (ASCII text). *)
Definition lit (s : string) : str :=
  map N_of_ascii (list_ascii_of_string s).

Definition str_eqb (a b : str) : bool :=
  if list_eq_dec N.eq_dec a b then true else false.

Definition NL : N := 10%N.

(** The character class [\s] of ECMAScript regular expressions: WhiteSpace and
    LineTerminator code points. *)
Definition is_space (c : N) : bool :=
  ((9 <=? c) && (c <=? 13) || (c =? 32) || (c =? 160) || (c =? 5760)
   || (8192 <=? c) && (c <=? 8202) || (c =? 8232) || (c =? 8233)
   || (c =? 8239) || (c =? 8287) || (c =? 12288) || (c =? 65279))%N.

(** The character class [[.!?]]. *)
Definition is_terminator (c : N) : bool :=
  ((c =? 46) || (c =? 33) || (c =? 63))%N.

(* ------------------------------------------------------------------ *)
(** ** [String.prototype.split] with a regular expression

    A matcher is given the code unit before the current position (for a
    lookbehind) and the rest of the string from the current position; it
    answers with the length of the match starting there, if any. *)
Definition matcher : Type := option N -> str -> option nat.

(** [\s*\n], greedy with backtracking: [\s*] first takes the code unit and the
    rest must still match; failing that, [\s*] is empty and [\n] takes it. *)
Fixpoint spaces_then_newline (l : str) : option nat :=
  match l with
  | [] => None
  | c :: r =>
      if is_space c then
        match spaces_then_newline r with
        | Some n => Some (S n)
        | None => if N.eqb c NL then Some 1 else None
        end
      else None
  end.

(** [/\n\s*\n/] *)
Definition paragraph_break : matcher := fun _ l =>
  match l with
  | c :: r =>
      if N.eqb c NL then option_map S (spaces_then_newline r) else None
  | [] => None
  end.

(** [\s*], greedy: the length of the run of white space. *)
Fixpoint spaces (l : str) : nat :=
  match l with
  | c :: r => if is_space c then S (spaces r) else 0
  | [] => 0
  end.

(** [/(?<=[.!?])\s+/] *)
Definition sentence_break : matcher := fun prev l =>
  match prev with
  | Some p =>
      if is_terminator p then
        match spaces l with
        | 0 => None
        | n => Some n
        end
      else None
  | None => None
  end.

(** The loop of [RegExp.prototype[@@split]] on a non-empty string, without a
    limit or capture groups: [cur] holds (reversed) the code units since the
    end [p] of the last match, [skip] the code units still inside that match.
    At each position [q] outside a match the splitter is tried; a match pushes
    [S.substring(p, q)] and moves [p] past it; at the end [S.substring(p)] is
    pushed.  (Both splitters of this file match at least one code unit, so the
    step for an empty match, [e = p], does not arise.) *)
Fixpoint split_from (m : matcher) (prev : option N) (skip : nat)
    (cur : str) (l : str) : list str :=
  match l with
  | [] => [rev_append cur []]
  | c :: r =>
      match skip with
      | S k => split_from m (Some c) k cur r
      | 0 =>
          match m prev l with
          | Some (S k) => rev_append cur [] :: split_from m (Some c) k [] r
          | _ => split_from m (Some c) 0 (c :: cur) r
          end
      end
  end.

Definition split (m : matcher) (s : str) : list str :=
  split_from m None 0 [] s.

(* ================================================================== *)
(** * The chunker ([chunkText], file.ts) *)

(** [while (i < sentence.length) { chunks.push(sentence.slice(i, i + max)); i += max }]
    The recursion is on a bound [fuel] of iterations; [length sentence]
    iterations suffice when [max > 0] (lemma [slices_fuel]).  With [max = 0]
    the source loop does not terminate; the chunker's contract has
    [maxChunkSize > 0]. *)
Fixpoint slices_loop (fuel : nat) (sentence : str) (max : nat) : list str :=
  match fuel with
  | 0 => []
  | S fuel' =>
      match sentence with
      | [] => []
      | _ => firstn max sentence :: slices_loop fuel' (skipn max sentence) max
      end
  end.

Definition slices (sentence : str) (max : nat) : list str :=
  slices_loop (length sentence) sentence max.

(** The state of the two loops: [chunks] and [currentChunk]. *)
Definition chunk_state : Type := (list str * str)%type.

(** [if (currentChunk.length > 0) { chunks.push(currentChunk); currentChunk = '' }] *)
Definition flush (st : chunk_state) : chunk_state :=
  let '(chunks, currentChunk) := st in
  if 0 <? length currentChunk then (chunks ++ [currentChunk], []) else st.

(** The body of [for (const sentence of sentencesInParagraph)]. *)
Definition sentence_step (maxChunkSize : nat) (st : chunk_state)
    (sentence : str) : chunk_state :=
  let '(chunks, currentChunk) := st in
  if maxChunkSize <? length currentChunk + length sentence then
    let '(chunks, currentChunk) := flush st in
    if maxChunkSize <? length sentence then
      (chunks ++ slices sentence maxChunkSize, currentChunk)
    else (chunks, sentence)
  else
    (chunks,
     currentChunk ++ (if 0 <? length currentChunk then lit " " else []) ++ sentence).

(** The body of [for (const paragraph of paragraphs)]. *)
Definition paragraph_step (maxChunkSize : nat) (st : chunk_state)
    (paragraph : str) : chunk_state :=
  let '(chunks, currentChunk) := st in
  if maxChunkSize <? length currentChunk + length paragraph then
    let st1 := flush st in
    if maxChunkSize <? length paragraph then
      fold_left (sentence_step maxChunkSize) (split sentence_break paragraph) st1
    else (fst st1, paragraph)
  else
    (chunks,
     currentChunk
       ++ (if 0 <? length currentChunk then [NL; NL] else []) ++ paragraph).

Definition chunkText (text : str) (maxChunkSize : nat) : list str :=
  if (length text =? 0) || (length text <=? maxChunkSize) then [text]
  else
    let '(chunks, currentChunk) :=
      fold_left (paragraph_step maxChunkSize) (split paragraph_break text)
        ([], []) in
    if 0 <? length currentChunk then chunks ++ [currentChunk] else chunks.

(** The default of the parameter: [maxChunkSize: number = 8000]. *)
Definition default_maxChunkSize : nat := 8 * 1000.


(* ================================================================== *)
(** * What the repository calls but does not define *)

(** A [number[]] embedding.  A finite double is a rational number. *)
Definition vector : Type := list Q.

(** A UUID (a 128-bit number); the database draws fresh ones. *)
Definition Uuid : Type := N.

(** Errors that reach the code as rejected promises / thrown values. *)
Inductive Error : Type :=
| NotAuthenticated      (* [new Error('Not authenticated')], getCurrentUserId *)
| ProviderUnavailable   (* openai client: network failure, timeout *)
| ProviderRejected      (* openai client: the input was refused *)
| InvalidDimension.     (* PostgREST: the value does not fit [vector(1536)] *)

Inductive Result (A : Type) : Type :=
| Ok (a : A)
| Err (e : Error).
Arguments Ok {A} a.
Arguments Err {A} e.

(** [interface Entity] and [interface Relationship] (knowledge.ts).
    [ent_attributes] is the optional [attributes] object, held as the text
    [JSON.stringify] gives for it. *)
Record Entity : Type := {
  ent_type : str;
  ent_name : str;
  ent_attributes : option str
}.

Record Relationship : Type := {
  rel_source : str;
  rel_target : str;
  rel_type : str
}.

(** Library and service functions the sources call.  They are parameters of
    the development: every theorem holds whatever they compute. *)
Class Externals : Type := {
  (** pgvector's cosine similarity of two vectors, [1 - (a <=> b)] *)
  cosine_similarity : vector -> vector -> Q;
  (** [Number.prototype.toFixed(2)] *)
  toFixed2 : Q -> str;
  (** [String.prototype.toLowerCase] *)
  toLowerCase : str -> str;
  (** the text of a UUID in a template literal *)
  uuid_text : Uuid -> str;
  (** [openai.embeddings.create] with model text-embedding-ada-002, reduced
      to [response.data[0].embedding]: the answer to the call number [n] that
      this process makes, on the given input.  The client is built with its
      default options ([new OpenAI({ apiKey })]); what it does within one
      call, where it may repeat the HTTP request, is the library's and not
      modelled *)
  embeddings_create : nat -> str -> Result vector;
  (** the GPT-4 call of [extractKnowledge] followed by [JSON.parse]; [None]
      when the call or the parse throws *)
  chat_extract : str -> option (list Entity * list Relationship)
}.

(** A number in a template literal ([`#chunk${i}`]). *)
Definition nat_text (n : nat) : str :=
  lit (NilZero.string_of_uint (Nat.to_uint n)).

(* ================================================================== *)
(** * The database (supabase-schema.sql) *)

(** [embedding vector(1536) NOT NULL] *)
Definition EMBEDDING_DIM : nat := 1536.

Record EmbeddingRow : Type := {
  emb_id : Uuid;
  emb_user_id : Uuid;
  emb_source_type : str;
  emb_source_id : Uuid;
  emb_content : str;
  emb_embedding : vector;
  emb_created_at : nat
}.

Record KnowledgeNode : Type := {
  kn_id : Uuid;
  kn_user_id : Uuid;
  kn_type : str;
  kn_name : str;
  kn_content : str;
  kn_source : str;
  kn_created_at : nat;
  kn_shared : bool
}.

Record KnowledgeRelation : Type := {
  kr_id : Uuid;
  kr_user_id : Uuid;
  kr_source_id : Uuid;
  kr_target_id : Uuid;
  kr_relation_type : str;
  kr_created_at : nat;
  kr_shared : bool
}.

Record FileRow : Type := {
  file_id : Uuid;
  file_user_id : Uuid;
  file_name : str;
  file_type : str;
  file_size : N;
  file_path : str;
  file_summary : str;
  file_created_at : nat
}.

Record EventRow : Type := {
  ev_id : Uuid;
  ev_user_id : Uuid;
  ev_type : str;
  ev_description : str;
  ev_related_entity_id : option Uuid;
  ev_related_entity_type : option str;
  ev_tags : list str;
  ev_timestamp : nat
}.

(** A line written with [console.error] or [console.warn]. *)
Inductive LogLine : Type :=
| LogError (message : str) (error : Error)
| LogWarn (message : str).

(** Everything the asynchronous functions read and write: the session of the
    Supabase client, the database clock and UUID source, the number of calls
    made to the embeddings endpoint, the console and the tables. *)
Record World : Type := {
  auth_user : option Uuid;
  clock : nat;
  next_id : N;
  embed_calls : nat;
  console : list LogLine;
  embeddings : list EmbeddingRow;
  knowledge_nodes : list KnowledgeNode;
  knowledge_relations : list KnowledgeRelation;
  files : list FileRow;
  events : list EventRow
}.

Definition empty_world : World :=
  {| auth_user := None; clock := 0; next_id := 0%N; embed_calls := 0;
     console := []; embeddings := []; knowledge_nodes := [];
     knowledge_relations := []; files := []; events := [] |}.

Definition set_auth (u : option Uuid) (w : World) : World :=
  {| auth_user := u; clock := clock w; next_id := next_id w;
     embed_calls := embed_calls w; console := console w;
     embeddings := embeddings w; knowledge_nodes := knowledge_nodes w;
     knowledge_relations := knowledge_relations w; files := files w;
     events := events w |}.

Definition tick (w : World) : World :=
  {| auth_user := auth_user w; clock := S (clock w); next_id := next_id w;
     embed_calls := embed_calls w; console := console w;
     embeddings := embeddings w; knowledge_nodes := knowledge_nodes w;
     knowledge_relations := knowledge_relations w; files := files w;
     events := events w |}.

Definition log (line : LogLine) (w : World) : World :=
  {| auth_user := auth_user w; clock := clock w; next_id := next_id w;
     embed_calls := embed_calls w; console := console w ++ [line];
     embeddings := embeddings w; knowledge_nodes := knowledge_nodes w;
     knowledge_relations := knowledge_relations w; files := files w;
     events := events w |}.

Definition count_embed_call (w : World) : World :=
  {| auth_user := auth_user w; clock := clock w; next_id := next_id w;
     embed_calls := S (embed_calls w); console := console w;
     embeddings := embeddings w; knowledge_nodes := knowledge_nodes w;
     knowledge_relations := knowledge_relations w; files := files w;
     events := events w |}.

(** [INSERT]: the row takes the next UUID ([DEFAULT gen_random_uuid()]). *)
Definition add_embedding (r : EmbeddingRow) (w : World) : World :=
  {| auth_user := auth_user w; clock := clock w; next_id := N.succ (next_id w);
     embed_calls := embed_calls w; console := console w;
     embeddings := embeddings w ++ [r]; knowledge_nodes := knowledge_nodes w;
     knowledge_relations := knowledge_relations w; files := files w;
     events := events w |}.

Definition add_knowledge_node (r : KnowledgeNode) (w : World) : World :=
  {| auth_user := auth_user w; clock := clock w; next_id := N.succ (next_id w);
     embed_calls := embed_calls w; console := console w;
     embeddings := embeddings w; knowledge_nodes := knowledge_nodes w ++ [r];
     knowledge_relations := knowledge_relations w; files := files w;
     events := events w |}.

Definition add_knowledge_relation (r : KnowledgeRelation) (w : World) : World :=
  {| auth_user := auth_user w; clock := clock w; next_id := N.succ (next_id w);
     embed_calls := embed_calls w; console := console w;
     embeddings := embeddings w; knowledge_nodes := knowledge_nodes w;
     knowledge_relations := knowledge_relations w ++ [r]; files := files w;
     events := events w |}.

Definition add_file (r : FileRow) (w : World) : World :=
  {| auth_user := auth_user w; clock := clock w; next_id := N.succ (next_id w);
     embed_calls := embed_calls w; console := console w;
     embeddings := embeddings w; knowledge_nodes := knowledge_nodes w;
     knowledge_relations := knowledge_relations w; files := files w ++ [r];
     events := events w |}.

Definition add_event (r : EventRow) (w : World) : World :=
  {| auth_user := auth_user w; clock := clock w; next_id := N.succ (next_id w);
     embed_calls := embed_calls w; console := console w;
     embeddings := embeddings w; knowledge_nodes := knowledge_nodes w;
     knowledge_relations := knowledge_relations w; files := files w;
     events := events w ++ [r] |}.

(* ================================================================== *)
(** * Asynchronous functions: state and exceptions *)

Definition M (A : Type) : Type := World -> Result A * World.

Definition ret {A} (a : A) : M A := fun w => (Ok a, w).

Definition throw {A} (e : Error) : M A := fun w => (Err e, w).

Definition bind {A B} (m : M A) (k : A -> M B) : M B := fun w =>
  match m w with
  | (Ok a, w') => k a w'
  | (Err e, w') => (Err e, w')
  end.

(** [try { m } catch (error) { h error }] *)
Definition try_catch {A} (m : M A) (h : Error -> M A) : M A := fun w =>
  match m w with
  | (Ok a, w') => (Ok a, w')
  | (Err e, w') => h e w'
  end.

Declare Scope async_scope.
Delimit Scope async_scope with async.
Notation "x <- m ;; k" := (bind m (fun x => k))
  (at level 61, m at next level, right associativity) : async_scope.
Notation "m ;; k" := (bind m (fun _ => k))
  (at level 61, right associativity) : async_scope.
Open Scope async_scope.

Definition console_error (message : string) (e : Error) : M unit :=
  fun w => (Ok tt, log (LogError (lit message) e) w).

Definition console_warn (message : str) : M unit :=
  fun w => (Ok tt, log (LogWarn message) w).

(** [Array.prototype.join] *)
Fixpoint join (sep : str) (l : list str) : str :=
  match l with
  | [] => []
  | [x] => x
  | x :: r => x ++ sep ++ join sep r
  end.

(* ================================================================== *)
(** * server/utils/supabase.ts *)

(** [getCurrentUserId]: the user of the client's session, or
    [throw new Error('Not authenticated')]. *)
Definition getCurrentUserId : M Uuid := fun w =>
  match auth_user w with
  | Some u => (Ok u, w)
  | None => (Err NotAuthenticated, w)
  end.

(** [auth.uid() = user_id], false without a session. *)
Definition is_auth_uid (w : World) (user_id : Uuid) : bool :=
  match auth_user w with
  | Some u => N.eqb user_id u
  | None => false
  end.

(** [CREATE POLICY embeddings_policy ON embeddings USING (user_id = auth.uid())]:
    the rows of [embeddings] a statement of the session sees. *)
Definition rls_embeddings (w : World) : list EmbeddingRow :=
  filter (fun r => is_auth_uid w (emb_user_id r)) (embeddings w).

(** [knowledge_nodes_private_policy: USING (user_id = auth.uid() OR shared = TRUE)] *)
Definition rls_knowledge_nodes (w : World) : list KnowledgeNode :=
  filter (fun r => is_auth_uid w (kn_user_id r) || kn_shared r)
    (knowledge_nodes w).

(** [getKnowledgeNodes(type?)]:
    [from('knowledge_nodes').select('*').eq('user_id', userId)], and
    [if (type) { query = query.eq('type', type) }]: the rows are filtered by
    type when [type] is truthy, that is given and not the empty string. *)
Definition getKnowledgeNodes (type : option str) : M (list KnowledgeNode) :=
  userId <- getCurrentUserId ;;
  fun w =>
    let rows := filter (fun r => N.eqb (kn_user_id r) userId)
                  (rls_knowledge_nodes w) in
    (Ok match type with
        | Some (c :: t) => filter (fun r => str_eqb (kn_type r) (c :: t)) rows
        | Some [] | None => rows
        end, w).

(** [addKnowledgeNode]: [shared] takes its default [FALSE]. *)
Definition addKnowledgeNode (type name content source : str)
    : M KnowledgeNode :=
  userId <- getCurrentUserId ;;
  fun w =>
    let data := {| kn_id := next_id w; kn_user_id := userId; kn_type := type;
                   kn_name := name; kn_content := content;
                   kn_source := source; kn_created_at := clock w;
                   kn_shared := false |} in
    (Ok data, add_knowledge_node data w).

Definition addKnowledgeRelation (sourceId targetId : Uuid)
    (relationType : str) : M KnowledgeRelation :=
  userId <- getCurrentUserId ;;
  fun w =>
    let data := {| kr_id := next_id w; kr_user_id := userId;
                   kr_source_id := sourceId; kr_target_id := targetId;
                   kr_relation_type := relationType;
                   kr_created_at := clock w; kr_shared := false |} in
    (Ok data, add_knowledge_relation data w).

Definition saveFileMetadata (name type : str) (size : N)
    (filePath summary : str) : M FileRow :=
  userId <- getCurrentUserId ;;
  fun w =>
    let data := {| file_id := next_id w; file_user_id := userId;
                   file_name := name; file_type := type; file_size := size;
                   file_path := filePath; file_summary := summary;
                   file_created_at := clock w |} in
    (Ok data, add_file data w).

(** [saveEmbedding]: the insert is refused, and [error] thrown, when the
    value does not have the dimension of the column [vector(1536)]; nothing
    else is checked of the vector, here or in the schema. *)
Definition saveEmbedding (sourceType : str) (sourceId : Uuid) (content : str)
    (embedding : vector) : M EmbeddingRow :=
  userId <- getCurrentUserId ;;
  fun w =>
    if length embedding =? EMBEDDING_DIM then
      let data := {| emb_id := next_id w; emb_user_id := userId;
                     emb_source_type := sourceType;
                     emb_source_id := sourceId; emb_content := content;
                     emb_embedding := embedding;
                     emb_created_at := clock w |} in
      (Ok data, add_embedding data w)
    else (Err InvalidDimension, w).

Definition logEvent (type description : str)
    (relatedEntityId : option Uuid) (relatedEntityType : option str)
    (tags : list str) : M EventRow :=
  userId <- getCurrentUserId ;;
  fun w =>
    let data := {| ev_id := next_id w; ev_user_id := userId; ev_type := type;
                   ev_description := description;
                   ev_related_entity_id := relatedEntityId;
                   ev_related_entity_type := relatedEntityType;
                   ev_tags := tags; ev_timestamp := clock w |} in
    (Ok data, add_event data w).

(** The number literal [0.7] of the source: a [number] is a double, and 0.7
    stands for the double nearest to it, 3152519739159347 / 2^52, a little
    below seven tenths. *)
Definition double_0_7 : Q := 3152519739159347 # 4503599627370496.

(** A row of the result of [match_embeddings]
    ([Database.Functions.match_embeddings.Returns], database.types.ts). *)
Record MatchRow : Type := {
  m_id : Uuid;
  m_content : str;
  m_similarity : Q;
  m_source_id : Uuid;
  m_source_type : str
}.

Section WithExternals.
Context {ext : Externals}.

(** The order of the result: higher similarity first, and of two rows with
    the same similarity the one created earlier first. *)
Definition ranks_before (query_embedding : vector) (a b : EmbeddingRow)
    : bool :=
  match Qcompare (cosine_similarity (emb_embedding a) query_embedding)
          (cosine_similarity (emb_embedding b) query_embedding) with
  | Gt => true
  | Lt => false
  | Eq => emb_created_at a <=? emb_created_at b
  end.

Fixpoint insert_ranked (q : vector) (r : EmbeddingRow)
    (l : list EmbeddingRow) : list EmbeddingRow :=
  match l with
  | [] => [r]
  | x :: t =>
      if ranks_before q r x then r :: x :: t else x :: insert_ranked q r t
  end.

Definition sort_ranked (q : vector) (l : list EmbeddingRow)
    : list EmbeddingRow :=
  fold_right (insert_ranked q) [] l.

Definition to_match (q : vector) (r : EmbeddingRow) : MatchRow :=
  {| m_id := emb_id r; m_content := emb_content r;
     m_similarity := cosine_similarity (emb_embedding r) q;
     m_source_id := emb_source_id r; m_source_type := emb_source_type r |}.

(** Modelled from the spec: the SQL function [match_embeddings], which
    [searchEmbeddings] calls through [rpc] and database.types.ts declares; its
    body is not in supabase-schema.sql.  After the spec's [query]: the
    [match_count] records of scope [user_id] with the highest cosine
    similarity to [query_embedding] among those whose similarity is at least
    [match_threshold], by descending similarity, earlier [created_at] first
    among equals.  [rows] is the table as the calling session sees it. *)
Definition match_embeddings (rows : list EmbeddingRow)
    (query_embedding : vector) (match_threshold : Q) (match_count : nat)
    (user_id : Uuid) : list MatchRow :=
  map (to_match query_embedding)
    (firstn match_count
       (sort_ranked query_embedding
          (filter (fun r =>
                     N.eqb (emb_user_id r) user_id
                     && Qle_bool match_threshold
                          (cosine_similarity (emb_embedding r) query_embedding))
             rows))).

(** [searchEmbeddings(embedding, limit = 5)]; [match_threshold: 0.7] is
    the literal [double_0_7]. *)
Definition searchEmbeddings (embedding : vector) (limit : nat)
    : M (list MatchRow) :=
  userId <- getCurrentUserId ;;
  fun w =>
    (Ok (match_embeddings (rls_embeddings w) embedding double_0_7 limit
           userId),
     w).

(* ================================================================== *)
(** * server/services/openai.ts *)

(** [generateEmbedding]: one call of [openai.embeddings.create]; an error
    of the call is logged and thrown again. *)
Definition generateEmbedding (text : str) : M vector :=
  try_catch
    (fun w =>
       (embeddings_create (embed_calls w) text, count_embed_call w))
    (fun error =>
       console_error "Error generating embedding:" error ;;
       throw error).

(** [extractKnowledge]: any error is logged and answered with two empty
    arrays.  (The error object of the chat call is not part of the model: the
    log line carries [ProviderUnavailable].) *)
Definition extractKnowledge (text : str)
    : M (list Entity * list Relationship) :=
  match chat_extract text with
  | Some k => ret k
  | None =>
      console_error "Error extracting knowledge:" ProviderUnavailable ;;
      ret ([], [])
  end.

(** [`[Source: ${source_type}/${source_id}, Relevance: ${similarity.toFixed(2)}]\n${content}`] *)
Definition context_entry (result : MatchRow) : str :=
  lit "[Source: " ++ m_source_type result ++ lit "/"
    ++ uuid_text (m_source_id result) ++ lit ", Relevance: "
    ++ toFixed2 (m_similarity result) ++ lit "]" ++ [NL] ++ m_content result.

(** [getRelevantContext(query, userId)] *)
Definition getRelevantContext (query : str) (userId : Uuid) : M str :=
  try_catch
    (queryEmbedding <- generateEmbedding query ;;
     searchResults <- searchEmbeddings queryEmbedding 5 ;;
     if 0 <? length searchResults
     then ret (join [NL; NL] (map context_entry searchResults))
     else ret [])
    (fun error =>
       console_error "Error getting relevant context:" error ;;
       ret []).

(* ================================================================== *)
(** * server/services/knowledge.ts *)

(** [`${relationship.source} -[${relationship.type}]-> ${relationship.target}`] *)
Definition arrow_text (source type target : str) : str :=
  source ++ lit " -[" ++ type ++ lit "]-> " ++ target.

(** [node => node.name.toLowerCase() === name.toLowerCase()] *)
Definition same_name (name : str) (node : KnowledgeNode) : bool :=
  str_eqb (toLowerCase (kn_name node)) (toLowerCase name).

(** [for (const entity of entities)] *)
Fixpoint entity_loop (source : str) (entities : list Entity)
    (createdEntities : list str) : M (list str) :=
  match entities with
  | [] => ret createdEntities
  | entity :: rest =>
      let content :=
        match ent_attributes entity with
        | Some json => json
        | None => []
        end in
      node <- addKnowledgeNode (ent_type entity) (ent_name entity) content
                source ;;
      let text := ent_type entity ++ lit ": " ++ ent_name entity
                    ++ lit " - " ++ content in
      embedding <- generateEmbedding text ;;
      saveEmbedding (lit "knowledge_node") (kn_id node) text embedding ;;
      logEvent (lit "knowledge_extraction")
        (lit "Added entity: " ++ ent_name entity ++ lit " ("
           ++ ent_type entity ++ lit ")")
        (Some (kn_id node)) (Some (lit "knowledge_node")) [] ;;
      entity_loop source rest (createdEntities ++ [ent_name entity])
  end.

(** [for (const relationship of relationships)] *)
Fixpoint relationship_loop (relationships : list Relationship)
    (createdRelationships : list str) : M (list str) :=
  match relationships with
  | [] => ret createdRelationships
  | relationship :: rest =>
      nodes <- getKnowledgeNodes None ;;
      let sourceNodes := filter (same_name (rel_source relationship)) nodes in
      nodes <- getKnowledgeNodes None ;;
      let targetNodes := filter (same_name (rel_target relationship)) nodes in
      match sourceNodes, targetNodes with
      | sourceNode :: _, targetNode :: _ =>
          relation <- addKnowledgeRelation (kn_id sourceNode)
                        (kn_id targetNode) (rel_type relationship) ;;
          logEvent (lit "knowledge_extraction")
            (lit "Added relationship: "
               ++ arrow_text (kn_name sourceNode) (rel_type relationship)
                    (kn_name targetNode))
            (Some (kr_id relation)) (Some (lit "knowledge_relation")) [] ;;
          relationship_loop rest
            (createdRelationships
               ++ [arrow_text (rel_source relationship)
                     (rel_type relationship) (rel_target relationship)])
      | _, _ =>
          console_warn
            (lit "Skipping relationship: "
               ++ arrow_text (rel_source relationship)
                    (rel_type relationship) (rel_target relationship)
               ++ lit " (nodes not found)") ;;
          relationship_loop rest createdRelationships
      end
  end.

(** The result of [processTextForKnowledge]. *)
Record KnowledgeResult : Type := {
  entities : list str;
  relationships : list str
}.

Definition processTextForKnowledge (text source : str) (userId : Uuid)
    : M KnowledgeResult :=
  try_catch
    (extracted <- extractKnowledge text ;;
     createdEntities <- entity_loop source (fst extracted) [] ;;
     createdRelationships <- relationship_loop (snd extracted) [] ;;
     ret {| entities := createdEntities;
            relationships := createdRelationships |})
    (fun error =>
       console_error "Error processing text for knowledge:" error ;;
       throw error).

(* ================================================================== *)
(** * server/services/file.ts *)

Fixpoint trimStart (s : str) : str :=
  match s with
  | c :: r => if is_space c then trimStart r else s
  | [] => []
  end.

(** [String.prototype.trim] *)
Definition trim (s : str) : str := rev (trimStart (rev (trimStart s))).

(** [summarizeText] *)
Definition summarizeText (text : str) : str :=
  if length text =? 0 then lit "No content to summarize"
  else
    let preview := trim (firstn 100 text) in
    lit "File contains text starting with: " ++ [34%N] ++ preview
      ++ (if 100 <? length text then lit "..." else []) ++ [34%N].

(** [for (let i = 0; i < textChunks.length; i++)] of [processFile], from the
    index [i] on: [textChunks] holds the chunks not processed yet. *)
Fixpoint ingest_loop (fileName : str) (fileRecordId userId : Uuid) (i : nat)
    (textChunks : list str) : M unit :=
  match textChunks with
  | [] => ret tt
  | chunk :: rest =>
      embedding <- generateEmbedding chunk ;;
      saveEmbedding (lit "file") fileRecordId chunk embedding ;;
      processTextForKnowledge chunk
        (lit "file:" ++ fileName ++ lit "#chunk" ++ nat_text i) userId ;;
      ingest_loop fileName fileRecordId userId (S i) rest
  end.

(** The value [processFile] resolves to. *)
Record ProcessedFile : Type := {
  pf_id : Uuid;
  pf_fileName : str;
  pf_filePath : str;
  pf_summary : str
}.

(** [processFile], from the extracted text on.  The steps before it (naming
    and writing the file to disk, [fs.statSync], [extractTextFromFile]) work on
    the file system: their results [filePath], [fileSize] and [textContent]
    are arguments here. *)
Definition processFile (filePath : str) (fileSize : N) (textContent : str)
    (fileName fileType : str) (userId : Uuid) : M ProcessedFile :=
  try_catch
    (let summary := summarizeText textContent in
     fileRecord <- saveFileMetadata fileName fileType fileSize filePath
                     summary ;;
     let textChunks := chunkText textContent default_maxChunkSize in
     ingest_loop fileName (file_id fileRecord) userId 0 textChunks ;;
     logEvent (lit "file_upload") (lit "Processed file: " ++ fileName)
       (Some (file_id fileRecord)) (Some (lit "file"))
       [lit "upload"; fileType] ;;
     ret {| pf_id := file_id fileRecord; pf_fileName := fileName;
            pf_filePath := filePath; pf_summary := summary |})
    (fun error =>
       console_error "Error processing file:" error ;;
       throw error).

End WithExternals.

(** The code units of a string that are not white space, in order. *)
Definition nonspace (s : str) : str :=
  filter (fun c => negb (is_space c)) s.

(** What a chunker state holds so far, white space apart. *)
Definition content (st : chunk_state) : str :=
  nonspace (concat (fst st) ++ snd st).

(** A splitter whose matches lie within the string and are white space. *)
Definition blank_matcher (m : matcher) : Prop :=
  forall prev l n, m prev l = Some n ->
    n <= length l /\ forallb is_space (firstn n l) = true.

(* ------------------------------------------------------------------ *)
(** ** What the chunks keep of the text *)

(** The code unit before a position of the text: when [prev] is the one
    before [s], [last_of prev s] is the one before what follows [s]. *)
Definition last_of (prev : option N) (s : str) : option N :=
  fold_left (fun _ c => Some c) s prev.

(** A paragraph break, a match of [/\n\s*\n/]: a line feed, white space, a
    line feed. *)
Definition paragraph_gap (g : str) : Prop :=
  exists s, forallb is_space s = true /\ g = NL :: s ++ [NL].

(** A sentence break after the code unit [prev], a match of
    [/(?<=[.!?])\s+/]: white space, at least one code unit of it, after a
    terminator. *)
Definition sentence_gap (prev : option N) (g : str) : Prop :=
  g <> [] /\ forallb is_space g = true
  /\ exists p, prev = Some p /\ is_terminator p = true.

(** [holds prev body chunk]: the chunk holds the part [body] of the text
    (which follows the code unit [prev]) code unit by code unit, white space
    included, except that a paragraph break of the text may be the separator
    [\n\n] in the chunk, and a sentence break the separator of one space. *)
Inductive holds : option N -> str -> str -> Prop :=
| holds_nil prev :
    holds prev [] []
| holds_unit prev c body chunk :
    holds (Some c) body chunk ->
    holds prev (c :: body) (c :: chunk)
| holds_paragraph prev g body chunk :
    paragraph_gap g ->
    holds (last_of prev g) body chunk ->
    holds prev (g ++ body) (NL :: NL :: chunk)
| holds_sentence prev g body chunk :
    sentence_gap prev g ->
    holds (last_of prev g) body chunk ->
    holds prev (g ++ body) (32%N :: chunk).

(** [chunked prev text chunks]: the chunks hold the text (which follows the
    code unit [prev]) part by part, in their order and without overlap;
    between two parts, before the first and after the last, a paragraph
    break or a sentence break of the text may be left out, and nothing
    else. *)
Inductive chunked : option N -> str -> list str -> Prop :=
| chunked_nil prev :
    chunked prev [] []
| chunked_break prev g rest chunks :
    paragraph_gap g \/ sentence_gap prev g ->
    chunked (last_of prev g) rest chunks ->
    chunked prev (g ++ rest) chunks
| chunked_chunk prev body chunk rest chunks :
    holds prev body chunk ->
    chunked (last_of prev body) rest chunks ->
    chunked prev (body ++ rest) (chunk :: chunks).

(** The state of the loops when the part [done] of the text is behind them:
    the chunks pushed hold a first part of it and [currentChunk] the rest. *)
Definition represents (prev : option N) (done : str) (st : chunk_state)
    : Prop :=
  exists done1 body,
    done = done1 ++ body
    /\ chunked prev done1 (fst st)
    /\ holds (last_of prev done1) body (snd st).

(** Pieces of a text, each with the gap before it: the text they make up,
    and that every gap is of the kind [G]. *)
Definition weave (l : list (str * str)) : str :=
  flat_map (fun gp => fst gp ++ snd gp) l.

Fixpoint gaps_ok (G : option N -> str -> Prop) (prev : option N)
    (l : list (str * str)) : Prop :=
  match l with
  | [] => True
  | (g, p) :: r => G prev g /\ gaps_ok G (last_of prev (g ++ p)) r
  end.

(** ["hello big world here"] *)
Definition text_plain : str := lit "hello big world here".

(** ["Hi.  Yo. Third one here!\n \nNext. P"] *)
Definition text_breaks : str :=
  lit "Hi.  Yo. Third one here!" ++ [NL; 32%N; NL] ++ lit "Next. P".

(* ------------------------------------------------------------------ *)
(** ** Sample inputs *)

(** ["abc\n\nde"] *)
Definition text_abc_de : str := lit "abc" ++ [NL; NL] ++ lit "de".

(** ["abc\n\ndefg"] and ["abc\n \ndefg"] *)
Definition text_abc_defg : str := lit "abc" ++ [NL; NL] ++ lit "defg".
Definition text_abc_sp_defg : str := lit "abc" ++ [NL; 32%N; NL] ++ lit "defg".

(** ["One two. Three four five!\n\nSix"] *)
Definition text_sentences : str :=
  lit "One two. Three four five!" ++ [NL; NL] ++ lit "Six".

(** A document of five paragraphs of 5000 letters, [a] to [e]: with the
    default [maxChunkSize] each paragraph is a chunk. *)
Definition paragraph_of (c : N) : str := repeat c (50 * 100).

Definition five_paragraphs : str :=
  join [NL; NL] (map paragraph_of [97; 98; 99; 100; 101]%N).

(** The vector of zeros and the unit vectors of the column's dimension. *)
Definition zero_vector : vector := repeat 0%Q EMBEDDING_DIM.

Definition axis (i : nat) : vector :=
  repeat 0%Q i ++ [1%Q] ++ repeat 0%Q (EMBEDDING_DIM - 1 - i).

(* ------------------------------------------------------------------ *)
(** ** Sample externals *)

(** The dot product: the cosine similarity of two vectors of length one. *)
Definition dot (a b : vector) : Q :=
  fold_right Qplus 0%Q (map (fun p => (fst p * snd p)%Q) (combine a b)).

(** Lower case of the letters A to Z. *)
Definition ascii_lower (s : str) : str :=
  map (fun c => if ((65 <=? c) && (c <=? 90))%N then (c + 32)%N else c) s.

Definition decimal (n : N) : str :=
  lit (NilZero.string_of_uint (N.to_uint n)).

(** Two decimals, rounded to the nearest hundredth (half away from zero). *)
Definition fixed2 (x : Q) : str :=
  let hundredths := Z.to_N (Qfloor (Qabs x * 100 + (1 # 2))) in
  (if Qle_bool 0 x then [] else lit "-")
    ++ decimal (hundredths / 100) ++ lit "."
    ++ (if (hundredths mod 100 <? 10)%N then lit "0" else [])
    ++ decimal (hundredths mod 100).

Definition sample_externals (provider : nat -> str -> Result vector)
    (extract : str -> option (list Entity * list Relationship))
    : Externals :=
  {| cosine_similarity := dot; toFixed2 := fixed2;
     toLowerCase := ascii_lower; uuid_text := decimal;
     embeddings_create := provider; chat_extract := extract |}.

(** Clients: one that answers every call, one that is down, one that fails
    its first call only, one that refuses its third call. *)
Definition provider_up : nat -> str -> Result vector :=
  fun _ _ => Ok (axis 0).

Definition provider_down : nat -> str -> Result vector :=
  fun _ _ => Err ProviderUnavailable.

Definition provider_flaky : nat -> str -> Result vector :=
  fun n _ => if n =? 0 then Err ProviderUnavailable else Ok (axis 0).

Definition provider_rejects_third : nat -> str -> Result vector :=
  fun n _ => if n =? 2 then Err ProviderRejected else Ok (axis 0).

Definition extract_nothing : str -> option (list Entity * list Relationship) :=
  fun _ => Some ([], []).

Definition ext_up : Externals := sample_externals provider_up extract_nothing.
Definition ext_down : Externals :=
  sample_externals provider_down extract_nothing.
Definition ext_flaky : Externals :=
  sample_externals provider_flaky extract_nothing.
Definition ext_rejects_third : Externals :=
  sample_externals provider_rejects_third extract_nothing.

(** Two users. *)
Definition alice : Uuid := 1001%N.
Definition bob : Uuid := 1002%N.

(** A database with nothing in it, [alice] signed in. *)
Definition world_alice : World := set_auth (Some alice) empty_world.

(** [alice] has stored a record with the embedding [axis 1]. *)
Definition world_one_record : World :=
  snd (saveEmbedding (lit "file") 7%N (lit "some text") (axis 1) world_alice).

(* ------------------------------------------------------------------ *)
(** ** Invariants of the world *)

(** The ids of the embedding records are pairwise different, and below the
    next UUID to be drawn. *)
Definition ids_fresh (w : World) : Prop :=
  Forall (fun r => (emb_id r < next_id w)%N) (embeddings w)
  /\ NoDup (map emb_id (embeddings w)).

(** From [w] to [w'] embedding records were only added, and the ids stay
    fresh. *)
Definition grows (w w' : World) : Prop :=
  (exists added, embeddings w' = embeddings w ++ added)
  /\ (ids_fresh w -> ids_fresh w').

(** What every function of the code does to the world: the session stays,
    the store grows. *)
Definition evolves (w w' : World) : Prop :=
  auth_user w' = auth_user w /\ grows w w'.

Definition preserves {A} (m : M A) : Prop :=
  forall w, evolves w (snd (m w)).

(* ------------------------------------------------------------------ *)
(** ** Linking relationships to nodes, as a function *)

Section Linking.
Context {ext : Externals}.

(** The nodes [getKnowledgeNodes()] fetches for the user [u]. *)
Definition fetched_nodes (w : World) (u : Uuid) : list KnowledgeNode :=
  filter (fun r => N.eqb (kn_user_id r) u) (rls_knowledge_nodes w).

(** The node an endpoint [name] stands for: the first of [nodes] whose name
    is [name], letter case apart. *)
Definition linked_node (nodes : list KnowledgeNode) (name : str)
    : option KnowledgeNode :=
  find (same_name name) nodes.

(** The relation a relationship gives rise to, when both endpoints stand for
    a node. *)
Definition link (nodes : list KnowledgeNode) (r : Relationship)
    : option (Uuid * Uuid * str) :=
  match linked_node nodes (rel_source r), linked_node nodes (rel_target r) with
  | Some s, Some t => Some (kn_id s, kn_id t, rel_type r)
  | _, _ => None
  end.

Definition links (nodes : list KnowledgeNode) (rels : list Relationship)
    : list (Uuid * Uuid * str) :=
  flat_map (fun r => match link nodes r with
                     | Some t => [t]
                     | None => []
                     end) rels.

Definition linked_texts (nodes : list KnowledgeNode)
    (rels : list Relationship) : list str :=
  flat_map (fun r => match link nodes r with
                     | Some _ =>
                         [arrow_text (rel_source r) (rel_type r) (rel_target r)]
                     | None => []
                     end) rels.

End Linking.

Definition relation_triple (r : KnowledgeRelation) : Uuid * Uuid * str :=
  (kr_source_id r, kr_target_id r, kr_relation_type r).

(** Three nodes of [alice]: two named Ada (in different letter case), one
    named Bob. *)
Definition world_three_nodes : World :=
  let w1 := snd (addKnowledgeNode (lit "person") (lit "Ada") [] (lit "chat")
                   world_alice) in
  let w2 := snd (addKnowledgeNode (lit "person") (lit "ADA") [] (lit "chat")
                   w1) in
  snd (addKnowledgeNode (lit "person") (lit "Bob") [] (lit "chat") w2).

(** [ada -[knows]-> BOB] and [Ada -[knows]-> Carol]. *)
Definition sample_relationships : list Relationship :=
  [ {| rel_source := lit "ada"; rel_target := lit "BOB";
       rel_type := lit "knows" |};
    {| rel_source := lit "Ada"; rel_target := lit "Carol";
       rel_type := lit "knows" |} ].

Definition extract_relationships
    : str -> option (list Entity * list Relationship) :=
  fun _ => Some ([], sample_relationships).

Definition ext_relationships : Externals :=
  sample_externals provider_up extract_relationships.

(** The record of [world_one_record]. *)
Definition record_one : EmbeddingRow :=
  {| emb_id := 0%N; emb_user_id := alice; emb_source_type := lit "file";
     emb_source_id := 7%N; emb_content := lit "some text";
     emb_embedding := axis 1; emb_created_at := 0 |}.


(** A vector whose similarity ([dot]) to [axis 0] is [x]. *)
Definition scaled (x : Q) : vector := x :: repeat 0%Q (EMBEDDING_DIM - 1).

(** The signed-in user stores a record of similarity [sim] to [axis 0]; then
    time passes. *)
Definition save_at (sim : Q) (content : string) (w : World) : World :=
  tick (snd (saveEmbedding (lit "file") 7%N (lit content) (scaled sim) w)).

(** [alice] has stored five records, of similarity 1/2, 0.7 (the double),
    4/5, 4/5 and 1 to [axis 0], in this order in time; [bob] one of
    similarity 1; [alice] is signed in again. *)
Definition world_ranked : World :=
  set_auth (Some alice)
    (save_at 1 "of bob"
       (set_auth (Some bob)
          (save_at 1 "e"
             (save_at (4 # 5) "d"
                (save_at (4 # 5) "c"
                   (save_at double_0_7 "b"
                      (save_at (1 # 2) "a" world_alice))))))).

(** An uploaded text file holding [five_paragraphs]. *)
Definition doc_path : str := lit "/srv/storage/files/doc_1.txt".
Definition doc_name : str := lit "doc.txt".
Definition doc_type : str := lit "text/plain".
Definition doc_size : N := 25008%N.

(** The world after [saveFileMetadata] for that file, and after the loop of
    [processFile] over its first two chunks. *)
Definition world_file_saved : World :=
  snd (saveFileMetadata doc_name doc_type doc_size doc_path
         (summarizeText five_paragraphs) world_alice).

Definition world_two_chunks : World :=
  snd (ingest_loop (ext := ext_rejects_third) doc_name 0%N alice 0
         [paragraph_of 97%N; paragraph_of 98%N] world_file_saved).

Definition question : str := lit "what is astra".

(* ================================================================== *)
(** * More of the sources *)

(* ------------------------------------------------------------------ *)
(** ** server/utils/supabase.ts: files *)

(** [files_private_policy: USING (user_id = auth.uid() OR shared = TRUE OR
    auth.uid()::text = ANY(shared_with))].  No statement of the code sets
    [shared] or [shared_with]: every row has their defaults [FALSE] and
    ['{}'], and the policy shows a session the rows of its user. *)
Definition rls_files (w : World) : list FileRow :=
  filter (fun r => is_auth_uid w (file_user_id r)) (files w).

(** [getFiles]: [from('files').select('*').eq('user_id', userId)] *)
Definition getFiles : M (list FileRow) :=
  userId <- getCurrentUserId ;;
  fun w =>
    (Ok (filter (fun r => N.eqb (file_user_id r) userId) (rls_files w)), w).

(* ------------------------------------------------------------------ *)
(** ** server/services/knowledge.ts: queryKnowledge *)

Fixpoint starts_with (s prefix : str) : bool :=
  match prefix, s with
  | [], _ => true
  | p :: prefix', c :: s' => N.eqb c p && starts_with s' prefix'
  | _ :: _, [] => false
  end.

(** [String.prototype.includes] *)
Fixpoint includes (s searchString : str) : bool :=
  starts_with s searchString
  || match s with
     | [] => false
     | _ :: s' => includes s' searchString
     end.

(** A [Set<string>] of ids, in the order of insertion. *)
Definition set_add (x : Uuid) (s : list Uuid) : list Uuid :=
  if existsb (N.eqb x) s then s else s ++ [x].

Definition set_delete (x : Uuid) (s : list Uuid) : list Uuid :=
  filter (fun y => negb (N.eqb y x)) s.

(** [getRelationships]: the placeholder of the source, [return []]. *)
Definition getRelationships (nodeIds : list Uuid)
    : M (list KnowledgeRelation) :=
  ret [].

(** The value [queryKnowledge] resolves to. *)
Record KnowledgeQuery : Type := {
  q_directEntities : list KnowledgeNode;
  q_relatedEntities : list KnowledgeNode;
  q_relationships : list KnowledgeRelation
}.

Section MoreKnowledge.
Context {ext : Externals}.

(** [for (const relationship of relationships)] of [queryKnowledge] *)
Definition related_ids (directEntityIds : list Uuid)
    (relationships : list KnowledgeRelation) : list Uuid :=
  fold_left
    (fun relatedEntityIds relationship =>
       let ids1 :=
         if existsb (N.eqb (kr_source_id relationship)) directEntityIds
         then set_add (kr_target_id relationship) relatedEntityIds
         else relatedEntityIds in
       if existsb (N.eqb (kr_target_id relationship)) directEntityIds
       then set_add (kr_source_id relationship) ids1
       else ids1)
    relationships [].

Definition queryKnowledge (topic : str) (userId : Uuid) : M KnowledgeQuery :=
  try_catch
    (allNodes <- getKnowledgeNodes None ;;
     let directEntities :=
       filter (fun node =>
                 includes (toLowerCase (kn_name node)) (toLowerCase topic))
         allNodes in
     let directEntityIds := map kn_id directEntities in
     relationships <- getRelationships directEntityIds ;;
     let relatedEntityIds := related_ids directEntityIds relationships in
     let relatedEntityIds :=
       fold_left (fun s id => set_delete id s) directEntityIds
         relatedEntityIds in
     let relatedEntities :=
       filter (fun node => existsb (N.eqb (kn_id node)) relatedEntityIds)
         allNodes in
     ret {| q_directEntities := directEntities;
            q_relatedEntities := relatedEntities;
            q_relationships := relationships |})
    (fun error =>
       console_error "Error querying knowledge:" error ;;
       throw error).

End MoreKnowledge.

(* ------------------------------------------------------------------ *)
(** ** server/services/emotion.ts: the pure functions

    A score is a [number]; the finite doubles are rationals, and the
    literals of the source are the doubles nearest to them ([double_0_7]
    is defined with [searchEmbeddings], which also has the literal). *)

Definition double_0_3 : Q := 5404319552844595 # 18014398509481984.
Definition double_0_1 : Q := 3602879701896397 # 36028797018963968.

(** [mapScoreToEmotion] *)
Definition mapScoreToEmotion (score : Q) : str :=
  if Qle_bool double_0_7 score then lit "happy"
  else if Qle_bool double_0_3 score then lit "positive"
  else if Qle_bool double_0_1 score then lit "neutral-positive"
  else if Qle_bool (- double_0_1) score then lit "neutral"
  else if Qle_bool (- double_0_3) score then lit "neutral-negative"
  else if Qle_bool (- double_0_7) score then lit "negative"
  else lit "sad".

(** The labels of [mapScoreToEmotion], from the lowest score up. *)
Definition emotion_scale : list str :=
  [lit "sad"; lit "negative"; lit "neutral-negative"; lit "neutral";
   lit "neutral-positive"; lit "positive"; lit "happy"].

(** The place of a label on the scale ([length emotion_scale] when it is not
    on it). *)
Fixpoint index_of (x : str) (l : list str) : nat :=
  match l with
  | [] => 0
  | y :: r => if str_eqb x y then 0 else S (index_of x r)
  end.

Definition emotion_rank (emotion : str) : nat := index_of emotion emotion_scale.

(** The value of [getEmotionTransitionConfig]; [duration] in milliseconds. *)
Record Transition : Type := {
  duration : nat;
  easing : str
}.

Definition getEmotionTransitionConfig (fromEmotion toEmotion : str)
    : Transition :=
  if str_eqb fromEmotion toEmotion then
    {| duration := 0; easing := lit "linear" |}
  else
    let dramaticShift :=
      (str_eqb fromEmotion (lit "happy") && str_eqb toEmotion (lit "sad"))
      || (str_eqb fromEmotion (lit "sad") && str_eqb toEmotion (lit "happy"))
      || (str_eqb fromEmotion (lit "excited")
          && str_eqb toEmotion (lit "confused"))
      || (str_eqb fromEmotion (lit "confused")
          && str_eqb toEmotion (lit "excited")) in
    if dramaticShift then
      {| duration := 1000;
         easing := lit "cubic-bezier(0.68, -0.55, 0.27, 1.55)" |}
    else
      let moderateShift :=
        (includes fromEmotion (lit "neutral")
         && negb (includes toEmotion (lit "neutral")))
        || (negb (includes fromEmotion (lit "neutral"))
            && includes toEmotion (lit "neutral")) in
      if moderateShift then
        {| duration := 600; easing := lit "cubic-bezier(0.4, 0, 0.2, 1)" |}
      else {| duration := 300; easing := lit "ease-in-out" |}.

(* ------------------------------------------------------------------ *)
(** ** More sample inputs *)

Definition entity_ada : Entity :=
  {| ent_type := lit "person"; ent_name := lit "Ada";
     ent_attributes := None |}.

Definition entity_bob : Entity :=
  {| ent_type := lit "person"; ent_name := lit "Bob";
     ent_attributes := Some (lit "{}") |}.

(** The world after the entity loop over Ada and Bob, [alice] signed in. *)
Definition world_two_entities : World :=
  snd (entity_loop (ext := ext_up) (lit "chat") [entity_ada; entity_bob] []
         world_alice).

(* ------------------------------------------------------------------ *)
(** ** The other tables: messages, emotion logs, daily summaries

    The functions below work on the world and on three more tables.  A
    session id is a UUID, as the columns [session_id UUID] and
    [related_entity_id UUID] have it; a date is a day number, as the column
    [date DATE] has it. *)

Record MessageRow : Type := {
  msg_id : Uuid;
  msg_user_id : Uuid;
  msg_role : str;
  msg_content : str;
  msg_created_at : nat;
  msg_session_id : option Uuid;
  msg_sentiment_score : option Q
}.

Record EmotionLog : Type := {
  emo_id : Uuid;
  emo_user_id : Uuid;
  emo_session_id : option Uuid;
  emo_emotion : str;
  emo_sentiment_score : Q;
  emo_timestamp : nat
}.

Record DailySummary : Type := {
  ds_id : Uuid;
  ds_user_id : Uuid;
  ds_date : N;
  ds_chat_summary : option str;
  ds_knowledge_summary : option str;
  ds_emotion_summary : option str;
  ds_email_summary : option str;
  ds_calendar_summary : option str;
  ds_code_changes : option str;
  ds_created_at : nat;
  ds_email_sent : bool
}.

(** Errors of the functions on [Db]: those of the world, and the error
    PGRST116 of [.single()], "the result contains 0 (or several) rows". *)
Inductive DbError : Type :=
| CoreError (e : Error)
| NotSingleRow.

(** The world, the three tables, and what the functions on them have
    written with [console.error]. *)
Record Db : Type := {
  core : World;
  messages : list MessageRow;
  emotion_logs : list EmotionLog;
  daily_summaries : list DailySummary;
  db_console : list (str * DbError)
}.

Definition empty_db : Db :=
  {| core := empty_world; messages := []; emotion_logs := [];
     daily_summaries := []; db_console := [] |}.

Definition with_core (w : World) (d : Db) : Db :=
  {| core := w; messages := messages d; emotion_logs := emotion_logs d;
     daily_summaries := daily_summaries d; db_console := db_console d |}.

(** A UUID is drawn. *)
Definition bump_id (w : World) : World :=
  {| auth_user := auth_user w; clock := clock w; next_id := N.succ (next_id w);
     embed_calls := embed_calls w; console := console w;
     embeddings := embeddings w; knowledge_nodes := knowledge_nodes w;
     knowledge_relations := knowledge_relations w; files := files w;
     events := events w |}.

Definition add_message (r : MessageRow) (d : Db) : Db :=
  {| core := bump_id (core d); messages := messages d ++ [r];
     emotion_logs := emotion_logs d; daily_summaries := daily_summaries d;
     db_console := db_console d |}.

Definition add_emotion_log (r : EmotionLog) (d : Db) : Db :=
  {| core := bump_id (core d); messages := messages d;
     emotion_logs := emotion_logs d ++ [r];
     daily_summaries := daily_summaries d; db_console := db_console d |}.

Definition add_daily_summary (r : DailySummary) (d : Db) : Db :=
  {| core := bump_id (core d); messages := messages d;
     emotion_logs := emotion_logs d;
     daily_summaries := daily_summaries d ++ [r];
     db_console := db_console d |}.

Definition set_daily_summaries (l : list DailySummary) (d : Db) : Db :=
  {| core := core d; messages := messages d; emotion_logs := emotion_logs d;
     daily_summaries := l; db_console := db_console d |}.

Inductive DbResult (A : Type) : Type :=
| DbOk (a : A)
| DbErr (e : DbError).
Arguments DbOk {A} a.
Arguments DbErr {A} e.

Definition DbM (A : Type) : Type := Db -> DbResult A * Db.

Definition dret {A} (a : A) : DbM A := fun d => (DbOk a, d).

Definition dthrow {A} (e : DbError) : DbM A := fun d => (DbErr e, d).

Definition dbind {A B} (m : DbM A) (k : A -> DbM B) : DbM B := fun d =>
  match m d with
  | (DbOk a, d') => k a d'
  | (DbErr e, d') => (DbErr e, d')
  end.

Definition dtry_catch {A} (m : DbM A) (h : DbError -> DbM A) : DbM A :=
  fun d =>
    match m d with
    | (DbOk a, d') => (DbOk a, d')
    | (DbErr e, d') => h e d'
    end.

(** A function of the world, run on the world of a [Db]. *)
Definition lift {A} (m : M A) : DbM A := fun d =>
  match m (core d) with
  | (Ok a, w') => (DbOk a, with_core w' d)
  | (Err e, w') => (DbErr (CoreError e), with_core w' d)
  end.

(** [console.error(message, error)] *)
Definition dconsole_error (message : string) (e : DbError) : DbM unit :=
  fun d =>
    (DbOk tt,
     {| core := core d; messages := messages d;
        emotion_logs := emotion_logs d; daily_summaries := daily_summaries d;
        db_console := db_console d ++ [(lit message, e)] |}).

Declare Scope db_scope.
Delimit Scope db_scope with db.
Notation "x <- m ;; k" := (dbind m (fun x => k))
  (at level 61, m at next level, right associativity) : db_scope.
Notation "m ;; k" := (dbind m (fun _ => k))
  (at level 61, right associativity) : db_scope.

(** [messages_policy], [emotion_logs_policy], [daily_summaries_policy]:
    [USING (user_id = auth.uid())]. *)
Definition rls_messages (d : Db) : list MessageRow :=
  filter (fun r => is_auth_uid (core d) (msg_user_id r)) (messages d).

Definition rls_daily_summaries (d : Db) : list DailySummary :=
  filter (fun r => is_auth_uid (core d) (ds_user_id r)) (daily_summaries d).

(** [ORDER BY created_at DESC]: the newest first; of two rows of the same
    time the one stored first comes first (the database promises no order
    for them). *)
Fixpoint insert_recent (m : MessageRow) (l : list MessageRow)
    : list MessageRow :=
  match l with
  | [] => [m]
  | x :: t =>
      if msg_created_at x <=? msg_created_at m then m :: x :: t
      else x :: insert_recent m t
  end.

Definition newest_first (l : list MessageRow) : list MessageRow :=
  fold_right insert_recent [] l.

(** [getRecentMessages(limit = 50)] *)
Definition getRecentMessages (limit : nat) : DbM (list MessageRow) :=
  (userId <- lift getCurrentUserId ;;
   fun d =>
     (DbOk (firstn limit
              (newest_first
                 (filter (fun r => N.eqb (msg_user_id r) userId)
                    (rls_messages d)))), d))%db.

(** [saveMessage(role, content, sessionId?, sentimentScore?)] *)
Definition saveMessage (role content : str) (sessionId : option Uuid)
    (sentimentScore : option Q) : DbM MessageRow :=
  (userId <- lift getCurrentUserId ;;
   fun d =>
     let data := {| msg_id := next_id (core d); msg_user_id := userId;
                    msg_role := role; msg_content := content;
                    msg_created_at := clock (core d);
                    msg_session_id := sessionId;
                    msg_sentiment_score := sentimentScore |} in
     (DbOk data, add_message data d))%db.

(** [logEmotion(emotion, sentimentScore, sessionId?)] *)
Definition logEmotion (emotion : str) (sentimentScore : Q)
    (sessionId : option Uuid) : DbM EmotionLog :=
  (userId <- lift getCurrentUserId ;;
   fun d =>
     let data := {| emo_id := next_id (core d); emo_user_id := userId;
                    emo_session_id := sessionId; emo_emotion := emotion;
                    emo_sentiment_score := sentimentScore;
                    emo_timestamp := clock (core d) |} in
     (DbOk data, add_emotion_log data d))%db.

(** [getDailySummary(date)]: [.single()] gives the row when there is exactly
    one; its error PGRST116 for no row, or several, is not thrown and the
    data is [null]. *)
Definition getDailySummary (date : N) : DbM (option DailySummary) :=
  (userId <- lift getCurrentUserId ;;
   fun d =>
     match filter (fun r => N.eqb (ds_user_id r) userId
                            && N.eqb (ds_date r) date)
             (rls_daily_summaries d) with
     | [data] => (DbOk (Some data), d)
     | _ => (DbOk None, d)
     end)%db.

(** [a ?? b] *)
Definition nullish {A} (a b : option A) : option A :=
  match a with
  | Some x => Some x
  | None => b
  end.

(** [saveDailySummary(date, chatSummary?, knowledgeSummary?, emotionSummary?,
    emailSummary?, calendarSummary?, codeChanges?)] *)
Definition saveDailySummary (date : N)
    (chatSummary knowledgeSummary emotionSummary emailSummary
       calendarSummary codeChanges : option str) : DbM DailySummary :=
  (userId <- lift getCurrentUserId ;;
   existingSummary <- getDailySummary date ;;
   match existingSummary with
   | Some existingSummary =>
       fun d =>
         let updated (r : DailySummary) : DailySummary :=
           {| ds_id := ds_id r; ds_user_id := ds_user_id r;
              ds_date := ds_date r;
              ds_chat_summary :=
                nullish chatSummary (ds_chat_summary existingSummary);
              ds_knowledge_summary :=
                nullish knowledgeSummary
                  (ds_knowledge_summary existingSummary);
              ds_emotion_summary :=
                nullish emotionSummary (ds_emotion_summary existingSummary);
              ds_email_summary :=
                nullish emailSummary (ds_email_summary existingSummary);
              ds_calendar_summary :=
                nullish calendarSummary
                  (ds_calendar_summary existingSummary);
              ds_code_changes :=
                nullish codeChanges (ds_code_changes existingSummary);
              ds_created_at := ds_created_at r;
              ds_email_sent := ds_email_sent r |} in
         let hit (r : DailySummary) : bool :=
           is_auth_uid (core d) (ds_user_id r)
           && N.eqb (ds_id r) (ds_id existingSummary) in
         let d' :=
           set_daily_summaries
             (map (fun r => if hit r then updated r else r)
                (daily_summaries d)) d in
         match map updated (filter hit (daily_summaries d)) with
         | [data] => (DbOk data, d')
         | _ => (DbErr NotSingleRow, d')
         end
   | None =>
       fun d =>
         let data := {| ds_id := next_id (core d); ds_user_id := userId;
                        ds_date := date; ds_chat_summary := chatSummary;
                        ds_knowledge_summary := knowledgeSummary;
                        ds_emotion_summary := emotionSummary;
                        ds_email_summary := emailSummary;
                        ds_calendar_summary := calendarSummary;
                        ds_code_changes := codeChanges;
                        ds_created_at := clock (core d);
                        ds_email_sent := false |} in
         (DbOk data, add_daily_summary data d)
   end)%db.

(* ------------------------------------------------------------------ *)
(** ** server/services/openai.ts: processMessage, analyzeSentiment;
       server/services/emotion.ts: trackEmotion *)

(** [interface Message] *)
Record ChatMessage : Type := {
  chat_role : str;
  chat_content : str
}.

(** The calls of the chat model that the code makes. *)
Class ChatServices : Type := {
  (** [openai.chat.completions.create] of [processMessage], reduced to
      [completion.choices[0].message.content] ([None] for [null]) *)
  chat_complete : list ChatMessage -> Result (option str);
  (** the call of [analyzeSentiment] followed by [JSON.parse], giving
      [score] and [emotion]; [None] when the call or the parse throws *)
  sentiment_analysis : str -> option (Q * str)
}.

Definition DEFAULT_SYSTEM_MESSAGE : ChatMessage :=
  {| chat_role := lit "system";
     chat_content :=
       join [NL]
         [lit "You are Astra, an AI assistant with a distinctive ethereal personality.";
          lit "  - You have access to the user's files, knowledge, and can help with various tasks.";
          lit "  - You can execute code to improve yourself.";
          lit "  - You remember previous conversations and can learn from them.";
          lit "  - You maintain a respectful, helpful, and slightly otherworldly tone.";
          lit "  - When appropriate, you can suggest improvements or actions based on the conversation."] |}.

(** The array [messages] of [processMessage]. *)
Definition prompt_messages (relevantContext : str)
    (conversationHistory : list ChatMessage) : list ChatMessage :=
  [DEFAULT_SYSTEM_MESSAGE]
    ++ (if 0 <? length relevantContext
        then [{| chat_role := lit "system";
                 chat_content :=
                   lit "Here is relevant information from your knowledge base that may help with the user's query:"
                     ++ [NL; NL] ++ relevantContext |}]
        else [])
    ++ conversationHistory.

(** [msg => ({ role: msg.role, content: msg.content })] *)
Definition to_chat (msg : MessageRow) : ChatMessage :=
  {| chat_role := msg_role msg; chat_content := msg_content msg |}.

(** [completion.choices[0].message.content || 'I apologize, ...']: the
    content, unless it is [null] or empty. *)
Definition assistant_text (content : option str) : str :=
  match content with
  | Some (c :: rest) => c :: rest
  | _ => lit "I apologize, but I could not generate a response."
  end.

(** The value [processMessage] resolves to. *)
Record ChatResponse : Type := {
  cr_message : str;
  cr_sessionId : Uuid
}.

Section WithChatServices.
Context {ext : Externals} {chat : ChatServices}.

(** [processMessage(userMessage, userId, sessionId)], up to its [return].
    The session id is given (the default of the source, a time stamp, is not
    a UUID).  The knowledge extraction the source starts before returning is
    not awaited: it is no part of the call. *)
Definition processMessage (userMessage : str) (userId sessionId : Uuid)
    : DbM ChatResponse :=
  dtry_catch
    (saveMessage (lit "user") userMessage (Some sessionId) None ;;
     lift (logEvent (lit "message") (lit "User sent a message")
             (Some sessionId) (Some (lit "messages")) []) ;;
     recentMessages <- getRecentMessages 20 ;;
     let conversationHistory := map to_chat recentMessages in
     relevantContext <- lift (getRelevantContext userMessage userId) ;;
     let messages := prompt_messages relevantContext conversationHistory in
     completion <- lift (fun w => (chat_complete messages, w)) ;;
     let assistantMessage := assistant_text completion in
     saveMessage (lit "assistant") assistantMessage (Some sessionId) None ;;
     dret {| cr_message := assistantMessage; cr_sessionId := sessionId |})%db
    (fun error =>
       (dconsole_error "Error processing message:" error ;;
        dthrow error)%db).

(** [analyzeSentiment]: any error is logged and answered with the neutral
    result. *)
Definition analyzeSentiment (text : str) : M (Q * str) :=
  match sentiment_analysis text with
  | Some r => ret r
  | None =>
      console_error "Error analyzing sentiment:" ProviderUnavailable ;;
      ret (0%Q, lit "neutral")
  end.

(** [trackEmotion(text, userId, sessionId?)]; it returns [emotion] and
    [score]. *)
Definition trackEmotion (text : str) (userId : Uuid)
    (sessionId : option Uuid) : DbM (str * Q) :=
  dtry_catch
    (analysis <- lift (analyzeSentiment text) ;;
     let score := fst analysis in
     let emotion := snd analysis in
     logEmotion emotion score sessionId ;;
     lift (logEvent (lit "emotion_analysis")
             (lit "Analyzed emotion: " ++ emotion ++ lit " ("
                ++ toFixed2 score ++ lit ")")
             sessionId (Some (lit "emotion")) [lit "emotion"; emotion]) ;;
     dret (emotion, score))%db
    (fun error =>
       (dconsole_error "Error tracking emotion:" error ;;
        dthrow error)%db).

End WithChatServices.

(* ------------------------------------------------------------------ *)
(** ** The system as a transition system *)

Section System.
Context {ext : Externals} {chat : ChatServices}.

(** What can happen to the database: a user signs in or out; time passes; a
    row is inserted into a table that is not modelled, which draws a UUID
    ([logCodeChange] into [code_changes], [shareResource] into
    [shared_resources]); or one of the functions modelled, those of the world
    and those of the other tables alike, runs to its end, whatever it
    returns.  The state in which [processMessage] comes to its query is the
    state after its calls of [saveMessage], [logEvent], [getRecentMessages]
    and [generateEmbedding], steps all of them: it is reached as well. *)
Inductive step : Db -> Db -> Prop :=
| step_auth d u :
    step d (with_core (set_auth u (core d)) d)
| step_tick d :
    step d (with_core (tick (core d)) d)
| step_insert_elsewhere d :
    step d (with_core (bump_id (core d)) d)
(* server/utils/supabase.ts *)
| step_getCurrentUserId d :
    step d (snd (lift getCurrentUserId d))
| step_getRecentMessages d limit :
    step d (snd (getRecentMessages limit d))
| step_saveMessage d role content sessionId sentimentScore :
    step d (snd (saveMessage role content sessionId sentimentScore d))
| step_getKnowledgeNodes d type :
    step d (snd (lift (getKnowledgeNodes type) d))
| step_addKnowledgeNode d type name content source :
    step d (snd (lift (addKnowledgeNode type name content source) d))
| step_addKnowledgeRelation d sourceId targetId relationType :
    step d (snd (lift (addKnowledgeRelation sourceId targetId relationType) d))
| step_saveFileMetadata d name type size filePath summary :
    step d (snd (lift (saveFileMetadata name type size filePath summary) d))
| step_getFiles d :
    step d (snd (lift getFiles d))
| step_saveEmbedding d sourceType sourceId content embedding :
    step d (snd (lift (saveEmbedding sourceType sourceId content embedding) d))
| step_searchEmbeddings d embedding limit :
    step d (snd (lift (searchEmbeddings embedding limit) d))
| step_logEmotion d emotion sentimentScore sessionId :
    step d (snd (logEmotion emotion sentimentScore sessionId d))
| step_getDailySummary d date :
    step d (snd (getDailySummary date d))
| step_saveDailySummary d date chatSummary knowledgeSummary emotionSummary
    emailSummary calendarSummary codeChanges :
    step d (snd (saveDailySummary date chatSummary knowledgeSummary
                   emotionSummary emailSummary calendarSummary codeChanges d))
| step_logEvent d type description relatedEntityId relatedEntityType tags :
    step d (snd (lift (logEvent type description relatedEntityId
                         relatedEntityType tags) d))
(* server/services/openai.ts *)
| step_generateEmbedding d text :
    step d (snd (lift (generateEmbedding text) d))
| step_extractKnowledge d text :
    step d (snd (lift (extractKnowledge text) d))
| step_getRelevantContext d query userId :
    step d (snd (lift (getRelevantContext query userId) d))
| step_processMessage d userMessage userId sessionId :
    step d (snd (processMessage userMessage userId sessionId d))
| step_analyzeSentiment d text :
    step d (snd (lift (analyzeSentiment text) d))
(* server/services/knowledge.ts *)
| step_processTextForKnowledge d text source userId :
    step d (snd (lift (processTextForKnowledge text source userId) d))
| step_queryKnowledge d topic userId :
    step d (snd (lift (queryKnowledge topic userId) d))
(* server/services/file.ts *)
| step_processFile d filePath fileSize textContent fileName fileType userId :
    step d (snd (lift (processFile filePath fileSize textContent fileName
                         fileType userId) d))
(* server/services/emotion.ts *)
| step_trackEmotion d text userId sessionId :
    step d (snd (trackEmotion text userId sessionId d)).

Definition steps : Db -> Db -> Prop := clos_refl_trans Db step.

Definition reachable (d : Db) : Prop := steps empty_db d.

End System.

(** What every function on [Db] does to the world of the database. *)
Definition dpreserves {A} (m : DbM A) : Prop :=
  forall d, evolves (core d) (core (snd (m d))).

(* ------------------------------------------------------------------ *)
(** ** Sample chat services and databases *)

Definition chat_answers (answer : str) : ChatServices :=
  {| chat_complete := fun _ => Ok (Some answer);
     sentiment_analysis := fun _ => Some (4 # 5, lit "happy") |}.

Definition chat_down : ChatServices :=
  {| chat_complete := fun _ => Err ProviderUnavailable;
     sentiment_analysis := fun _ => None |}.

(** [alice] signed in, nothing stored; and the same a moment after she has
    stored a message. *)
Definition db_alice : Db := with_core world_alice empty_db.

Definition session_one : Uuid := 5001%N.

Definition db_one_message : Db :=
  let d := snd (saveMessage (lit "user") (lit "hello") (Some session_one)
                  None db_alice) in
  with_core (tick (core d)) d.

(** [alice] stores a record with the embedding [axis 0], the one the sample
    provider gives for every text. *)
Definition world_alice_record : World :=
  snd (saveEmbedding (lit "file") 7%N (lit "text of alice") (axis 0)
         world_alice).

Definition record_alice : EmbeddingRow :=
  {| emb_id := 0%N; emb_user_id := alice; emb_source_type := lit "file";
     emb_source_id := 7%N; emb_content := lit "text of alice";
     emb_embedding := axis 0; emb_created_at := 0 |}.

(** Then [bob] signs in, stores a record with the same embedding, and sends
    a chat message.  The databases that [processMessage] goes through up to
    its query: after its [saveMessage], its [logEvent], its
    [getRecentMessages], and the [generateEmbedding] of
    [getRelevantContext]. *)
Definition db_bob : Db :=
  with_core (set_auth (Some bob) world_alice_record) db_alice.

Definition db_bob_record : Db :=
  snd (lift (saveEmbedding (lit "file") 8%N (lit "text of bob") (axis 0))
         db_bob).

Definition record_bob : EmbeddingRow :=
  {| emb_id := 1%N; emb_user_id := bob; emb_source_type := lit "file";
     emb_source_id := 8%N; emb_content := lit "text of bob";
     emb_embedding := axis 0; emb_created_at := 0 |}.

Definition db_bob_message : Db :=
  snd (saveMessage (lit "user") question (Some session_one) None
         db_bob_record).

Definition db_bob_event : Db :=
  snd (lift (logEvent (lit "message") (lit "User sent a message")
               (Some session_one) (Some (lit "messages")) [])
         db_bob_message).

Definition db_bob_history : Db :=
  snd (getRecentMessages 20 db_bob_event).

Definition db_bob_query : Db :=
  snd (lift (generateEmbedding (ext := ext_up) question) db_bob_history).

(** The primary key of [daily_summaries] and the next UUID; and at most one
    summary for a user and a date. *)
Definition summary_key (r : DailySummary) : Uuid * N :=
  (ds_user_id r, ds_date r).

Definition summaries_ok (d : Db) : Prop :=
  NoDup (map ds_id (daily_summaries d))
  /\ Forall (fun r => (ds_id r < next_id (core d))%N) (daily_summaries d)
  /\ NoDup (map summary_key (daily_summaries d)).

(** The summary of the user [u] for the day [date]. *)
Definition same_day (u : Uuid) (date : N) (r : DailySummary) : bool :=
  N.eqb (ds_user_id r) u && N.eqb (ds_date r) date.

(** A field of the summary there was, if there was one. *)
Definition old_field (old : option DailySummary)
    (field : DailySummary -> option str) : option str :=
  match old with
  | Some r => field r
  | None => None
  end.

(** The database after [alice] has sent ["hello"], the embedding provider
    being down and the chat model answering ["hi there"]. *)
Definition db_after_chat : Db :=
  snd (processMessage (ext := ext_down) (chat := chat_answers (lit "hi there"))
         (lit "hello") alice session_one db_alice).


(** The world after [alice] has uploaded a short text file, the provider
    answering. *)
Definition world_file_processed : World :=
  snd (processFile (ext := ext_up) doc_path 30%N text_sentences doc_name
         doc_type alice world_alice).

(** The database after [alice] has saved a chat summary for the day 100. *)
Definition db_with_summary : Db :=
  snd (saveDailySummary 100%N (Some (lit "talked about chunking")) None None
         None None None db_alice).



(* ================================================================== *)
(** * Properties of the chunker *)

Lemma nonspace_app (a b : str) : nonspace (a ++ b) = nonspace a ++ nonspace b.
Proof. apply filter_app. Qed.

Lemma nonspace_cons (c : N) (r : str) :
  nonspace (c :: r) = nonspace [c] ++ nonspace r.
Proof. exact (nonspace_app [c] r). Qed.

Lemma nonspace_blank (l : str) :
  forallb is_space l = true -> nonspace l = [].
Proof.
  induction l as [|c r IH]; simpl; [reflexivity|].
  intros Hc. apply andb_true_iff in Hc as [Hc Hr].
  rewrite Hc. simpl. auto.
Qed.

Lemma spaces_then_newline_blank (l : str) (n : nat) :
  spaces_then_newline l = Some n ->
  n <= length l /\ forallb is_space (firstn n l) = true.
Proof.
  revert n. induction l as [|c r IH]; simpl; intros n Hn; [discriminate|].
  destruct (is_space c) eqn:Hc; [|discriminate].
  destruct (spaces_then_newline r) as [k|] eqn:Hr.
  - injection Hn as <-. destruct (IH k eq_refl) as [Hle Hall].
    split; [lia|]. simpl. now rewrite Hc.
  - destruct (N.eqb c NL); [|discriminate]. injection Hn as <-.
    split; [lia|]. simpl. rewrite Hc. destruct r; reflexivity.
Qed.

Lemma paragraph_break_blank : blank_matcher paragraph_break.
Proof.
  intros prev l n. unfold paragraph_break.
  destruct l as [|c r]; [discriminate|].
  destruct (N.eqb c NL) eqn:Hc; [|discriminate].
  destruct (spaces_then_newline r) as [k|] eqn:Hr; simpl; [|discriminate].
  intros [= <-]. apply N.eqb_eq in Hc. subst c.
  destruct (spaces_then_newline_blank _ Hr) as [Hle Hall].
  split; [lia|]. simpl. exact Hall.
Qed.

Lemma spaces_blank (l : str) :
  spaces l <= length l /\ forallb is_space (firstn (spaces l) l) = true.
Proof.
  induction l as [|c r [Hle Hall]]; simpl; [auto|].
  destruct (is_space c) eqn:Hc; simpl; [|split; [lia|reflexivity]].
  rewrite Hc. split; [lia|exact Hall].
Qed.

Lemma sentence_break_blank : blank_matcher sentence_break.
Proof.
  intros prev l n. unfold sentence_break.
  destruct prev as [p|]; [|discriminate].
  destruct (is_terminator p); [|discriminate].
  destruct (spaces l) as [|k] eqn:Hs; [discriminate|].
  intros [= <-]. rewrite <- Hs. apply spaces_blank.
Qed.

Lemma split_from_nonspace (m : matcher) :
  blank_matcher m ->
  forall l prev skip cur,
    skip <= length l ->
    forallb is_space (firstn skip l) = true ->
    nonspace (concat (split_from m prev skip cur l))
    = nonspace (rev cur) ++ nonspace l.
Proof.
  intros Hm. induction l as [|c r IH]; intros prev skip cur Hlen Hskip.
  - simpl. now rewrite rev_append_rev, !app_nil_r.
  - destruct skip as [|k].
    + simpl split_from.
      destruct (m prev (c :: r)) as [[|k]|] eqn:Hmatch.
      * rewrite IH by (simpl; auto with arith).
        simpl rev. now rewrite nonspace_app, <- app_assoc, <- nonspace_cons.
      * destruct (Hm _ _ _ Hmatch) as [Hle Hall].
        simpl in Hle, Hall. apply andb_true_iff in Hall as [Hc Hall].
        simpl concat. rewrite nonspace_app, rev_append_rev, app_nil_r.
        rewrite IH by (auto; lia).
        simpl. now rewrite Hc.
      * rewrite IH by (simpl; auto with arith).
        simpl rev. now rewrite nonspace_app, <- app_assoc, <- nonspace_cons.
    + simpl in Hlen, Hskip. apply andb_true_iff in Hskip as [Hc Hskip].
      simpl split_from. rewrite IH by (auto; lia).
      simpl. now rewrite Hc.
Qed.

Lemma split_nonspace (m : matcher) (s : str) :
  blank_matcher m -> nonspace (concat (split m s)) = nonspace s.
Proof.
  intros Hm. unfold split.
  now rewrite split_from_nonspace by (auto; simpl; lia).
Qed.

Lemma slices_loop_concat (max : nat) :
  0 < max ->
  forall fuel s, length s <= fuel -> concat (slices_loop fuel s max) = s.
Proof.
  intros Hmax. induction fuel as [|fuel IH]; intros s Hlen.
  - destruct s; [reflexivity|simpl in Hlen; lia].
  - destruct s as [|c r]; [reflexivity|].
    cbn [slices_loop concat]. rewrite IH.
    + apply firstn_skipn.
    + rewrite length_skipn.
      change (length (c :: r)) with (S (length r)) in *. lia.
Qed.

Lemma slices_loop_fuel (max : nat) :
  0 < max ->
  forall fuel fuel' s, length s <= fuel -> length s <= fuel' ->
    slices_loop fuel s max = slices_loop fuel' s max.
Proof.
  intros Hmax. induction fuel as [|fuel IH]; intros fuel' s Hlen Hlen'.
  - destruct s; [now destruct fuel'|simpl in Hlen; lia].
  - destruct s as [|c r]; [now destruct fuel'|].
    destruct fuel' as [|fuel']; [simpl in Hlen'; lia|].
    cbn [slices_loop]. f_equal.
    apply IH; rewrite length_skipn;
      change (length (c :: r)) with (S (length r)) in *; lia.
Qed.

(** [length sentence] iterations are enough for the slicing loop. *)
Lemma slices_fuel (max fuel : nat) (s : str) :
  0 < max -> length s <= fuel -> slices_loop fuel s max = slices s max.
Proof.
  intros Hmax Hlen. unfold slices. now apply slices_loop_fuel.
Qed.

Lemma content_flush (st : chunk_state) : content (flush st) = content st.
Proof.
  destruct st as [chunks cur]. unfold flush, content.
  destruct (0 <? length cur); simpl; [|reflexivity].
  now rewrite concat_app, app_nil_r; simpl; rewrite app_nil_r.
Qed.

Lemma flush_empty_or_same (st : chunk_state) :
  snd (flush st) = [].
Proof.
  destruct st as [chunks cur]. unfold flush.
  destruct (0 <? length cur) eqn:E; simpl; [reflexivity|].
  apply Nat.ltb_ge in E. destruct cur; [reflexivity|simpl in E; lia].
Qed.

Lemma content_sentence_step (max : nat) (st : chunk_state) (s : str) :
  0 < max ->
  content (sentence_step max st s) = content st ++ nonspace s.
Proof.
  intros Hmax. unfold sentence_step. destruct st as [chunks cur].
  destruct (max <? length cur + length s).
  - pose proof (content_flush (chunks, cur)) as Hf.
    pose proof (flush_empty_or_same (chunks, cur)) as He.
    destruct (flush (chunks, cur)) as [chunks' cur']. simpl in He. subst cur'.
    rewrite <- Hf. unfold content. simpl. rewrite !app_nil_r.
    destruct (max <? length s); simpl.
    + rewrite app_nil_r, concat_app, nonspace_app.
      unfold slices. now rewrite slices_loop_concat.
    + apply nonspace_app.
  - unfold content. simpl.
    rewrite !nonspace_app, <- app_assoc. do 2 f_equal.
    now destruct (0 <? length cur).
Qed.

Lemma content_sentences (max : nat) (l : list str) (st : chunk_state) :
  0 < max ->
  content (fold_left (sentence_step max) l st)
  = content st ++ nonspace (concat l).
Proof.
  intros Hmax. revert st. induction l as [|s l IH]; intros st; simpl.
  - now rewrite app_nil_r.
  - rewrite IH, content_sentence_step, nonspace_app by assumption.
    now rewrite app_assoc.
Qed.

Lemma content_paragraph_step (max : nat) (st : chunk_state) (p : str) :
  0 < max ->
  content (paragraph_step max st p) = content st ++ nonspace p.
Proof.
  intros Hmax. unfold paragraph_step. destruct st as [chunks cur].
  destruct (max <? length cur + length p).
  - destruct (max <? length p).
    + rewrite content_sentences, content_flush by assumption.
      now rewrite split_nonspace by apply sentence_break_blank.
    + pose proof (content_flush (chunks, cur)) as Hf.
      pose proof (flush_empty_or_same (chunks, cur)) as He.
      destruct (flush (chunks, cur)) as [chunks' cur'].
      simpl in He. subst cur'. rewrite <- Hf.
      unfold content. simpl. rewrite app_nil_r. apply nonspace_app.
  - unfold content. simpl.
    rewrite !nonspace_app, <- app_assoc. do 2 f_equal.
    now destruct (0 <? length cur).
Qed.

Lemma content_paragraphs (max : nat) (l : list str) (st : chunk_state) :
  0 < max ->
  content (fold_left (paragraph_step max) l st)
  = content st ++ nonspace (concat l).
Proof.
  intros Hmax. revert st. induction l as [|p l IH]; intros st; simpl.
  - now rewrite app_nil_r.
  - rewrite IH, content_paragraph_step, nonspace_app by assumption.
    now rewrite app_assoc.
Qed.

(** C8. A text no longer than [maxChunkSize] comes back as the single chunk
    [text], unchanged; the empty text gives one empty chunk.  ([chunkText] is
    a total function to lists of strings: it has no error result.) *)
Theorem chunkText_short_input (maxChunkSize : nat) :
  (forall text, length text <= maxChunkSize ->
     chunkText text maxChunkSize = [text])
  /\ chunkText [] maxChunkSize = [[]].
Proof.
  split; [|reflexivity].
  intros text Hlen. unfold chunkText.
  apply Nat.leb_le in Hlen. rewrite Hlen. now rewrite orb_true_r.
Qed.

(** C8 at a text of ten characters with [maxChunkSize = 12]. *)
Lemma chunkText_short_input_witness :
  length (lit "short text") <= 12
  /\ chunkText (lit "short text") 12 = [lit "short text"].
Proof.
  split; [vm_compute; lia|].
  apply (proj1 (chunkText_short_input 12)). vm_compute. lia.
Defined.

(** C2, at the input ["abc\n\nde"] with [maxChunkSize = 5]: the paragraphs
    ["abc"] and ["de"] pass the test [3 + 2 > 5] and are joined with the
    two-character separator into one chunk of length 7.  The size bound does
    not hold of [chunkText]. *)
Theorem chunkText_joined_chunk_exceeds_bound :
  chunkText text_abc_de 5 = [text_abc_de]
  /\ length text_abc_de = 7
  /\ ~ (forall text maxChunkSize, 0 < maxChunkSize ->
          Forall (fun chunk => length chunk <= maxChunkSize)
            (chunkText text maxChunkSize)).
Proof.
  split; [reflexivity|]. split; [reflexivity|].
  intros Hbound. specialize (Hbound text_abc_de 5 ltac:(lia)).
  change (chunkText text_abc_de 5) with [text_abc_de] in Hbound.
  apply Forall_inv in Hbound. vm_compute in Hbound. lia.
Qed.

(** C3 as stated fails: the texts ["abc\n\ndefg"] and ["abc\n \ndefg"] have
    the same chunks for [maxChunkSize = 5], so that no way of joining the
    chunks gives back the text for every input. *)
Lemma chunkText_round_trip_counterexample :
  chunkText text_abc_defg 5 = [lit "abc"; lit "defg"]
  /\ chunkText text_abc_sp_defg 5 = [lit "abc"; lit "defg"]
  /\ concat (chunkText text_abc_defg 5) <> text_abc_defg
  /\ ~ (exists rejoin : list str -> str,
          forall text maxChunkSize, 0 < maxChunkSize ->
            rejoin (chunkText text maxChunkSize) = text).
Proof.
  split; [reflexivity|]. split; [reflexivity|]. split; [discriminate|].
  intros [rejoin Hrejoin].
  pose proof (Hrejoin text_abc_defg 5 ltac:(lia)) as H1.
  pose proof (Hrejoin text_abc_sp_defg 5 ltac:(lia)) as H2.
  change (chunkText text_abc_sp_defg 5) with (chunkText text_abc_defg 5) in H2.
  rewrite H1 in H2. discriminate H2.
Qed.

(** Chunking keeps the code units that are not white space. *)
Lemma chunkText_nonspace (text : str) (maxChunkSize : nat) :
  0 < maxChunkSize ->
  nonspace (concat (chunkText text maxChunkSize)) = nonspace text.
Proof.
  intros Hmax. unfold chunkText.
  destruct ((length text =? 0) || (length text <=? maxChunkSize)).
  - simpl. now rewrite app_nil_r.
  - pose proof (content_paragraphs (split paragraph_break text) ([], []) Hmax)
      as Hc.
    rewrite split_nonspace in Hc by apply paragraph_break_blank.
    destruct (fold_left _ _ _) as [chunks cur].
    unfold content in Hc. simpl in Hc. rewrite <- Hc.
    destruct (0 <? length cur) eqn:E.
    + rewrite concat_app. simpl. now rewrite app_nil_r.
    + apply Nat.ltb_ge in E. destruct cur; [|simpl in E; lia].
      now rewrite app_nil_r.
Qed.

(* ------------------------------------------------------------------ *)
(** ** The chunks hold the text, the breaks apart *)

Lemma last_of_app (prev : option N) (a b : str) :
  last_of prev (a ++ b) = last_of (last_of prev a) b.
Proof. apply fold_left_app. Qed.

Lemma last_of_nonempty (p q : option N) (s : str) :
  s <> [] -> last_of p s = last_of q s.
Proof. destruct s as [|c r]; [contradiction|reflexivity]. Qed.

Lemma holds_same (s : str) : forall prev, holds prev s s.
Proof. induction s as [|c r IH]; intros prev; constructor; apply IH. Qed.

Lemma holds_app (prev : option N) (b1 c1 b2 c2 : str) :
  holds prev b1 c1 -> holds (last_of prev b1) b2 c2 ->
  holds prev (b1 ++ b2) (c1 ++ c2).
Proof.
  induction 1 as [prev|prev c body chunk _ IH|prev g body chunk Hg _ IH
                 |prev g body chunk Hg _ IH]; intros H2.
  - exact H2.
  - simpl. apply holds_unit. apply IH. exact H2.
  - rewrite <- app_assoc. simpl. apply holds_paragraph; [exact Hg|].
    apply IH. now rewrite <- last_of_app.
  - rewrite <- app_assoc. simpl. apply holds_sentence; [exact Hg|].
    apply IH. now rewrite <- last_of_app.
Qed.

Lemma holds_nil_inv (prev : option N) (body : str) :
  holds prev body [] -> body = [].
Proof. now inversion 1. Qed.

Lemma chunked_app (prev : option N) (t1 t2 : str) (cs1 cs2 : list str) :
  chunked prev t1 cs1 -> chunked (last_of prev t1) t2 cs2 ->
  chunked prev (t1 ++ t2) (cs1 ++ cs2).
Proof.
  induction 1 as [prev|prev g rest chunks Hg _ IH
                 |prev body chunk rest chunks Hb _ IH]; intros H2.
  - exact H2.
  - rewrite <- app_assoc. apply chunked_break; [exact Hg|].
    apply IH. now rewrite <- last_of_app.
  - rewrite <- app_assoc. simpl. apply chunked_chunk; [exact Hb|].
    apply IH. now rewrite <- last_of_app.
Qed.

Lemma chunked_one (prev : option N) (body chunk : str) :
  holds prev body chunk -> chunked prev body [chunk].
Proof.
  intros H. rewrite <- (app_nil_r body).
  apply chunked_chunk; [exact H|constructor].
Qed.

(** A break behind the chunks is left out. *)
Lemma chunked_skip (prev : option N) (done g : str) (chunks : list str) :
  chunked prev done chunks ->
  paragraph_gap g \/ sentence_gap (last_of prev done) g \/ g = [] ->
  chunked prev (done ++ g) chunks.
Proof.
  intros Hc [Hg|[Hg| ->]]; [| |now rewrite app_nil_r];
    rewrite <- (app_nil_r chunks); (apply chunked_app; [exact Hc|]);
    rewrite <- (app_nil_r g); (apply chunked_break; [auto|constructor]).
Qed.

Lemma represents_flush (prev : option N) (done : str) (st : chunk_state) :
  represents prev done st ->
  chunked prev done (fst (flush st)) /\ snd (flush st) = [].
Proof.
  intros [done1 [body [-> [Hc Hb]]]]. destruct st as [chunks cur].
  unfold flush. simpl in *. destruct (0 <? length cur) eqn:E; simpl.
  - split; [|reflexivity]. apply chunked_app; [exact Hc|].
    now apply chunked_one.
  - apply Nat.ltb_ge in E. destruct cur; [|simpl in E; lia].
    apply holds_nil_inv in Hb. subst body. now rewrite app_nil_r.
Qed.

Lemma slices_loop_chunked (max : nat) :
  0 < max ->
  forall fuel s prev, length s <= fuel ->
    chunked prev s (slices_loop fuel s max).
Proof.
  intros Hmax. induction fuel as [|fuel IH]; intros s prev Hlen.
  - destruct s; [constructor|simpl in Hlen; lia].
  - destruct s as [|c r]; [constructor|].
    cbn [slices_loop]. rewrite <- (firstn_skipn max (c :: r)) at 1.
    apply chunked_chunk; [apply holds_same|]. apply IH.
    rewrite length_skipn.
    change (length (c :: r)) with (S (length r)) in *. lia.
Qed.

(** A piece that follows a sentence break, or the first piece of a paragraph,
    goes through the body of the sentence loop. *)
Lemma sentence_step_represents (max : nat) (prev : option N) (done : str)
    (st : chunk_state) (g s : str) :
  0 < max ->
  represents prev done st ->
  sentence_gap (last_of prev done) g \/ (g = [] /\ snd st = []) ->
  represents prev (done ++ g ++ s) (sentence_step max st s).
Proof.
  intros Hmax Hrep Hgap.
  assert (Hskip : paragraph_gap g \/ sentence_gap (last_of prev done) g
                  \/ g = []) by tauto.
  unfold sentence_step. destruct st as [chunks cur].
  destruct (max <? length cur + length s).
  - destruct (represents_flush Hrep) as [Hc He].
    destruct (flush (chunks, cur)) as [chunks' cur']. simpl in Hc, He.
    subst cur'. pose proof (chunked_skip Hc Hskip) as Hc'.
    destruct (max <? length s).
    + exists (done ++ g ++ s), []. rewrite app_nil_r. split; [reflexivity|].
      split; [|constructor]. simpl. rewrite app_assoc.
      apply chunked_app; [exact Hc'|]. now apply slices_loop_chunked.
    + exists (done ++ g), s. rewrite <- app_assoc. split; [reflexivity|].
      split; [exact Hc'|apply holds_same].
  - destruct Hrep as [done1 [body [-> [Hc Hb]]]]. simpl in Hc, Hb.
    destruct (0 <? length cur) eqn:E.
    + destruct Hgap as [Hg|[_ Hcur]];
        [|simpl in Hcur; subst cur; discriminate].
      exists done1, (body ++ g ++ s). rewrite <- app_assoc.
      split; [reflexivity|]. split; [exact Hc|]. simpl snd.
      apply holds_app; [exact Hb|].
      change (lit " " ++ s) with (32%N :: s).
      apply holds_sentence; [now rewrite <- last_of_app|apply holds_same].
    + apply Nat.ltb_ge in E. destruct cur; [|simpl in E; lia].
      apply holds_nil_inv in Hb. subst body. rewrite app_nil_r in *.
      exists (done1 ++ g), s. rewrite <- app_assoc. split; [reflexivity|].
      split; [now apply chunked_skip|apply holds_same].
Qed.

Lemma fold_represents (f : chunk_state -> str -> chunk_state)
    (G : option N -> str -> Prop) (prev : option N) :
  (forall done st g s,
     represents prev done st -> G (last_of prev done) g ->
     represents prev (done ++ g ++ s) (f st s)) ->
  forall rest done st,
    represents prev done st ->
    gaps_ok G (last_of prev done) rest ->
    represents prev (done ++ weave rest) (fold_left f (map snd rest) st).
Proof.
  intros Hstep. induction rest as [|[g s] rest IH]; intros done st Hrep Hok.
  - simpl. now rewrite app_nil_r.
  - destruct Hok as [Hg Hok]. cbn [map fold_left snd].
    replace (done ++ weave ((g, s) :: rest))
      with ((done ++ g ++ s) ++ weave rest)
      by (unfold weave; simpl; now rewrite <- !app_assoc).
    apply IH; [now apply Hstep|now rewrite last_of_app].
Qed.

Lemma spaces_then_newline_gap (l : str) (n : nat) :
  spaces_then_newline l = Some n ->
  n <= length l
  /\ exists s, forallb is_space s = true /\ firstn n l = s ++ [NL].
Proof.
  revert n. induction l as [|c r IH]; simpl; intros n Hn; [discriminate|].
  destruct (is_space c) eqn:Hc; [|discriminate].
  destruct (spaces_then_newline r) as [k|] eqn:Hr.
  - injection Hn as <-. destruct (IH k eq_refl) as [Hle [s [Hs Hf]]].
    split; [lia|]. exists (c :: s). simpl. rewrite Hc, Hf. auto.
  - destruct (N.eqb c NL) eqn:E; [|discriminate]. injection Hn as <-.
    apply N.eqb_eq in E. subst c.
    split; [lia|]. exists []. split; [reflexivity|]. now destruct r.
Qed.

Lemma paragraph_break_gap (prev : option N) (l : str) (k : nat) :
  paragraph_break prev l = Some (S k) ->
  S k <= length l /\ paragraph_gap (firstn (S k) l).
Proof.
  unfold paragraph_break. destruct l as [|c r]; [discriminate|].
  destruct (N.eqb c NL) eqn:Hc; [|discriminate].
  destruct (spaces_then_newline r) as [n|] eqn:Hr; simpl; [|discriminate].
  intros [= <-]. apply N.eqb_eq in Hc. subst c.
  destruct (spaces_then_newline_gap _ Hr) as [Hle [s [Hs Hf]]].
  split; [lia|]. exists s. simpl. now rewrite Hf.
Qed.

Lemma sentence_break_gap (prev : option N) (l : str) (k : nat) :
  sentence_break prev l = Some (S k) ->
  S k <= length l /\ sentence_gap prev (firstn (S k) l).
Proof.
  intros Hm. destruct (sentence_break_blank _ _ Hm) as [Hle Hall].
  split; [exact Hle|]. split; [|split; [exact Hall|]].
  - destruct l; [simpl in Hle; lia|discriminate].
  - unfold sentence_break in Hm. destruct prev as [p|]; [|discriminate].
    exists p. destruct (is_terminator p); [auto|discriminate].
Qed.

(** What [split] returns: the pieces of the string, the matches lying
    between them. *)
Lemma split_from_pieces (m : matcher) (G : option N -> str -> Prop) :
  (forall prev l k, m prev l = Some (S k) ->
     S k <= length l /\ G prev (firstn (S k) l)) ->
  forall l prev skip cur,
    skip <= length l ->
    exists p0 rest,
      split_from m prev skip cur l = (rev cur ++ p0) :: map snd rest
      /\ skipn skip l = p0 ++ weave rest
      /\ gaps_ok G (last_of (last_of prev (firstn skip l)) p0) rest.
Proof.
  intros Hm. induction l as [|c r IH]; intros prev skip cur Hlen.
  - exists [], []. destruct skip; [|simpl in Hlen; lia].
    simpl. now rewrite rev_append_rev.
  - destruct skip as [|k].
    + cbn [split_from firstn skipn last_of fold_left].
      destruct (m prev (c :: r)) as [[|k]|] eqn:Hmatch.
      * destruct (IH (Some c) 0 (c :: cur) ltac:(lia))
          as [p1 [rest [Hs [Hl Hok]]]].
        exists (c :: p1), rest. rewrite Hs. simpl in *.
        rewrite <- app_assoc. simpl. rewrite <- Hl. auto.
      * destruct (Hm _ _ _ Hmatch) as [Hle Hg]. simpl in Hle.
        destruct (IH (Some c) k [] ltac:(lia)) as [p1 [rest [Hs [Hl Hok]]]].
        exists [], ((firstn (S k) (c :: r), p1) :: rest).
        rewrite Hs, rev_append_rev, !app_nil_r. simpl rev. simpl app.
        split; [reflexivity|]. split.
        -- unfold weave. cbn [flat_map fst snd].
           rewrite <- app_assoc. fold (weave rest). rewrite <- Hl.
           change (firstn (S k) (c :: r) ++ skipn k r)
             with (firstn (S k) (c :: r) ++ skipn (S k) (c :: r)).
           now rewrite firstn_skipn.
        -- cbn [gaps_ok]. split; [exact Hg|].
           rewrite last_of_app. exact Hok.
      * destruct (IH (Some c) 0 (c :: cur) ltac:(lia))
          as [p1 [rest [Hs [Hl Hok]]]].
        exists (c :: p1), rest. rewrite Hs. simpl in *.
        rewrite <- app_assoc. simpl. rewrite <- Hl. auto.
    + simpl in Hlen.
      destruct (IH (Some c) k cur ltac:(lia)) as [p1 [rest [Hs [Hl Hok]]]].
      exists p1, rest. cbn [split_from]. rewrite Hs. auto.
Qed.

Lemma split_pieces (m : matcher) (G : option N -> str -> Prop) (s : str) :
  (forall prev l k, m prev l = Some (S k) ->
     S k <= length l /\ G prev (firstn (S k) l)) ->
  exists p0 rest,
    split m s = p0 :: map snd rest
    /\ s = p0 ++ weave rest
    /\ gaps_ok G (last_of None p0) rest.
Proof.
  intros Hm.
  destruct (@split_from_pieces m G Hm s None 0 [] ltac:(lia))
    as [p0 [rest H]].
  exists p0, rest. exact H.
Qed.

(** A sentence break has a terminator before it: the breaks within a
    paragraph do not depend on what is before the paragraph. *)
Lemma gaps_ok_sentence_start (p q : option N) (p0 : str)
    (rest : list (str * str)) :
  gaps_ok sentence_gap (last_of p p0) rest ->
  p = None ->
  gaps_ok sentence_gap (last_of q p0) rest.
Proof.
  intros Hok ->. destruct rest as [|[g s] rest]; [exact I|].
  destruct p0 as [|c r]; [|exact Hok].
  destruct Hok as [[_ [_ [x [Hx _]]]] _]. discriminate Hx.
Qed.

Lemma sentences_represent (max : nat) (prev : option N)
    (rest : list (str * str)) (done : str) (st : chunk_state) :
  0 < max ->
  represents prev done st ->
  gaps_ok sentence_gap (last_of prev done) rest ->
  represents prev (done ++ weave rest)
    (fold_left (sentence_step max) (map snd rest) st).
Proof.
  intros Hmax. apply fold_represents. intros d s g x Hrep Hg.
  apply sentence_step_represents; auto.
Qed.

(** A paragraph that follows a paragraph break, or the first paragraph,
    goes through the body of the paragraph loop. *)
Lemma paragraph_step_represents (max : nat) (prev : option N) (done : str)
    (st : chunk_state) (g p : str) :
  0 < max ->
  represents prev done st ->
  paragraph_gap g \/ (g = [] /\ snd st = []) ->
  represents prev (done ++ g ++ p) (paragraph_step max st p).
Proof.
  intros Hmax Hrep Hgap.
  assert (Hskip : paragraph_gap g \/ sentence_gap (last_of prev done) g
                  \/ g = []) by tauto.
  unfold paragraph_step. destruct st as [chunks cur].
  destruct (max <? length cur + length p).
  - destruct (represents_flush Hrep) as [Hc He].
    destruct (flush (chunks, cur)) as [chunks' cur']. simpl in Hc, He.
    subst cur'. pose proof (chunked_skip Hc Hskip) as Hc'.
    assert (Hrep' : represents prev (done ++ g) (chunks', [])).
    { exists (done ++ g), []. rewrite app_nil_r. split; [reflexivity|].
      split; [exact Hc'|constructor]. }
    destruct (max <? length p).
    + destruct (@split_pieces sentence_break sentence_gap p
                  sentence_break_gap) as [s0 [rest [Hs [Hp Hok]]]].
      rewrite Hs. cbn [fold_left].
      replace (done ++ g ++ p) with (((done ++ g) ++ [] ++ s0) ++ weave rest)
        by (rewrite Hp; simpl; now rewrite <- !app_assoc).
      apply sentences_represent; [exact Hmax| |].
      * apply sentence_step_represents; auto.
      * simpl. rewrite last_of_app.
        eapply gaps_ok_sentence_start; eauto.
    + simpl. exists (done ++ g), p. rewrite <- app_assoc.
      split; [reflexivity|]. split; [exact Hc'|apply holds_same].
  - destruct Hrep as [done1 [body [-> [Hc Hb]]]]. simpl in Hc, Hb.
    destruct (0 <? length cur) eqn:E.
    + destruct Hgap as [Hg|[_ Hcur]];
        [|simpl in Hcur; subst cur; discriminate].
      exists done1, (body ++ g ++ p). rewrite <- app_assoc.
      split; [reflexivity|]. split; [exact Hc|]. simpl snd.
      apply holds_app; [exact Hb|].
      change ([NL; NL] ++ p) with (NL :: NL :: p).
      apply holds_paragraph; [exact Hg|apply holds_same].
    + apply Nat.ltb_ge in E. destruct cur; [|simpl in E; lia].
      apply holds_nil_inv in Hb. subst body. rewrite app_nil_r in *.
      exists (done1 ++ g), p. rewrite <- app_assoc. split; [reflexivity|].
      split; [now apply chunked_skip|apply holds_same].
Qed.

Lemma chunkText_chunked (text : str) (max : nat) :
  0 < max -> chunked None text (chunkText text max).
Proof.
  intros Hmax. unfold chunkText.
  destruct ((length text =? 0) || (length text <=? max)).
  - apply chunked_one, holds_same.
  - destruct (@split_pieces paragraph_break (fun _ => paragraph_gap) text
                paragraph_break_gap) as [p0 [rest [Hs [Ht Hok]]]].
    rewrite Hs. cbn [fold_left].
    assert (Hrep : represents None text
                     (fold_left (paragraph_step max) (map snd rest)
                        (paragraph_step max ([], []) p0))).
    { rewrite Ht at 1.
      apply fold_represents with (G := fun _ => paragraph_gap).
      - intros d s g x Hrep Hg. apply paragraph_step_represents; auto.
      - change p0 with ([] ++ [] ++ p0) at 1.
        apply paragraph_step_represents; [exact Hmax| |now right].
        exists [], []. repeat split; constructor.
      - exact Hok. }
    apply represents_flush in Hrep as [Hc _].
    destruct (fold_left _ _ _) as [chunks cur]. unfold flush in Hc.
    now destruct (0 <? length cur).
Qed.

(** Where the text has no line feed and no terminator there is no break, and
    the chunks are the text, cut. *)
Lemma last_of_plain (P : N -> Prop) (s : str) :
  forall prev,
    (forall p, prev = Some p -> P p) -> Forall P s ->
    forall p, last_of prev s = Some p -> P p.
Proof.
  induction s as [|c r IH]; intros prev Hprev Hs p; [apply Hprev|].
  apply Forall_cons_iff in Hs as [Hc Hr]. simpl. apply IH; [|exact Hr].
  now intros x [= <-].
Qed.

Lemma paragraph_gap_plain (g rest : str) :
  paragraph_gap g ->
  ~ Forall (fun c => c <> NL /\ is_terminator c = false) (g ++ rest).
Proof.
  intros [s [_ ->]] H. apply Forall_inv in H. now destruct H.
Qed.

Lemma sentence_gap_plain (prev : option N) (g : str) :
  sentence_gap prev g ->
  ~ (forall p, prev = Some p -> p <> NL /\ is_terminator p = false).
Proof.
  intros [_ [_ [p [Hp Ht]]]] H. destruct (H p Hp) as [_ Hf]. congruence.
Qed.

Lemma holds_plain (prev : option N) (body chunk : str) :
  holds prev body chunk ->
  (forall p, prev = Some p -> p <> NL /\ is_terminator p = false) ->
  Forall (fun c => c <> NL /\ is_terminator c = false) body ->
  chunk = body.
Proof.
  induction 1 as [prev|prev c body chunk _ IH|prev g body chunk Hg _ _
                 |prev g body chunk Hg _ _]; intros Hprev Hbody.
  - reflexivity.
  - apply Forall_cons_iff in Hbody as [Hc Hbody]. f_equal.
    apply IH; [|exact Hbody]. now intros p [= <-].
  - destruct (@paragraph_gap_plain g body Hg Hbody).
  - destruct (@sentence_gap_plain prev g Hg Hprev).
Qed.

Lemma chunked_plain (prev : option N) (text : str) (chunks : list str) :
  chunked prev text chunks ->
  (forall p, prev = Some p -> p <> NL /\ is_terminator p = false) ->
  Forall (fun c => c <> NL /\ is_terminator c = false) text ->
  concat chunks = text.
Proof.
  induction 1 as [prev|prev g rest chunks Hg _ _
                 |prev body chunk rest chunks Hb _ IH]; intros Hprev Htext.
  - reflexivity.
  - destruct Hg as [Hg|Hg].
    + destruct (@paragraph_gap_plain g rest Hg Htext).
    + destruct (@sentence_gap_plain prev g Hg Hprev).
  - apply Forall_app in Htext as [Hbody Hrest]. simpl.
    rewrite (holds_plain Hb Hprev Hbody). f_equal.
    apply IH; [|exact Hrest]. now apply last_of_plain.
Qed.

(** C3 (amended). For every text and [maxChunkSize > 0] the chunks hold the
    text, in order: every code unit of the text is in the chunks as it is in
    the text, white space included, except that a paragraph break (a line
    feed, white space, a line feed) or a sentence break (white space after
    [.], [!] or [?]) may be left out, between two chunks or at an end of
    the text, or be the separator in a chunk, [\n\n] for a paragraph break
    and one space for a sentence break.  So the code units that are not
    white space are all kept, in their order; and a text with no line feed
    and no [.], [!] or [?] is the concatenation of its chunks, exactly. *)
Theorem chunkText_changes_breaks_only (text : str) (maxChunkSize : nat) :
  0 < maxChunkSize ->
  chunked None text (chunkText text maxChunkSize)
  /\ nonspace (concat (chunkText text maxChunkSize)) = nonspace text
  /\ (forallb (fun c => negb (N.eqb c NL) && negb (is_terminator c)) text
      = true ->
      concat (chunkText text maxChunkSize) = text).
Proof.
  intros Hmax. split; [now apply chunkText_chunked|].
  split; [now apply chunkText_nonspace|].
  intros Hplain. eapply chunked_plain.
  - apply chunkText_chunked, Hmax.
  - discriminate.
  - apply Forall_forall. intros c Hc.
    rewrite forallb_forall in Hplain. specialize (Hplain c Hc).
    apply andb_true_iff in Hplain as [Hn Ht].
    apply negb_true_iff in Hn, Ht. apply N.eqb_neq in Hn. auto.
Qed.

(** The relation is a strict one: chunks that lack a space of the text
    which is not part of a break do not hold the text. *)
Example chunked_keeps_inner_space :
  ~ chunked None (lit "a b") [lit "ab"]
  /\ ~ chunked None (lit "a  b") [lit "a b"].
Proof.
  split; intros H;
    (eapply chunked_plain in H;
     [discriminate H|discriminate|repeat constructor; discriminate]).
Qed.

(** C3 (amended) at two texts.  In [text_breaks], cut at 10, the sentence
    break of two spaces after ["Hi."] is one space in the first chunk, the
    long sentence is cut in two after its tenth code unit, the space at the
    cut kept, the paragraph break is left out, and the last paragraph is a
    chunk as it is.  [text_plain], without a break, is cut at every seventh
    code unit and is the concatenation of its chunks. *)
Lemma chunkText_changes_breaks_only_witness :
  chunkText text_breaks 10
  = [lit "Hi. Yo."; lit "Third one "; lit "here!"; lit "Next. P"]
  /\ chunkText text_plain 7 = [lit "hello b"; lit "ig worl"; lit "d here"]
  /\ chunked None text_breaks (chunkText text_breaks 10)
  /\ nonspace (concat (chunkText text_breaks 10)) = nonspace text_breaks
  /\ concat (chunkText text_plain 7) = text_plain.
Proof.
  split; [reflexivity|]. split; [reflexivity|].
  destruct (@chunkText_changes_breaks_only text_breaks 10 ltac:(lia))
    as [Hheld [Hkept _]].
  split; [exact Hheld|]. split; [exact Hkept|].
  apply (@chunkText_changes_breaks_only text_plain 7 ltac:(lia)).
  reflexivity.
Defined.

(* ================================================================== *)
(** * Properties of the store *)

Lemma grows_refl (w : World) : grows w w.
Proof. split; [exists []; now rewrite app_nil_r|auto]. Qed.

Lemma grows_trans (w1 w2 w3 : World) :
  grows w1 w2 -> grows w2 w3 -> grows w1 w3.
Proof.
  intros [[a1 H1] F1] [[a2 H2] F2]. split; [|auto].
  exists (a1 ++ a2). now rewrite H2, H1, app_assoc.
Qed.

Lemma evolves_refl (w : World) : evolves w w.
Proof. split; [reflexivity|apply grows_refl]. Qed.

Lemma evolves_trans (w1 w2 w3 : World) :
  evolves w1 w2 -> evolves w2 w3 -> evolves w1 w3.
Proof.
  intros [A1 G1] [A2 G2]. split; [congruence|eapply grows_trans; eauto].
Qed.

(** A change that leaves the embeddings alone and does not lower the next
    UUID keeps the ids fresh. *)
Lemma evolves_frame (w w' : World) :
  auth_user w' = auth_user w ->
  embeddings w' = embeddings w ->
  (next_id w <= next_id w')%N ->
  evolves w w'.
Proof.
  intros Ha He Hn. split; [exact Ha|]. split.
  - exists []. now rewrite app_nil_r.
  - intros [Hlt Hnd]. unfold ids_fresh. rewrite He. split; [|exact Hnd].
    eapply Forall_impl; [|exact Hlt]. simpl. intros r Hr. lia.
Qed.

Lemma evolves_add_embedding (w : World) (r : EmbeddingRow) :
  emb_id r = next_id w -> evolves w (add_embedding r w).
Proof.
  intros Hid. split; [reflexivity|]. split.
  - now exists [r].
  - intros [Hlt Hnd]. unfold ids_fresh. simpl. split.
    + apply Forall_app. split.
      * eapply Forall_impl; [|exact Hlt]. simpl. intros x Hx. lia.
      * constructor; [lia|constructor].
    + rewrite map_app. simpl.
      apply NoDup_app; [exact Hnd|repeat constructor; auto|].
      intros i Hi [<-|[]]. apply in_map_iff in Hi as [x [Hx Hin]].
      rewrite Forall_forall in Hlt. specialize (Hlt x Hin). lia.
Qed.

Create HintDb evolves.
Create HintDb preserves.

#[local] Hint Resolve evolves_refl evolves_add_embedding : evolves.
#[local] Hint Extern 1 (evolves _ _) =>
  (apply evolves_frame; simpl; [reflexivity | reflexivity | lia]) : evolves.

Lemma preserves_ret {A} (a : A) : preserves (ret a).
Proof. intros w. apply evolves_refl. Qed.

Lemma preserves_throw {A} (e : Error) : preserves (@throw A e).
Proof. intros w. apply evolves_refl. Qed.

Lemma preserves_bind {A B} (m : M A) (k : A -> M B) :
  preserves m -> (forall a, preserves (k a)) -> preserves (bind m k).
Proof.
  intros Hm Hk w. unfold bind. specialize (Hm w).
  destruct (m w) as [[a|e] w']; simpl in *; [|exact Hm].
  eapply evolves_trans; [exact Hm|apply Hk].
Qed.

Lemma preserves_try_catch {A} (m : M A) (h : Error -> M A) :
  preserves m -> (forall e, preserves (h e)) -> preserves (try_catch m h).
Proof.
  intros Hm Hh w. unfold try_catch. specialize (Hm w).
  destruct (m w) as [[a|e] w']; simpl in *; [exact Hm|].
  eapply evolves_trans; [exact Hm|apply Hh].
Qed.

Lemma preserves_console_error (message : string) (e : Error) :
  preserves (console_error message e).
Proof. intros w. simpl. auto with evolves. Qed.

Lemma preserves_console_warn (message : str) :
  preserves (console_warn message).
Proof. intros w. simpl. auto with evolves. Qed.

Lemma preserves_getCurrentUserId : preserves getCurrentUserId.
Proof.
  intros w. unfold getCurrentUserId.
  destruct (auth_user w); apply evolves_refl.
Qed.

#[local] Hint Resolve preserves_ret preserves_throw preserves_console_error
  preserves_console_warn preserves_getCurrentUserId : preserves.

(** Splits a computation at its binds and handlers; what is left are its
    database statements, which change the world in one step. *)
Ltac preserves_step :=
  first
    [ solve [auto with preserves]
    | apply preserves_bind; [|intro]
    | apply preserves_try_catch; [|intro]
    | (intro; simpl; solve [auto with evolves]) ].

Lemma preserves_getKnowledgeNodes (type : option str) :
  preserves (getKnowledgeNodes type).
Proof. unfold getKnowledgeNodes. repeat preserves_step. Qed.

Lemma preserves_addKnowledgeNode (type name content source : str) :
  preserves (addKnowledgeNode type name content source).
Proof. unfold addKnowledgeNode. repeat preserves_step. Qed.

Lemma preserves_addKnowledgeRelation (sourceId targetId : Uuid)
    (relationType : str) :
  preserves (addKnowledgeRelation sourceId targetId relationType).
Proof. unfold addKnowledgeRelation. repeat preserves_step. Qed.

Lemma preserves_saveFileMetadata (name type : str) (size : N)
    (filePath summary : str) :
  preserves (saveFileMetadata name type size filePath summary).
Proof. unfold saveFileMetadata. repeat preserves_step. Qed.

Lemma preserves_logEvent (type description : str) (id : option Uuid)
    (entityType : option str) (tags : list str) :
  preserves (logEvent type description id entityType tags).
Proof. unfold logEvent. repeat preserves_step. Qed.

Lemma preserves_saveEmbedding (sourceType : str) (sourceId : Uuid)
    (content : str) (embedding : vector) :
  preserves (saveEmbedding sourceType sourceId content embedding).
Proof.
  unfold saveEmbedding. apply preserves_bind; [auto with preserves|].
  intros userId w. destruct (length embedding =? EMBEDDING_DIM); simpl;
    auto with evolves.
Qed.

#[local] Hint Resolve preserves_getKnowledgeNodes preserves_addKnowledgeNode
  preserves_addKnowledgeRelation preserves_saveFileMetadata
  preserves_logEvent preserves_saveEmbedding : preserves.

Section StoreProperties.
Context {ext : Externals}.

Lemma preserves_searchEmbeddings (embedding : vector) (limit : nat) :
  preserves (searchEmbeddings embedding limit).
Proof. unfold searchEmbeddings. repeat preserves_step. Qed.

Lemma preserves_generateEmbedding (text : str) :
  preserves (generateEmbedding text).
Proof. unfold generateEmbedding. repeat preserves_step. Qed.

Lemma preserves_extractKnowledge (text : str) :
  preserves (extractKnowledge text).
Proof.
  unfold extractKnowledge. destruct (chat_extract text);
    repeat preserves_step.
Qed.

Hint Resolve preserves_searchEmbeddings preserves_generateEmbedding
  preserves_extractKnowledge : preserves.

Lemma preserves_getRelevantContext (query : str) (userId : Uuid) :
  preserves (getRelevantContext query userId).
Proof.
  unfold getRelevantContext. repeat preserves_step.
  destruct (0 <? length _); auto with preserves.
Qed.

Lemma preserves_entity_loop (source : str) (l : list Entity) :
  forall created, preserves (entity_loop source l created).
Proof.
  induction l as [|entity rest IH]; intros created; cbn [entity_loop];
    repeat preserves_step.
Qed.

Lemma preserves_relationship_loop (l : list Relationship) :
  forall created, preserves (relationship_loop l created).
Proof.
  induction l as [|relationship rest IH]; intros created;
    cbn [relationship_loop]; repeat preserves_step.
  destruct (filter _ _); [|destruct (filter _ _)]; repeat preserves_step.
Qed.

Hint Resolve preserves_entity_loop preserves_relationship_loop : preserves.

Lemma preserves_processTextForKnowledge (text source : str) (userId : Uuid) :
  preserves (processTextForKnowledge text source userId).
Proof. unfold processTextForKnowledge. repeat preserves_step. Qed.

Hint Resolve preserves_processTextForKnowledge : preserves.

Lemma preserves_ingest_loop (fileName : str) (fileRecordId userId : Uuid)
    (l : list str) :
  forall i, preserves (ingest_loop fileName fileRecordId userId i l).
Proof.
  induction l as [|chunk rest IH]; intros i; cbn [ingest_loop];
    repeat preserves_step.
Qed.

Hint Resolve preserves_ingest_loop : preserves.

Lemma preserves_processFile (filePath : str) (fileSize : N)
    (textContent fileName fileType : str) (userId : Uuid) :
  preserves (processFile filePath fileSize textContent fileName fileType
               userId).
Proof. unfold processFile. repeat preserves_step. Qed.

End StoreProperties.

(* ------------------------------------------------------------------ *)
(** ** The other functions, and the steps of the system *)

Lemma preserves_getFiles : preserves getFiles.
Proof. unfold getFiles. repeat preserves_step. Qed.

Lemma lift_core {A} (m : M A) (d : Db) :
  core (snd (lift m d)) = snd (m (core d)).
Proof. unfold lift. now destruct (m (core d)) as [[a|e] w]. Qed.

Lemma dpreserves_lift {A} (m : M A) : preserves m -> dpreserves (lift m).
Proof. intros Hm d. rewrite lift_core. apply Hm. Qed.

Lemma dpreserves_dret {A} (a : A) : dpreserves (dret a).
Proof. intros d. apply evolves_refl. Qed.

Lemma dpreserves_dthrow {A} (e : DbError) : dpreserves (@dthrow A e).
Proof. intros d. apply evolves_refl. Qed.

Lemma dpreserves_dconsole_error (message : string) (e : DbError) :
  dpreserves (dconsole_error message e).
Proof. intros d. apply evolves_refl. Qed.

Lemma dpreserves_dbind {A B} (m : DbM A) (k : A -> DbM B) :
  dpreserves m -> (forall a, dpreserves (k a)) -> dpreserves (dbind m k).
Proof.
  intros Hm Hk d. unfold dbind. specialize (Hm d).
  destruct (m d) as [[a|e] d']; simpl in *; [|exact Hm].
  eapply evolves_trans; [exact Hm|apply Hk].
Qed.

Lemma dpreserves_dtry_catch {A} (m : DbM A) (h : DbError -> DbM A) :
  dpreserves m -> (forall e, dpreserves (h e)) -> dpreserves (dtry_catch m h).
Proof.
  intros Hm Hh d. unfold dtry_catch. specialize (Hm d).
  destruct (m d) as [[a|e] d']; simpl in *; [exact Hm|].
  eapply evolves_trans; [exact Hm|apply Hh].
Qed.

#[local] Hint Resolve preserves_getFiles dpreserves_dret dpreserves_dthrow
  dpreserves_dconsole_error : preserves.

(** As [preserves_step], for the functions on [Db]. *)
Ltac dpreserves_step :=
  first
    [ solve [auto with preserves]
    | apply dpreserves_lift; solve [auto with preserves]
    | apply dpreserves_dbind; [|intro]
    | apply dpreserves_dtry_catch; [|intro]
    | (intro; simpl; solve [auto with evolves]) ].

Lemma dpreserves_getRecentMessages (limit : nat) :
  dpreserves (getRecentMessages limit).
Proof. unfold getRecentMessages. repeat dpreserves_step. Qed.

Lemma dpreserves_saveMessage (role content : str) (sessionId : option Uuid)
    (sentimentScore : option Q) :
  dpreserves (saveMessage role content sessionId sentimentScore).
Proof. unfold saveMessage. repeat dpreserves_step. Qed.

Lemma dpreserves_logEmotion (emotion : str) (sentimentScore : Q)
    (sessionId : option Uuid) :
  dpreserves (logEmotion emotion sentimentScore sessionId).
Proof. unfold logEmotion. repeat dpreserves_step. Qed.

Lemma dpreserves_getDailySummary (date : N) :
  dpreserves (getDailySummary date).
Proof.
  unfold getDailySummary. repeat dpreserves_step.
  intros d. destruct (filter _ _) as [|data [|]]; apply evolves_refl.
Qed.

#[local] Hint Resolve dpreserves_getRecentMessages dpreserves_saveMessage
  dpreserves_logEmotion dpreserves_getDailySummary : preserves.

Lemma dpreserves_saveDailySummary (date : N)
    (chatSummary knowledgeSummary emotionSummary emailSummary
       calendarSummary codeChanges : option str) :
  dpreserves (saveDailySummary date chatSummary knowledgeSummary
                emotionSummary emailSummary calendarSummary codeChanges).
Proof.
  unfold saveDailySummary. repeat dpreserves_step.
  destruct a0 as [existingSummary|]; [|repeat dpreserves_step].
  intros d. cbv zeta.
  destruct (map _ (filter _ (daily_summaries d))) as [|data [|]];
    apply evolves_refl.
Qed.

Section SystemProperties.
Context {ext : Externals} {chat : ChatServices}.

Lemma preserves_queryKnowledge (topic : str) (userId : Uuid) :
  preserves (queryKnowledge topic userId).
Proof. unfold queryKnowledge, getRelationships. repeat preserves_step. Qed.

Lemma preserves_analyzeSentiment (text : str) :
  preserves (analyzeSentiment text).
Proof.
  unfold analyzeSentiment. destruct (sentiment_analysis text);
    repeat preserves_step.
Qed.

Lemma dpreserves_processMessage (userMessage : str) (userId sessionId : Uuid) :
  dpreserves (processMessage userMessage userId sessionId).
Proof.
  unfold processMessage. repeat dpreserves_step.
  - apply dpreserves_lift, preserves_getRelevantContext.
  - apply dpreserves_lift. intros w. apply evolves_refl.
Qed.

Lemma dpreserves_trackEmotion (text : str) (userId : Uuid)
    (sessionId : option Uuid) :
  dpreserves (trackEmotion text userId sessionId).
Proof.
  unfold trackEmotion. repeat dpreserves_step.
  apply dpreserves_lift, preserves_analyzeSentiment.
Qed.

(** Every step of the system leaves the embedding records in place and
    keeps their ids fresh. *)
Lemma step_grows (d d' : Db) : step d d' -> grows (core d) (core d').
Proof.
  assert (Hframe : forall w w',
             embeddings w' = embeddings w -> (next_id w <= next_id w')%N ->
             grows w w').
  { intros w w' He Hn. split.
    - exists []. now rewrite app_nil_r.
    - intros [Hlt Hnd]. unfold ids_fresh. rewrite He. split; [|exact Hnd].
      eapply Forall_impl; [|exact Hlt]. simpl. intros r Hr. lia. }
  destruct 1;
    try (apply Hframe; simpl; [reflexivity|lia]);
    try (rewrite lift_core);
    first
      [ apply preserves_getCurrentUserId
      | apply dpreserves_getRecentMessages
      | apply dpreserves_saveMessage
      | apply preserves_getKnowledgeNodes
      | apply preserves_addKnowledgeNode
      | apply preserves_addKnowledgeRelation
      | apply preserves_saveFileMetadata
      | apply preserves_getFiles
      | apply preserves_saveEmbedding
      | apply preserves_searchEmbeddings
      | apply dpreserves_logEmotion
      | apply dpreserves_getDailySummary
      | apply dpreserves_saveDailySummary
      | apply preserves_logEvent
      | apply preserves_generateEmbedding
      | apply preserves_extractKnowledge
      | apply preserves_getRelevantContext
      | apply dpreserves_processMessage
      | apply preserves_analyzeSentiment
      | apply preserves_processTextForKnowledge
      | apply preserves_queryKnowledge
      | apply preserves_processFile
      | apply dpreserves_trackEmotion ].
Qed.

Lemma steps_grows (d d' : Db) : steps d d' -> grows (core d) (core d').
Proof.
  induction 1 as [d d' Hs|d|d1 d2 d3 _ IH1 _ IH2].
  - now apply step_grows.
  - apply grows_refl.
  - eapply grows_trans; eauto.
Qed.

Lemma reachable_ids_fresh (d : Db) : reachable d -> ids_fresh (core d).
Proof.
  intros Hr. apply steps_grows in Hr as [_ Hf]. apply Hf.
  split; constructor.
Qed.

End SystemProperties.

(* ================================================================== *)
(** * Properties of the similarity query *)

Lemma filter_filter {A} (f g : A -> bool) (l : list A) :
  filter f (filter g l) = filter (fun x => g x && f x) l.
Proof.
  induction l as [|x l IH]; simpl; [reflexivity|].
  destruct (g x); simpl; [destruct (f x)|]; now rewrite IH.
Qed.

Lemma in_firstn {A} (n : nat) (l : list A) (x : A) :
  In x (firstn n l) -> In x l.
Proof.
  revert l. induction n as [|n IH]; intros [|y l]; simpl; try tauto.
  intros [->|Hx]; auto.
Qed.

Lemma NoDup_map_eq {A B} (f : A -> B) (l : list A) (a b : A) :
  NoDup (map f l) -> In a l -> In b l -> f a = f b -> a = b.
Proof.
  induction l as [|x l IH]; simpl; [intros _ []|].
  intros Hnd Ha Hb Hab. apply NoDup_cons_iff in Hnd as [Hx Hnd].
  destruct Ha as [<-|Ha], Hb as [<-|Hb]; auto.
  - exfalso. apply Hx. rewrite Hab. now apply in_map.
  - exfalso. apply Hx. rewrite <- Hab. now apply in_map.
Qed.

(** The policy on [embeddings] shows a session the records of its user
    only. *)
Lemma rls_embeddings_scope (w : World) (r : EmbeddingRow) :
  In r (rls_embeddings w) ->
  In r (embeddings w) /\ auth_user w = Some (emb_user_id r).
Proof.
  unfold rls_embeddings, is_auth_uid. intros Hr.
  apply filter_In in Hr as [Hr Hu]. split; [exact Hr|].
  destruct (auth_user w) as [u|]; [|discriminate].
  apply N.eqb_eq in Hu. now subst u.
Qed.

Section QueryProperties.
Context {ext : Externals}.

Lemma ranks_before_total (q : vector) (a b : EmbeddingRow) :
  ranks_before q a b = false -> ranks_before q b a = true.
Proof.
  unfold ranks_before.
  destruct (Qcompare_spec (cosine_similarity (emb_embedding a) q)
              (cosine_similarity (emb_embedding b) q)) as [E|L|G];
    destruct (Qcompare_spec (cosine_similarity (emb_embedding b) q)
                (cosine_similarity (emb_embedding a) q)) as [E'|L'|G'];
    try discriminate; try reflexivity; try lra.
  intros Hle. apply Nat.leb_gt in Hle. apply Nat.leb_le. lia.
Qed.

Lemma ranks_before_trans (q : vector) (a b c : EmbeddingRow) :
  ranks_before q a b = true -> ranks_before q b c = true ->
  ranks_before q a c = true.
Proof.
  unfold ranks_before.
  destruct (Qcompare_spec (cosine_similarity (emb_embedding a) q)
              (cosine_similarity (emb_embedding b) q));
    destruct (Qcompare_spec (cosine_similarity (emb_embedding b) q)
                (cosine_similarity (emb_embedding c) q));
    destruct (Qcompare_spec (cosine_similarity (emb_embedding a) q)
                (cosine_similarity (emb_embedding c) q));
    try discriminate; try reflexivity; try lra.
  rewrite !Nat.leb_le. lia.
Qed.

Lemma insert_ranked_perm (q : vector) (r : EmbeddingRow)
    (l : list EmbeddingRow) :
  Permutation (insert_ranked q r l) (r :: l).
Proof.
  induction l as [|x t IH]; simpl; [reflexivity|].
  destruct (ranks_before q r x); [reflexivity|].
  rewrite IH. apply perm_swap.
Qed.

Lemma sort_ranked_perm (q : vector) (l : list EmbeddingRow) :
  Permutation (sort_ranked q l) l.
Proof.
  induction l as [|x t IH]; simpl; [reflexivity|].
  rewrite insert_ranked_perm. now constructor.
Qed.

Lemma insert_ranked_sorted (q : vector) (r : EmbeddingRow)
    (l : list EmbeddingRow) :
  StronglySorted (fun a b => ranks_before q a b = true) l ->
  StronglySorted (fun a b => ranks_before q a b = true) (insert_ranked q r l).
Proof.
  induction 1 as [|x t Hs IH Hx]; simpl.
  - repeat constructor.
  - destruct (ranks_before q r x) eqn:E.
    + constructor; [now constructor|]. constructor; [exact E|].
      eapply Forall_impl; [|exact Hx]. simpl. intros y Hy.
      eapply ranks_before_trans; eauto.
    + constructor; [exact IH|].
      eapply Permutation_Forall; [symmetry; apply insert_ranked_perm|].
      constructor; [now apply ranks_before_total|exact Hx].
Qed.

Lemma sort_ranked_sorted (q : vector) (l : list EmbeddingRow) :
  StronglySorted (fun a b => ranks_before q a b = true) (sort_ranked q l).
Proof.
  induction l as [|x t IH]; simpl; [constructor|].
  now apply insert_ranked_sorted.
Qed.

(** Every row of a result comes from a record of the requested scope. *)
Lemma match_embeddings_origin (rows : list EmbeddingRow) (q : vector)
    (threshold : Q) (count : nat) (user_id : Uuid) (m : MatchRow) :
  In m (match_embeddings rows q threshold count user_id) ->
  exists r, In r rows /\ emb_user_id r = user_id
            /\ (threshold <= cosine_similarity (emb_embedding r) q)%Q
            /\ m = to_match q r.
Proof.
  unfold match_embeddings. intros Hm.
  apply in_map_iff in Hm as [r [<- Hr]]. exists r.
  apply in_firstn in Hr.
  apply (Permutation_in _ (sort_ranked_perm q _)) in Hr.
  apply filter_In in Hr as [Hin Hr]. apply andb_true_iff in Hr as [Hu Ht].
  apply N.eqb_eq in Hu. apply Qle_bool_iff in Ht. auto.
Qed.

(** What [ranks_before] decides, spelled out. *)
Lemma ranks_before_order (q : vector) (a b : EmbeddingRow) :
  ranks_before q a b = true ->
  (cosine_similarity (emb_embedding b) q
     < cosine_similarity (emb_embedding a) q)%Q
  \/ (cosine_similarity (emb_embedding a) q
        == cosine_similarity (emb_embedding b) q)%Q
     /\ emb_created_at a <= emb_created_at b.
Proof.
  unfold ranks_before.
  destruct (Qcompare_spec (cosine_similarity (emb_embedding a) q)
              (cosine_similarity (emb_embedding b) q)) as [E|L|G];
    intros H; [right|discriminate|left; exact G].
  split; [exact E|now apply Nat.leb_le].
Qed.

Lemma StronglySorted_weaken {A} (R S : A -> A -> Prop) (l : list A) :
  (forall a b, R a b -> S a b) -> StronglySorted R l -> StronglySorted S l.
Proof.
  intros HRS. induction 1 as [|x l Hs IH Hx]; constructor; [exact IH|].
  eapply Forall_impl; [|exact Hx]. apply HRS.
Qed.

(** C4 (amended). With a user signed in, [searchEmbeddings(embedding, limit)]
    returns at most [limit] rows: the first [limit] of the records of that
    user whose similarity to the query is at least 0.7 (the double), the
    threshold the code fixes, in the order of descending similarity, earlier
    [created_at] first among equals. *)
Theorem searchEmbeddings_contract (w : World) (u : Uuid) (query : vector)
    (limit : nat) :
  auth_user w = Some u ->
  exists ranked results,
    searchEmbeddings query limit w = (Ok results, w)
    /\ results = map (to_match query) (firstn limit ranked)
    /\ length results <= limit
    /\ Permutation ranked
         (filter (fun r =>
                    N.eqb (emb_user_id r) u
                    && Qle_bool double_0_7
                         (cosine_similarity (emb_embedding r) query))
            (embeddings w))
    /\ StronglySorted
         (fun a b =>
            (cosine_similarity (emb_embedding b) query
               < cosine_similarity (emb_embedding a) query)%Q
            \/ (cosine_similarity (emb_embedding a) query
                  == cosine_similarity (emb_embedding b) query)%Q
               /\ emb_created_at a <= emb_created_at b)
         ranked
    /\ Forall (fun m => (double_0_7 <= m_similarity m)%Q) results.
Proof.
  intros Hauth.
  unfold searchEmbeddings, bind, getCurrentUserId, match_embeddings.
  rewrite Hauth. unfold rls_embeddings, is_auth_uid. rewrite Hauth.
  rewrite filter_filter.
  eexists. eexists. split; [reflexivity|]. split; [reflexivity|].
  split; [rewrite length_map; apply firstn_le_length|].
  split; [|split].
  - rewrite sort_ranked_perm.
    erewrite filter_ext; [reflexivity|].
    intros r. simpl. now destruct (N.eqb (emb_user_id r) u).
  - eapply StronglySorted_weaken; [|apply sort_ranked_sorted].
    intros a b. apply ranks_before_order.
  - apply Forall_forall. intros m Hm.
    apply in_map_iff in Hm as [r [<- Hr]]. apply in_firstn in Hr.
    apply (Permutation_in _ (sort_ranked_perm query _)) in Hr.
    apply filter_In in Hr as [_ Hr]. apply andb_true_iff in Hr as [_ Hr].
    apply andb_true_iff in Hr as [_ Ht]. apply Qle_bool_iff in Ht. exact Ht.
Qed.

End QueryProperties.

Section Isolation.
Context {ext : Externals} {chat : ChatServices}.

(** C1. Let [A] and [B] be two different users.  A record that
    [saveEmbedding] stored while [A] was signed in is in no result of
    [searchEmbeddings] while [B] is signed in, whatever has happened before
    and in between (any calls of any of the functions, [saveMessage] and
    [processMessage] among them), for every query vector and every limit. *)
Theorem scope_isolation (d d2 : Db) (w1 w3 : World) (A B : Uuid)
    (sourceType : str) (sourceId : Uuid) (content : str) (embedding : vector)
    (record : EmbeddingRow) (query : vector) (limit : nat)
    (results : list MatchRow) :
  reachable d ->
  A <> B ->
  auth_user (core d) = Some A ->
  saveEmbedding sourceType sourceId content embedding (core d)
  = (Ok record, w1) ->
  steps (with_core w1 d) d2 ->
  auth_user (core d2) = Some B ->
  searchEmbeddings query limit (core d2) = (Ok results, w3) ->
  ~ In (emb_id record) (map m_id results).
Proof.
  intros Hreach HAB HA Hsave Hsteps HB Hsearch Hin.
  (* the record is stored under [A] *)
  pose proof (preserves_saveEmbedding sourceType sourceId content embedding
                (core d)) as [_ [_ Hfresh1]].
  unfold saveEmbedding, bind, getCurrentUserId in Hsave, Hfresh1.
  rewrite HA in Hsave, Hfresh1.
  destruct (length embedding =? EMBEDDING_DIM); [|discriminate].
  simpl in Hsave, Hfresh1. injection Hsave as <- <-.
  (* it is still there, and the ids are still fresh, when [B] asks *)
  apply steps_grows in Hsteps as [[added Hadded] Hfresh2].
  cbn [core with_core] in Hadded, Hfresh2.
  assert (Hfresh : ids_fresh (core d2)).
  { apply Hfresh2, Hfresh1. now apply reachable_ids_fresh. }
  destruct Hfresh as [_ Hnodup].
  (* the result row comes from a record of [B] *)
  unfold searchEmbeddings, bind, getCurrentUserId in Hsearch.
  rewrite HB in Hsearch. injection Hsearch as <- _.
  apply in_map_iff in Hin as [m [Hid Hm]].
  apply match_embeddings_origin in Hm as [r [Hr [_ [_ ->]]]].
  (* which the policy on [embeddings] lets [B] see: it is a record of [B] *)
  apply rls_embeddings_scope in Hr as [Hr Hu]. rewrite HB in Hu.
  simpl in Hid.
  set (record := {| emb_id := next_id (core d); emb_user_id := A |}) in *.
  assert (Hrec : In record (embeddings (core d2))).
  { rewrite Hadded. simpl. apply in_or_app. left. apply in_or_app. right.
    now left. }
  assert (r = record) by (eapply NoDup_map_eq; eauto).
  subst r. simpl in Hu. congruence.
Qed.

End Isolation.

(* ================================================================== *)
(** * Properties of ingest, retrieval and linking *)

Lemma filter_head_find {A} (f : A -> bool) (l : list A) :
  find f l = hd_error (filter f l).
Proof.
  induction l as [|x l IH]; simpl; [reflexivity|].
  now destruct (f x).
Qed.

(** C9 (amended). [saveEmbedding] checks the vector against the dimension of
    the column and nothing else.  With a user signed in, a vector of 1536
    numbers is stored as a new record of that user, the vector of zeros like
    any other; a vector of another length is refused with the
    invalid-dimension error and no record is inserted. *)
Theorem saveEmbedding_checks_dimension_only (w : World) (u : Uuid)
    (sourceType : str) (sourceId : Uuid) (content : str)
    (embedding : vector) :
  auth_user w = Some u ->
  (length embedding = EMBEDDING_DIM ->
   exists record,
     saveEmbedding sourceType sourceId content embedding w
     = (Ok record, add_embedding record w)
     /\ emb_user_id record = u
     /\ emb_embedding record = embedding
     /\ embeddings (add_embedding record w) = embeddings w ++ [record])
  /\ (length embedding <> EMBEDDING_DIM ->
      saveEmbedding sourceType sourceId content embedding w
      = (Err InvalidDimension, w)).
Proof.
  intros Hauth. unfold saveEmbedding, bind, getCurrentUserId.
  rewrite Hauth. split; intros Hlen.
  - apply Nat.eqb_eq in Hlen. rewrite Hlen. eexists. split; [reflexivity|].
    simpl. auto.
  - apply Nat.eqb_neq in Hlen. now rewrite Hlen.
Qed.

Section IngestProperties.
Context {ext : Externals}.

(** The loop over a list of chunks that ends well goes on with the chunks
    that follow. *)
Lemma ingest_loop_app (fileName : str) (fileRecordId userId : Uuid)
    (before rest : list str) :
  forall i w w1,
    ingest_loop fileName fileRecordId userId i before w = (Ok tt, w1) ->
    ingest_loop fileName fileRecordId userId i (before ++ rest) w
    = ingest_loop fileName fileRecordId userId (i + length before) rest w1.
Proof.
  induction before as [|chunk before IH]; intros i w w1 Hrun.
  - injection Hrun as <-. simpl. now rewrite Nat.add_0_r.
  - cbn [ingest_loop app length] in *. unfold bind in *.
    destruct (generateEmbedding chunk w) as [[v|e] wa]; [|discriminate].
    destruct (saveEmbedding _ _ _ _ wa) as [[r|e] wb]; [|discriminate].
    destruct (processTextForKnowledge _ _ _ wb) as [[k|e] wc];
      [|discriminate].
    rewrite (IH _ _ _ Hrun). f_equal. lia.
Qed.

Lemma generateEmbedding_run (text : str) (w : World) :
  generateEmbedding text w
  = match embeddings_create (embed_calls w) text with
    | Ok v => (Ok v, count_embed_call w)
    | Err e =>
        (Err e,
         log (LogError (lit "Error generating embedding:") e)
           (count_embed_call w))
    end.
Proof.
  unfold generateEmbedding, try_catch.
  now destruct (embeddings_create (embed_calls w) text).
Qed.

(** C5 (amended). When the provider refuses the embedding of a chunk,
    [processFile] stops there: the call fails with the provider's error,
    thrown again to the caller; the chunks after the refused one are neither
    sent to the provider nor stored; the records of the chunks before it stay
    in the store.  No list of failed ordinals is returned. *)
Theorem processFile_stops_at_rejected_chunk (w w0 w1 : World)
    (filePath : str) (fileSize : N) (textContent fileName fileType : str)
    (userId : Uuid) (fileRecord : FileRow) (before after : list str)
    (chunk : str) (e : Error) :
  saveFileMetadata fileName fileType fileSize filePath
    (summarizeText textContent) w = (Ok fileRecord, w0) ->
  chunkText textContent default_maxChunkSize = before ++ chunk :: after ->
  ingest_loop fileName (file_id fileRecord) userId 0 before w0 = (Ok tt, w1) ->
  embeddings_create (embed_calls w1) chunk = Err e ->
  exists w2,
    processFile filePath fileSize textContent fileName fileType userId w
    = (Err e, w2)
    /\ embeddings w2 = embeddings w1
    /\ embed_calls w2 = S (embed_calls w1).
Proof.
  intros Hfile Hchunks Hbefore Hreject.
  unfold processFile, try_catch, bind. rewrite Hfile, Hchunks.
  rewrite ingest_loop_app with (w1 := w1) by exact Hbefore.
  cbn [ingest_loop]. unfold bind. rewrite generateEmbedding_run, Hreject.
  eexists. split; [reflexivity|]. split; reflexivity.
Qed.

(** C6 (amended). When the embedding call for the query fails,
    [getRelevantContext] does not fail: it writes the error to the console
    and returns the empty string, the value it also returns when nothing
    matches. *)
Theorem getRelevantContext_swallows_embedding_failure (w : World)
    (query : str) (userId : Uuid) (e : Error) :
  embeddings_create (embed_calls w) query = Err e ->
  getRelevantContext query userId w
  = (Ok [],
     log (LogError (lit "Error getting relevant context:") e)
       (log (LogError (lit "Error generating embedding:") e)
          (count_embed_call w))).
Proof.
  intros Hfail. unfold getRelevantContext, try_catch, bind.
  now rewrite generateEmbedding_run, Hfail.
Qed.

(** X23. The code of the repository does not call the embedding client
    again when a call of it has failed, whatever the error:
    [generateEmbedding] makes one call of [openai.embeddings.create] and
    passes its answer on; [getRelevantContext] makes one call; the loop of
    [processFile] ends at a chunk whose call fails, after that one call.
    (What the client does within one call, where it may repeat the request,
    is no part of the code and of this model.) *)
Theorem embedding_client_called_once :
  (forall w text,
     fst (generateEmbedding text w) = embeddings_create (embed_calls w) text
     /\ embed_calls (snd (generateEmbedding text w)) = S (embed_calls w))
  /\ (forall w query userId,
        embed_calls (snd (getRelevantContext query userId w))
        = S (embed_calls w))
  /\ (forall w fileName fileRecordId userId i chunk rest e,
        embeddings_create (embed_calls w) chunk = Err e ->
        fst (ingest_loop fileName fileRecordId userId i (chunk :: rest) w)
        = Err e
        /\ embed_calls
             (snd (ingest_loop fileName fileRecordId userId i (chunk :: rest) w))
           = S (embed_calls w)).
Proof.
  split; [|split].
  - intros w text. rewrite generateEmbedding_run.
    now destruct (embeddings_create (embed_calls w) text).
  - intros w query userId. unfold getRelevantContext, try_catch, bind.
    rewrite generateEmbedding_run.
    destruct (embeddings_create (embed_calls w) query) as [v|e];
      [|reflexivity].
    unfold searchEmbeddings, bind, getCurrentUserId. simpl auth_user.
    destruct (auth_user w); [|reflexivity].
    now destruct (0 <? length _).
  - intros w fileName fileRecordId userId i chunk rest e Hfail.
    cbn [ingest_loop]. unfold bind.
    now rewrite generateEmbedding_run, Hfail.
Qed.

Lemma fetched_nodes_frame (w w' : World) (u : Uuid) :
  auth_user w' = auth_user w ->
  knowledge_nodes w' = knowledge_nodes w ->
  fetched_nodes w' u = fetched_nodes w u.
Proof.
  intros Ha Hn. unfold fetched_nodes, rls_knowledge_nodes, is_auth_uid.
  now rewrite Ha, Hn.
Qed.

(** One pass of the loop over the relationships: the relationship is linked
    or left out; the session and the nodes are as before. *)
Lemma relationship_loop_step (r : Relationship) (rest : list Relationship)
    (u : Uuid) (w : World) (created : list str) :
  auth_user w = Some u ->
  exists w1,
    relationship_loop (r :: rest) created w
    = relationship_loop rest
        (created ++ linked_texts (fetched_nodes w u) [r]) w1
    /\ auth_user w1 = Some u
    /\ knowledge_nodes w1 = knowledge_nodes w
    /\ map relation_triple (knowledge_relations w1)
       = map relation_triple (knowledge_relations w)
           ++ links (fetched_nodes w u) [r].
Proof.
  intros Hauth.
  cbn [relationship_loop linked_texts links flat_map].
  unfold link, linked_node. rewrite !filter_head_find, !app_nil_r.
  unfold bind, getKnowledgeNodes, addKnowledgeRelation, logEvent,
    console_warn, bind, getCurrentUserId.
  unfold fetched_nodes. repeat (rewrite Hauth; cbv beta iota zeta).
  destruct (filter (same_name (rel_source r)) _) as [|sourceNode ?];
    [|destruct (filter (same_name (rel_target r)) _) as [|targetNode ?]];
    repeat (cbv beta iota zeta;
            cbn [hd_error auth_user add_knowledge_relation log];
            rewrite ?Hauth);
    eexists; (split; [rewrite ?app_nil_r; reflexivity|]);
    cbn [auth_user knowledge_nodes knowledge_relations add_event
           add_knowledge_relation log];
    rewrite ?app_nil_r, ?map_app; auto.
Qed.

Lemma relationship_loop_links (rels : list Relationship) (u : Uuid) :
  forall w created,
    auth_user w = Some u ->
    exists w',
      relationship_loop rels created w
      = (Ok (created ++ linked_texts (fetched_nodes w u) rels), w')
      /\ map relation_triple (knowledge_relations w')
         = map relation_triple (knowledge_relations w)
             ++ links (fetched_nodes w u) rels.
Proof.
  induction rels as [|r rest IH]; intros w created Hauth.
  - exists w. simpl. now rewrite !app_nil_r.
  - destruct (@relationship_loop_step r rest u w created Hauth)
      as [w1 [Hstep [Hauth1 [Hnodes Hrel1]]]].
    destruct (IH w1 (created ++ linked_texts (fetched_nodes w u) [r]) Hauth1)
      as [w' [Hrun Hrel]].
    rewrite (@fetched_nodes_frame w w1 u
               (eq_trans Hauth1 (eq_sym Hauth)) Hnodes) in Hrun, Hrel.
    exists w'. split.
    + rewrite Hstep, Hrun, <- app_assoc. do 3 f_equal.
      unfold linked_texts. simpl. now rewrite app_nil_r.
    + rewrite Hrel, Hrel1, <- app_assoc. f_equal.
      unfold links. simpl. now rewrite app_nil_r.
Qed.

(** C10. When [processTextForKnowledge] has created the entities and comes to
    the relationships, each relationship is linked to the first fetched node
    whose name equals its source, letter case apart, and to the first whose
    name equals its target; a relationship with an endpoint that no node
    stands for is left out of the relations and of the returned list, and
    the call still succeeds. *)
Theorem relationship_linking (w w1 : World) (u : Uuid) (text source : str)
    (userId : Uuid) (ents : list Entity) (rels : list Relationship)
    (names : list str) :
  auth_user w = Some u ->
  chat_extract text = Some (ents, rels) ->
  entity_loop source ents [] w = (Ok names, w1) ->
  exists w2,
    processTextForKnowledge text source userId w
    = (Ok {| entities := names;
             relationships := linked_texts (fetched_nodes w1 u) rels |}, w2)
    /\ map relation_triple (knowledge_relations w2)
       = map relation_triple (knowledge_relations w1)
           ++ links (fetched_nodes w1 u) rels.
Proof.
  intros Hauth Hextract Hents.
  assert (Hauth1 : auth_user w1 = Some u).
  { pose proof (preserves_entity_loop source ents [] w) as [Ha _].
    rewrite Hents in Ha. simpl in Ha. congruence. }
  destruct (@relationship_loop_links rels u w1 [] Hauth1) as [w2 [Hrun Hrel]].
  exists w2. split; [|exact Hrel].
  unfold processTextForKnowledge, try_catch, bind, extractKnowledge.
  rewrite Hextract. unfold ret. cbv beta iota zeta. cbn [fst snd].
  rewrite Hents. cbv beta iota zeta. now rewrite Hrun.
Qed.

End IngestProperties.

(* ================================================================== *)
(** * The theorems at sample inputs *)

(** C1 at the query of a chat message: [alice] has stored a record, [bob]
    one with the same embedding, and [bob] sends a message.  When
    [processMessage] comes to its query, two rows of other tables later, the
    query returns [bob]'s record and not [alice]'s, and the context of the
    message holds [bob]'s text only. *)
Lemma scope_isolation_witness :
  searchEmbeddings (ext := ext_up) (axis 0) 5 (core db_bob_query)
  = (Ok [to_match (ext := ext_up) (axis 0) record_bob], core db_bob_query)
  /\ fst (getRelevantContext (ext := ext_up) question bob
            (core db_bob_history))
     = Ok (context_entry (ext := ext_up)
             (to_match (ext := ext_up) (axis 0) record_bob))
  /\ next_id (core db_bob_query) = 4%N
  /\ ~ In (emb_id record_alice)
         (map m_id [to_match (ext := ext_up) (axis 0) record_bob]).
Proof.
  split; [vm_compute; reflexivity|]. split; [vm_compute; reflexivity|].
  split; [vm_compute; reflexivity|].
  apply (@scope_isolation ext_up (chat_answers (lit "hi there")) db_alice
           db_bob_query world_alice_record (core db_bob_query)
           alice bob (lit "file") 7%N (lit "text of alice") (axis 0)
           record_alice (axis 0) 5).
  - apply rt_step. exact (step_auth empty_db (Some alice)).
  - discriminate.
  - reflexivity.
  - vm_compute. reflexivity.
  - apply rt_trans with (y := db_bob);
      [apply rt_step;
       exact (step_auth (with_core world_alice_record db_alice) (Some bob))|].
    apply rt_trans with (y := db_bob_record);
      [apply rt_step;
       exact (step_saveEmbedding db_bob (lit "file") 8%N (lit "text of bob")
                (axis 0))|].
    apply rt_trans with (y := db_bob_message);
      [apply rt_step;
       exact (step_saveMessage db_bob_record (lit "user") question
                (Some session_one) None)|].
    apply rt_trans with (y := db_bob_event);
      [apply rt_step;
       exact (step_logEvent db_bob_message (lit "message")
                (lit "User sent a message") (Some session_one)
                (Some (lit "messages")) [])|].
    apply rt_trans with (y := db_bob_history);
      [apply rt_step; exact (step_getRecentMessages db_bob_event 20)|].
    apply rt_step. exact (step_generateEmbedding db_bob_history question).
  - reflexivity.
  - vm_compute. reflexivity.
Defined.

(** C4 (amended) at [world_ranked], [alice] asking with the limit 3: of her
    five records the one at similarity 1/2 is below the threshold and the
    one at the double 0.7 is at it; the three rows returned are the record
    at similarity 1 and the two at 4/5, the earlier of these first; the
    record of [bob] is not among them.  With the limit 10 the record at the
    threshold comes fourth. *)
Lemma searchEmbeddings_contract_witness :
  (exists results,
     searchEmbeddings (ext := ext_up) (axis 0) 3 world_ranked
     = (Ok results, world_ranked)
     /\ map m_content results = [lit "e"; lit "c"; lit "d"])
  /\ (exists results,
        searchEmbeddings (ext := ext_up) (axis 0) 10 world_ranked
        = (Ok results, world_ranked)
        /\ map m_content results = [lit "e"; lit "c"; lit "d"; lit "b"])
  /\ exists ranked results,
       searchEmbeddings (ext := ext_up) (axis 0) 3 world_ranked
       = (Ok results, world_ranked)
       /\ results = map (to_match (ext := ext_up) (axis 0)) (firstn 3 ranked)
       /\ length results <= 3
       /\ Permutation ranked
            (filter (fun r =>
                       N.eqb (emb_user_id r) alice
                       && Qle_bool double_0_7
                            (cosine_similarity (Externals := ext_up)
                               (emb_embedding r) (axis 0)))
               (embeddings world_ranked))
       /\ StronglySorted
            (fun a b =>
               (cosine_similarity (Externals := ext_up) (emb_embedding b)
                  (axis 0)
                < cosine_similarity (Externals := ext_up) (emb_embedding a)
                    (axis 0))%Q
               \/ (cosine_similarity (Externals := ext_up) (emb_embedding a)
                     (axis 0)
                   == cosine_similarity (Externals := ext_up)
                        (emb_embedding b) (axis 0))%Q
                  /\ emb_created_at a <= emb_created_at b)
            ranked
       /\ Forall (fun m => (double_0_7 <= m_similarity m)%Q) results.
Proof.
  split; [|split].
  - eexists. split; vm_compute; reflexivity.
  - eexists. split; vm_compute; reflexivity.
  - exact (@searchEmbeddings_contract ext_up world_ranked alice (axis 0) 3
             eq_refl).
Defined.

(** C4 as stated fails: [alice] has one record, at similarity 0 to the query
    [axis 0].  The query of the claim with [minSimilarity = 0] and [k = 5]
    returns it; [searchEmbeddings], which has no parameter for the threshold
    and passes the literal 0.7, returns nothing. *)
Lemma searchEmbeddings_ignores_minSimilarity :
  auth_user world_one_record = Some alice
  /\ (-1 <= 0 <= 1)%Q
  /\ match_embeddings (ext := ext_up) (rls_embeddings world_one_record)
       (axis 0) 0 5 alice
     = [to_match (ext := ext_up) (axis 0) record_one]
  /\ searchEmbeddings (ext := ext_up) (axis 0) 5 world_one_record
     = (Ok [], world_one_record)
  /\ ~ (forall w u query k (minSimilarity : Q),
          auth_user w = Some u -> 0 < k ->
          (-1 <= minSimilarity <= 1)%Q ->
          fst (searchEmbeddings (ext := ext_up) query k w)
          = Ok (match_embeddings (ext := ext_up) (rls_embeddings w) query
                  minSimilarity k u)).
Proof.
  split; [reflexivity|]. split; [split; discriminate|].
  split; [vm_compute; reflexivity|]. split; [vm_compute; reflexivity|].
  intros Hclaim.
  specialize (Hclaim world_one_record alice (axis 0) 5 0%Q eq_refl).
  assert (Hk : 0 < 5) by lia.
  assert (Hm : (-1 <= 0 <= 1)%Q) by (split; discriminate).
  specialize (Hclaim Hk Hm). vm_compute in Hclaim. discriminate Hclaim.
Qed.

(** C9 (amended) at the vector of zeros, and at a vector of two numbers. *)
Lemma saveEmbedding_checks_dimension_only_witness :
  (exists record,
     saveEmbedding (lit "file") 7%N (lit "some text") zero_vector world_alice
     = (Ok record, add_embedding record world_alice)
     /\ emb_user_id record = alice
     /\ emb_embedding record = zero_vector
     /\ embeddings (add_embedding record world_alice)
        = embeddings world_alice ++ [record])
  /\ saveEmbedding (lit "file") 7%N (lit "some text") [1%Q; 0%Q] world_alice
     = (Err InvalidDimension, world_alice).
Proof.
  split.
  - apply (proj1 (@saveEmbedding_checks_dimension_only world_alice alice
                    (lit "file") 7%N (lit "some text") zero_vector eq_refl)).
    vm_compute. reflexivity.
  - apply (proj2 (@saveEmbedding_checks_dimension_only world_alice alice
                    (lit "file") 7%N (lit "some text") [1%Q; 0%Q] eq_refl)).
    vm_compute. discriminate.
Defined.

(** C9 as stated fails: the vector of 1536 zeros is stored. *)
Lemma saveEmbedding_accepts_zero_vector :
  Forall (fun x => x = 0%Q) zero_vector
  /\ exists record,
       saveEmbedding (lit "file") 7%N (lit "some text") zero_vector world_alice
       = (Ok record, add_embedding record world_alice)
       /\ emb_embedding record = zero_vector
       /\ embeddings (add_embedding record world_alice) = [record].
Proof.
  split.
  - apply Forall_forall. intros x Hx. now apply repeat_spec in Hx.
  - eexists. split; [vm_compute; reflexivity|]. split; reflexivity.
Qed.

(** C5 (amended) at the document of five chunks, the third call refused. *)
Lemma processFile_stops_at_rejected_chunk_witness :
  exists w2,
    processFile (ext := ext_rejects_third) doc_path doc_size five_paragraphs
      doc_name doc_type alice world_alice
    = (Err ProviderRejected, w2)
    /\ embeddings w2 = embeddings world_two_chunks
    /\ embed_calls w2 = S (embed_calls world_two_chunks).
Proof.
  eapply (@processFile_stops_at_rejected_chunk ext_rejects_third world_alice
            world_file_saved world_two_chunks doc_path doc_size
            five_paragraphs doc_name doc_type alice _
            [paragraph_of 97%N; paragraph_of 98%N]
            [paragraph_of 100%N; paragraph_of 101%N] (paragraph_of 99%N)
            ProviderRejected).
  - vm_compute. reflexivity.
  - vm_compute. reflexivity.
  - vm_compute. reflexivity.
  - vm_compute. reflexivity.
Defined.

(** C5 as stated fails: the document has five chunks and the provider
    refuses the third call, that for ordinal 2.  [processFile] fails with the
    provider's error; the store holds the records of ordinals 0 and 1 and
    none of ordinals 3 and 4. *)
Lemma processFile_rejected_chunk_aborts :
  chunkText five_paragraphs default_maxChunkSize
  = map paragraph_of [97; 98; 99; 100; 101]%N
  /\ fst (processFile (ext := ext_rejects_third) doc_path doc_size
            five_paragraphs doc_name doc_type alice world_alice)
     = Err ProviderRejected
  /\ map emb_content
       (embeddings
          (snd (processFile (ext := ext_rejects_third) doc_path doc_size
                  five_paragraphs doc_name doc_type alice world_alice)))
     = map paragraph_of [97; 98]%N.
Proof.
  split; [vm_compute; reflexivity|].
  split; vm_compute; reflexivity.
Qed.

(** C6 (amended) with the provider down. *)
Lemma getRelevantContext_swallows_embedding_failure_witness :
  getRelevantContext (ext := ext_down) question alice world_alice
  = (Ok [],
     log (LogError (lit "Error getting relevant context:") ProviderUnavailable)
       (log (LogError (lit "Error generating embedding:") ProviderUnavailable)
          (count_embed_call world_alice))).
Proof.
  exact (@getRelevantContext_swallows_embedding_failure ext_down world_alice
           question alice ProviderUnavailable eq_refl).
Defined.

(** C6 as stated fails: with the provider down the call succeeds, with the
    empty string. *)
Lemma getRelevantContext_provider_down :
  embeddings_create (Externals := ext_down) (embed_calls world_alice) question
  = Err ProviderUnavailable
  /\ fst (getRelevantContext (ext := ext_down) question alice world_alice)
     = Ok [].
Proof. split; reflexivity. Qed.

(** X23 at the loop of [processFile] with a client that fails its first
    call and would answer a second one: the loop ends after the first. *)
Lemma embedding_client_called_once_witness :
  embeddings_create (Externals := ext_flaky) 1 (lit "first chunk")
  = Ok (axis 0)
  /\ fst (ingest_loop (ext := ext_flaky) doc_name 0%N alice 0
            [lit "first chunk"; lit "second chunk"] world_alice)
     = Err ProviderUnavailable
  /\ embed_calls
       (snd (ingest_loop (ext := ext_flaky) doc_name 0%N alice 0
               [lit "first chunk"; lit "second chunk"] world_alice))
     = S (embed_calls world_alice).
Proof.
  split; [reflexivity|].
  exact (proj2 (proj2 (@embedding_client_called_once ext_flaky)) world_alice
           doc_name 0%N alice 0 (lit "first chunk") [lit "second chunk"]
           ProviderUnavailable eq_refl).
Defined.

(** C10 at [world_three_nodes]: [ada -[knows]-> BOB] is linked to the first
    node named Ada and to the node named Bob; [Ada -[knows]-> Carol] is left
    out, there being no node named Carol. *)
Lemma relationship_linking_witness :
  linked_texts (ext := ext_relationships)
    (fetched_nodes world_three_nodes alice) sample_relationships
  = [lit "ada -[knows]-> BOB"]
  /\ links (ext := ext_relationships)
       (fetched_nodes world_three_nodes alice) sample_relationships
     = [(0%N, 2%N, lit "knows")]
  /\ exists w2,
       processTextForKnowledge (ext := ext_relationships) question
         (lit "chat") alice world_three_nodes
       = (Ok {| entities := [];
                relationships :=
                  linked_texts (ext := ext_relationships)
                    (fetched_nodes world_three_nodes alice)
                    sample_relationships |}, w2)
       /\ map relation_triple (knowledge_relations w2)
          = map relation_triple (knowledge_relations world_three_nodes)
              ++ links (ext := ext_relationships)
                   (fetched_nodes world_three_nodes alice)
                   sample_relationships.
Proof.
  split; [vm_compute; reflexivity|]. split; [vm_compute; reflexivity|].
  exact (@relationship_linking ext_relationships world_three_nodes
           world_three_nodes alice question (lit "chat") alice []
           sample_relationships [] eq_refl eq_refl eq_refl).
Defined.

(* ================================================================== *)
(** * Further properties of the chunker and of summarizeText *)

Lemma slices_loop_bound (max fuel : nat) (s : str) :
  Forall (fun c => length c <= max) (slices_loop fuel s max).
Proof.
  revert s. induction fuel as [|fuel IH]; intros s; simpl; [constructor|].
  destruct s as [|c r]; constructor; [apply firstn_le_length|apply IH].
Qed.

Lemma slices_loop_nonempty (max fuel : nat) (s : str) :
  0 < max -> Forall (fun c => c <> []) (slices_loop fuel s max).
Proof.
  intros Hmax. revert s.
  induction fuel as [|fuel IH]; intros s; simpl; [constructor|].
  destruct s as [|c r]; constructor; [|apply IH].
  destruct max; [lia|discriminate].
Qed.

Lemma flush_chunks (P : str -> Prop) (st : chunk_state) :
  Forall P (fst st) -> (snd st <> [] -> P (snd st)) ->
  Forall P (fst (flush st)).
Proof.
  destruct st as [chunks cur]. unfold flush. simpl. intros Hc Hcur.
  destruct (0 <? length cur) eqn:E; simpl; [|exact Hc].
  apply Forall_app. split; [exact Hc|]. constructor; [|constructor].
  apply Hcur. apply Nat.ltb_lt in E. destruct cur; [simpl in E; lia|easy].
Qed.

(** The bound the loops keep: no chunk, and not the chunk in the making, is
    longer than [max + 2]. *)
Lemma sentence_step_bound (max : nat) (st : chunk_state) (s : str) :
  Forall (fun c => length c <= max + 2) (fst st) ->
  length (snd st) <= max + 2 ->
  Forall (fun c => length c <= max + 2) (fst (sentence_step max st s))
  /\ length (snd (sentence_step max st s)) <= max + 2.
Proof.
  intros Hc Hcur. unfold sentence_step. destruct st as [chunks cur].
  destruct (max <? length cur + length s) eqn:E.
  - pose proof (@flush_chunks (fun c => length c <= max + 2) (chunks, cur)
                  Hc (fun _ => Hcur)) as Hf.
    pose proof (flush_empty_or_same (chunks, cur)) as He.
    destruct (flush (chunks, cur)) as [chunks' cur']. simpl in *. subst cur'.
    destruct (max <? length s) eqn:E'; simpl.
    + split; [|lia]. apply Forall_app. split; [exact Hf|].
      eapply Forall_impl; [|apply slices_loop_bound]. simpl. intros; lia.
    + apply Nat.ltb_ge in E'. split; [exact Hf|lia].
  - apply Nat.ltb_ge in E. simpl in *. split; [exact Hc|].
    rewrite !length_app. destruct (0 <? length cur); simpl; lia.
Qed.

Lemma sentences_bound (max : nat) (l : list str) (st : chunk_state) :
  Forall (fun c => length c <= max + 2) (fst st) ->
  length (snd st) <= max + 2 ->
  Forall (fun c => length c <= max + 2)
    (fst (fold_left (sentence_step max) l st))
  /\ length (snd (fold_left (sentence_step max) l st)) <= max + 2.
Proof.
  revert st. induction l as [|s l IH]; intros st Hc Hcur; simpl; [auto|].
  destruct (@sentence_step_bound max st s Hc Hcur). now apply IH.
Qed.

Lemma paragraph_step_bound (max : nat) (st : chunk_state) (p : str) :
  Forall (fun c => length c <= max + 2) (fst st) ->
  length (snd st) <= max + 2 ->
  Forall (fun c => length c <= max + 2) (fst (paragraph_step max st p))
  /\ length (snd (paragraph_step max st p)) <= max + 2.
Proof.
  intros Hc Hcur. unfold paragraph_step. destruct st as [chunks cur].
  destruct (max <? length cur + length p) eqn:E.
  - pose proof (@flush_chunks (fun c => length c <= max + 2) (chunks, cur)
                  Hc (fun _ => Hcur)) as Hf.
    pose proof (flush_empty_or_same (chunks, cur)) as He.
    destruct (max <? length p) eqn:E'.
    + apply sentences_bound; [exact Hf|]. rewrite He. simpl. lia.
    + apply Nat.ltb_ge in E'. simpl. split; [exact Hf|lia].
  - apply Nat.ltb_ge in E. simpl in *. split; [exact Hc|].
    rewrite !length_app. destruct (0 <? length cur); simpl; lia.
Qed.

Lemma paragraphs_bound (max : nat) (l : list str) (st : chunk_state) :
  Forall (fun c => length c <= max + 2) (fst st) ->
  length (snd st) <= max + 2 ->
  Forall (fun c => length c <= max + 2)
    (fst (fold_left (paragraph_step max) l st))
  /\ length (snd (fold_left (paragraph_step max) l st)) <= max + 2.
Proof.
  revert st. induction l as [|p l IH]; intros st Hc Hcur; simpl; [auto|].
  destruct (@paragraph_step_bound max st p Hc Hcur). now apply IH.
Qed.

(** X1. For [maxChunkSize > 0] no chunk is longer than [maxChunkSize + 2]:
    a chunk exceeds the size asked for by at most the separator that joined
    its last paragraph. *)
Theorem chunkText_bound_with_separator (text : str) (maxChunkSize : nat) :
  0 < maxChunkSize ->
  Forall (fun chunk => length chunk <= maxChunkSize + 2)
    (chunkText text maxChunkSize).
Proof.
  intros _. unfold chunkText.
  destruct ((length text =? 0) || (length text <=? maxChunkSize)) eqn:E.
  - constructor; [|constructor]. apply orb_true_iff in E as [E|E].
    + apply Nat.eqb_eq in E. lia.
    + apply Nat.leb_le in E. lia.
  - destruct (@paragraphs_bound maxChunkSize (split paragraph_break text)
                ([], [])) as [Hc Hcur]; [constructor|simpl; lia|].
    destruct (fold_left _ _ _) as [chunks cur]. simpl in *.
    destruct (0 <? length cur); [|exact Hc].
    apply Forall_app. split; [exact Hc|]. now constructor.
Qed.

(** X1 at the input of C2, where the bound is reached. *)
Lemma chunkText_bound_with_separator_witness :
  0 < 5
  /\ Forall (fun chunk => length chunk <= 5 + 2) (chunkText text_abc_de 5).
Proof.
  split; [lia|]. apply (@chunkText_bound_with_separator text_abc_de 5). lia.
Defined.

Lemma sentence_step_nonempty (max : nat) (st : chunk_state) (s : str) :
  0 < max ->
  Forall (fun c => c <> []) (fst st) ->
  Forall (fun c => c <> []) (fst (sentence_step max st s)).
Proof.
  intros Hmax Hc. unfold sentence_step. destruct st as [chunks cur].
  destruct (max <? length cur + length s); [|exact Hc].
  pose proof (@flush_chunks (fun c => c <> []) (chunks, cur) Hc
                (fun H => H)) as Hf.
  destruct (flush (chunks, cur)) as [chunks' cur']. simpl in *.
  destruct (max <? length s); simpl; [|exact Hf].
  apply Forall_app. split; [exact Hf|]. now apply slices_loop_nonempty.
Qed.

Lemma sentences_nonempty (max : nat) (l : list str) (st : chunk_state) :
  0 < max ->
  Forall (fun c => c <> []) (fst st) ->
  Forall (fun c => c <> []) (fst (fold_left (sentence_step max) l st)).
Proof.
  intros Hmax. revert st. induction l as [|s l IH]; intros st Hc; simpl;
    [exact Hc|].
  apply IH. now apply sentence_step_nonempty.
Qed.

Lemma paragraph_step_nonempty (max : nat) (st : chunk_state) (p : str) :
  0 < max ->
  Forall (fun c => c <> []) (fst st) ->
  Forall (fun c => c <> []) (fst (paragraph_step max st p)).
Proof.
  intros Hmax Hc. unfold paragraph_step. destruct st as [chunks cur].
  pose proof (@flush_chunks (fun c => c <> []) (chunks, cur) Hc
                (fun H => H)) as Hf.
  destruct (max <? length cur + length p); [|exact Hc].
  destruct (max <? length p); [|exact Hf].
  now apply sentences_nonempty.
Qed.

Lemma paragraphs_nonempty (max : nat) (l : list str) (st : chunk_state) :
  0 < max ->
  Forall (fun c => c <> []) (fst st) ->
  Forall (fun c => c <> []) (fst (fold_left (paragraph_step max) l st)).
Proof.
  intros Hmax. revert st. induction l as [|p l IH]; intros st Hc; simpl;
    [exact Hc|].
  apply IH. now apply paragraph_step_nonempty.
Qed.

(** X2. For a text that is not empty and [maxChunkSize > 0], no chunk is the
    empty string. *)
Theorem chunkText_no_empty_chunk (text : str) (maxChunkSize : nat) :
  0 < maxChunkSize ->
  text <> [] ->
  Forall (fun chunk => chunk <> []) (chunkText text maxChunkSize).
Proof.
  intros Hmax Htext. unfold chunkText.
  destruct ((length text =? 0) || (length text <=? maxChunkSize)).
  - now repeat constructor.
  - pose proof (@paragraphs_nonempty maxChunkSize
                  (split paragraph_break text) ([], []) Hmax
                  (Forall_nil _)) as Hc.
    destruct (fold_left _ _ _) as [chunks cur]. simpl in Hc.
    destruct (0 <? length cur) eqn:E; [|exact Hc].
    apply Forall_app. split; [exact Hc|]. constructor; [|constructor].
    apply Nat.ltb_lt in E. destruct cur; [simpl in E; lia|easy].
Qed.

Lemma chunkText_no_empty_chunk_witness :
  0 < 9 /\ text_sentences <> []
  /\ Forall (fun chunk => chunk <> []) (chunkText text_sentences 9).
Proof.
  split; [lia|]. split; [discriminate|].
  apply (@chunkText_no_empty_chunk text_sentences 9); [lia|discriminate].
Defined.

(** A splitter that starts its matches at white space finds none in a text
    without white space. *)
Lemma split_from_no_space (m : matcher) :
  (forall prev l n, m prev l = Some (S n) ->
                    exists c r, l = c :: r /\ is_space c = true) ->
  forall l prev cur,
    forallb (fun c => negb (is_space c)) l = true ->
    split_from m prev 0 cur l = [rev_append cur l].
Proof.
  intros Hm. induction l as [|c r IH]; intros prev cur Hl; [reflexivity|].
  simpl in Hl. apply andb_true_iff in Hl as [Hc Hr].
  cbn [split_from].
  destruct (m prev (c :: r)) as [[|k]|] eqn:E.
  - now rewrite IH.
  - destruct (Hm _ _ _ E) as [c' [r' [[= <- <-] Hs]]].
    rewrite Hs in Hc. discriminate.
  - now rewrite IH.
Qed.

Lemma paragraph_break_at_space (prev : option N) (l : str) (n : nat) :
  paragraph_break prev l = Some (S n) ->
  exists c r, l = c :: r /\ is_space c = true.
Proof.
  unfold paragraph_break. destruct l as [|c r]; [discriminate|].
  destruct (N.eqb c NL) eqn:E; [|discriminate]. intros _.
  apply N.eqb_eq in E. subst c. now exists NL, r.
Qed.

Lemma sentence_break_at_space (prev : option N) (l : str) (n : nat) :
  sentence_break prev l = Some (S n) ->
  exists c r, l = c :: r /\ is_space c = true.
Proof.
  unfold sentence_break. destruct prev as [p|]; [|discriminate].
  destruct (is_terminator p); [|discriminate].
  destruct l as [|c r]; simpl; [discriminate|].
  destruct (is_space c) eqn:E; [|discriminate]. intros _. now exists c, r.
Qed.

(** X3. A text without white space longer than [maxChunkSize > 0] is cut
    into slices of [maxChunkSize] code units: the chunks joined end to end
    are the text, and none is longer than [maxChunkSize]. *)
Theorem chunkText_without_space (text : str) (maxChunkSize : nat) :
  0 < maxChunkSize ->
  forallb (fun c => negb (is_space c)) text = true ->
  concat (chunkText text maxChunkSize) = text
  /\ Forall (fun chunk => length chunk <= maxChunkSize)
       (chunkText text maxChunkSize)
  /\ (maxChunkSize < length text ->
      chunkText text maxChunkSize = slices text maxChunkSize).
Proof.
  intros Hmax Hns. unfold chunkText.
  destruct ((length text =? 0) || (length text <=? maxChunkSize)) eqn:E.
  - split; [simpl; apply app_nil_r|]. split.
    + constructor; [|constructor]. apply orb_true_iff in E as [E|E].
      * apply Nat.eqb_eq in E. lia.
      * now apply Nat.leb_le in E.
    + intros Hlen. apply orb_true_iff in E as [E|E].
      * apply Nat.eqb_eq in E. lia.
      * apply Nat.leb_le in E. lia.
  - apply orb_false_iff in E as [_ E]. apply Nat.leb_gt in E.
    assert (Elt : (maxChunkSize <? length text) = true)
      by now apply Nat.ltb_lt.
    unfold split.
    rewrite (@split_from_no_space paragraph_break paragraph_break_at_space
               text None [] Hns).
    cbn [rev_append fold_left]. unfold paragraph_step. cbn [length Nat.add].
    rewrite Elt. unfold split.
    rewrite (@split_from_no_space sentence_break sentence_break_at_space
               text None [] Hns).
    cbn [rev_append fold_left]. unfold sentence_step, flush.
    cbn [length Nat.add]. change (0 <? 0) with false. cbv iota.
    rewrite ?Nat.add_0_l, ?Elt. cbn [app length].
    change (0 <? 0) with false. cbv beta iota zeta.
    split; [unfold slices; apply slices_loop_concat; [lia|reflexivity]|].
    split; [apply slices_loop_bound|reflexivity].
Qed.

Lemma chunkText_without_space_witness :
  concat (chunkText (lit "abcdefghijk") 4) = lit "abcdefghijk"
  /\ Forall (fun chunk => length chunk <= 4) (chunkText (lit "abcdefghijk") 4)
  /\ (4 < length (lit "abcdefghijk") ->
      chunkText (lit "abcdefghijk") 4 = slices (lit "abcdefghijk") 4).
Proof.
  apply (@chunkText_without_space (lit "abcdefghijk") 4); [lia|reflexivity].
Defined.

Lemma trimStart_length (s : str) : length (trimStart s) <= length s.
Proof.
  induction s as [|c r IH]; simpl; [lia|].
  destruct (is_space c); simpl; lia.
Qed.

Lemma trim_length (s : str) : length (trim s) <= length s.
Proof.
  unfold trim. rewrite length_rev.
  etransitivity; [apply trimStart_length|]. rewrite length_rev.
  apply trimStart_length.
Qed.

(** X4. The summary [summarizeText] gives is never longer than 139 code
    units, however long the text: the fixed words, at most 100 code units of
    the text, the dots and the quotes. *)
Theorem summarizeText_length (text : str) :
  length (summarizeText text) <= 139.
Proof.
  unfold summarizeText. destruct (length text =? 0); [vm_compute; lia|].
  rewrite !length_app.
  pose proof (trim_length (firstn 100 text)) as Ht.
  pose proof (firstn_le_length 100 text) as Hf.
  assert (H1 : length (lit "File contains text starting with: ") = 34)
    by reflexivity.
  assert (H2 : length (lit "...") = 3) by reflexivity.
  destruct (100 <? length text); rewrite H1, ?H2; cbn [length]; lia.
Qed.

(* ================================================================== *)
(** * Further properties of the knowledge graph and the files *)

Lemma str_eqb_eq (a b : str) : str_eqb a b = true <-> a = b.
Proof.
  unfold str_eqb. destruct (list_eq_dec N.eq_dec a b); split; congruence.
Qed.

Lemma str_eqb_sym (a b : str) : str_eqb a b = str_eqb b a.
Proof.
  unfold str_eqb.
  destruct (list_eq_dec N.eq_dec a b), (list_eq_dec N.eq_dec b a);
    congruence.
Qed.

Lemma is_auth_uid_eq (w : World) (u x : Uuid) :
  auth_user w = Some u -> is_auth_uid w x = N.eqb x u.
Proof. unfold is_auth_uid. now intros ->. Qed.

(** X5. [getKnowledgeNodes] fails without a session and changes nothing.
    With a user signed in it returns the nodes of that user, all of them and
    no others (a node another user has marked as shared is not returned,
    though the policy would show it); with a type that is given and is not
    the empty string, only those of that type.  The empty string as type
    filters nothing, like no type at all. *)
Theorem getKnowledgeNodes_own_nodes (w : World) (type : option str) :
  (auth_user w = None ->
   getKnowledgeNodes type w = (Err NotAuthenticated, w))
  /\ (forall u, auth_user w = Some u ->
      exists nodes,
        getKnowledgeNodes type w = (Ok nodes, w)
        /\ forall n,
             In n nodes <->
             In n (knowledge_nodes w) /\ kn_user_id n = u
             /\ match type with
                | Some (c :: t) => kn_type n = c :: t
                | Some [] | None => True
                end)
  /\ getKnowledgeNodes (Some []) w = getKnowledgeNodes None w.
Proof.
  unfold getKnowledgeNodes, bind, getCurrentUserId. split; [|split].
  - now intros ->.
  - intros u Hauth. rewrite Hauth. eexists. split; [reflexivity|].
    intros n. unfold rls_knowledge_nodes.
    destruct type as [[|c t]|];
      rewrite ?filter_In, (@is_auth_uid_eq w u _ Hauth),
        ?N.eqb_eq, ?orb_true_iff, ?N.eqb_eq, ?str_eqb_eq; tauto.
  - reflexivity.
Qed.

(** X5 at the three nodes of [alice], all of type [person]: asked for
    [person], for the empty string and for [place]. *)
Lemma getKnowledgeNodes_own_nodes_witness :
  (exists nodes,
     getKnowledgeNodes (Some (lit "person")) world_three_nodes
     = (Ok nodes, world_three_nodes)
     /\ forall n,
          In n nodes <->
          In n (knowledge_nodes world_three_nodes) /\ kn_user_id n = alice
          /\ kn_type n = lit "person")
  /\ getKnowledgeNodes (Some []) world_three_nodes
     = getKnowledgeNodes None world_three_nodes
  /\ fst (getKnowledgeNodes (Some []) world_three_nodes)
     = Ok (knowledge_nodes world_three_nodes)
  /\ fst (getKnowledgeNodes (Some (lit "place")) world_three_nodes) = Ok [].
Proof.
  split; [|split; [|split; reflexivity]].
  - exact (proj1 (proj2 (getKnowledgeNodes_own_nodes world_three_nodes
                           (Some (lit "person")))) alice eq_refl).
  - exact (proj2 (proj2 (getKnowledgeNodes_own_nodes world_three_nodes
                           None))).
Defined.

Section MoreKnowledgeProperties.
Context {ext : Externals}.

Lemma fetched_nodes_own (w : World) (u : Uuid) (n : KnowledgeNode) :
  In n (fetched_nodes w u) ->
  In n (knowledge_nodes w) /\ kn_user_id n = u.
Proof.
  unfold fetched_nodes, rls_knowledge_nodes. rewrite !filter_In, N.eqb_eq.
  tauto.
Qed.

Lemma links_endpoints (nodes : list KnowledgeNode)
    (rels : list Relationship) (s t : Uuid) (type : str) :
  In (s, t, type) (links nodes rels) ->
  exists r ns nt,
    In r rels /\ rel_type r = type
    /\ In ns nodes /\ kn_id ns = s /\ same_name (rel_source r) ns = true
    /\ In nt nodes /\ kn_id nt = t /\ same_name (rel_target r) nt = true.
Proof.
  unfold links. rewrite in_flat_map. intros [r [Hr Hin]].
  unfold link, linked_node in Hin.
  destruct (find (same_name (rel_source r)) nodes) as [ns|] eqn:Es;
    [|destruct Hin].
  destruct (find (same_name (rel_target r)) nodes) as [nt|] eqn:Et;
    [|destruct Hin].
  destruct Hin as [[= <- <- <-]|[]].
  apply find_some in Es as [? ?]. apply find_some in Et as [? ?].
  exists r, ns, nt. auto 10.
Qed.

(** X6. The relations the loop over the relationships adds connect nodes of
    the signed-in user only: both ends of every new relation are ids of
    nodes of that user, whose names are the relationship's source and target,
    letter case apart.  With a user signed in the loop does not fail. *)
Theorem relationship_loop_links_own_nodes (w : World) (u : Uuid)
    (rels : list Relationship) (created : list str) :
  auth_user w = Some u ->
  exists names w' added,
    relationship_loop rels created w = (Ok names, w')
    /\ map relation_triple (knowledge_relations w')
       = map relation_triple (knowledge_relations w) ++ added
    /\ forall s t type,
         In (s, t, type) added ->
         exists r ns nt,
           In r rels /\ rel_type r = type
           /\ In ns (knowledge_nodes w) /\ kn_user_id ns = u /\ kn_id ns = s
           /\ same_name (rel_source r) ns = true
           /\ In nt (knowledge_nodes w) /\ kn_user_id nt = u /\ kn_id nt = t
           /\ same_name (rel_target r) nt = true.
Proof.
  intros Hauth.
  destruct (@relationship_loop_links ext rels u w created Hauth)
    as [w' [Hrun Hrel]].
  eexists. exists w'. eexists. split; [exact Hrun|]. split; [exact Hrel|].
  intros s t type Hin.
  apply links_endpoints in Hin
    as [r [ns [nt [Hr [Ht [Hns [Hs [Hsn [Hnt [Htid Htn]]]]]]]]]].
  apply fetched_nodes_own in Hns as [? ?].
  apply fetched_nodes_own in Hnt as [? ?].
  exists r, ns, nt. auto 12.
Qed.

(** What the statements of the entity loop do to the nodes and to the
    embedding records. *)
Lemma addKnowledgeNode_effect (type name content source : str)
    (w w' : World) (node : KnowledgeNode) :
  addKnowledgeNode type name content source w = (Ok node, w') ->
  knowledge_nodes w' = knowledge_nodes w ++ [node]
  /\ embeddings w' = embeddings w
  /\ kn_type node = type /\ kn_name node = name /\ kn_content node = content
  /\ kn_source node = source /\ auth_user w = Some (kn_user_id node).
Proof.
  unfold addKnowledgeNode, bind, getCurrentUserId.
  destruct (auth_user w); [|discriminate]. intros [= <- <-]. simpl. auto 10.
Qed.

Lemma generateEmbedding_effect (text : str) (w w' : World)
    (v : Result vector) :
  generateEmbedding text w = (v, w') ->
  knowledge_nodes w' = knowledge_nodes w /\ embeddings w' = embeddings w.
Proof.
  rewrite generateEmbedding_run.
  destruct (embeddings_create (embed_calls w) text); intros [= <- <-]; auto.
Qed.

Lemma saveEmbedding_effect (sourceType : str) (sourceId : Uuid)
    (content : str) (embedding : vector) (w w' : World)
    (record : EmbeddingRow) :
  saveEmbedding sourceType sourceId content embedding w = (Ok record, w') ->
  knowledge_nodes w' = knowledge_nodes w
  /\ embeddings w' = embeddings w ++ [record]
  /\ emb_source_type record = sourceType /\ emb_source_id record = sourceId
  /\ emb_content record = content.
Proof.
  unfold saveEmbedding, bind, getCurrentUserId.
  destruct (auth_user w); [|discriminate].
  destruct (length embedding =? EMBEDDING_DIM); [|discriminate].
  intros [= <- <-]. simpl. auto.
Qed.

Lemma logEvent_effect (type description : str) (id : option Uuid)
    (entityType : option str) (tags : list str) (w w' : World)
    (r : Result EventRow) :
  logEvent type description id entityType tags w = (r, w') ->
  knowledge_nodes w' = knowledge_nodes w /\ embeddings w' = embeddings w.
Proof.
  unfold logEvent, bind, getCurrentUserId.
  destruct (auth_user w); intros [= <- <-]; auto.
Qed.

(** X7. When the loop over the extracted entities ends well, it has added
    one node for each entity, in their order, with the entity's type and
    name and the given source, and one embedding record for each node,
    which refers to it; the names it returns are those of the entities. *)
Theorem entity_loop_creates_nodes (source : str) (ents : list Entity) :
  forall (created names : list str) (w w' : World),
    entity_loop source ents created w = (Ok names, w') ->
    names = created ++ map ent_name ents
    /\ exists nodes records,
         knowledge_nodes w' = knowledge_nodes w ++ nodes
         /\ embeddings w' = embeddings w ++ records
         /\ map kn_type nodes = map ent_type ents
         /\ map kn_name nodes = map ent_name ents
         /\ Forall (fun n => kn_source n = source) nodes
         /\ map emb_source_id records = map kn_id nodes
         /\ Forall (fun r => emb_source_type r = lit "knowledge_node")
              records.
Proof.
  induction ents as [|entity rest IH]; intros created names w w' Hrun.
  - injection Hrun as <- <-. split; [now rewrite app_nil_r|].
    exists [], []. rewrite !app_nil_r. repeat split; constructor.
  - cbn [entity_loop] in Hrun. unfold bind in Hrun.
    destruct (addKnowledgeNode _ _ _ _ w) as [[node|e] wa] eqn:Ea;
      [|discriminate].
    destruct (generateEmbedding _ wa) as [[v|e] wb] eqn:Eb; [|discriminate].
    destruct (saveEmbedding _ _ _ _ wb) as [[record|e] wc] eqn:Ec;
      [|discriminate].
    destruct (logEvent _ _ _ _ _ wc) as [[ev|e] wd] eqn:Ed; [|discriminate].
    apply addKnowledgeNode_effect in Ea
      as [Na [Ra [Hty [Hname [_ [Hsrc _]]]]]].
    apply generateEmbedding_effect in Eb as [Nb Rb].
    apply saveEmbedding_effect in Ec as [Nc [Rc [Hst [Hsid _]]]].
    apply logEvent_effect in Ed as [Nd Rd].
    destruct (IH _ _ _ _ Hrun)
      as [-> [nodes [records [Hn [Hr [Ht [Hnm [Hs [Hids Hsts]]]]]]]]].
    split; [now rewrite <- app_assoc|].
    exists (node :: nodes), (record :: records).
    rewrite Hn, Hr, Nd, Rd, Nc, Rc, Nb, Rb, Na, Ra, <- !app_assoc.
    cbn [map app]. rewrite Ht, Hnm, Hids, Hty, Hname, Hsid.
    repeat split; auto.
Qed.

End MoreKnowledgeProperties.

Lemma relationship_loop_links_own_nodes_witness :
  exists names w' added,
    relationship_loop (ext := ext_relationships) sample_relationships []
      world_three_nodes = (Ok names, w')
    /\ map relation_triple (knowledge_relations w')
       = map relation_triple (knowledge_relations world_three_nodes) ++ added
    /\ forall s t type,
         In (s, t, type) added ->
         exists r ns nt,
           In r sample_relationships /\ rel_type r = type
           /\ In ns (knowledge_nodes world_three_nodes)
           /\ kn_user_id ns = alice /\ kn_id ns = s
           /\ same_name (ext := ext_relationships) (rel_source r) ns = true
           /\ In nt (knowledge_nodes world_three_nodes)
           /\ kn_user_id nt = alice /\ kn_id nt = t
           /\ same_name (ext := ext_relationships) (rel_target r) nt = true.
Proof.
  exact (@relationship_loop_links_own_nodes ext_relationships
           world_three_nodes alice sample_relationships [] eq_refl).
Defined.

Lemma entity_loop_creates_nodes_witness :
  [lit "Ada"; lit "Bob"] = [] ++ map ent_name [entity_ada; entity_bob]
  /\ exists nodes records,
       knowledge_nodes world_two_entities
       = knowledge_nodes world_alice ++ nodes
       /\ embeddings world_two_entities = embeddings world_alice ++ records
       /\ map kn_type nodes = map ent_type [entity_ada; entity_bob]
       /\ map kn_name nodes = map ent_name [entity_ada; entity_bob]
       /\ Forall (fun n => kn_source n = lit "chat") nodes
       /\ map emb_source_id records = map kn_id nodes
       /\ Forall (fun r => emb_source_type r = lit "knowledge_node") records.
Proof.
  apply (@entity_loop_creates_nodes ext_up (lit "chat")
           [entity_ada; entity_bob] [] [lit "Ada"; lit "Bob"] world_alice
           world_two_entities).
  vm_compute. reflexivity.
Defined.

Lemma starts_with_refl (s : str) : starts_with s s = true.
Proof.
  induction s as [|c r IH]; simpl; [reflexivity|].
  now rewrite N.eqb_refl.
Qed.

Lemma includes_refl (s : str) : includes s s = true.
Proof. destruct s; simpl; [reflexivity|]. now rewrite N.eqb_refl, starts_with_refl. Qed.

Lemma fold_set_delete_nil (ids : list Uuid) :
  fold_left (fun s id => set_delete id s) ids [] = [].
Proof. induction ids as [|i ids IH]; simpl; auto. Qed.

Lemma filter_none {A} (l : list A) : filter (fun _ => false) l = [].
Proof. induction l; simpl; auto. Qed.

Section QueryKnowledgeProperties.
Context {ext : Externals}.

(** X8. With a user signed in, [queryKnowledge] succeeds and leaves the world
    as it is.  Its direct entities are the nodes of that user whose name
    contains the topic, letter case apart, among them every node that
    relationship linking would take for the topic.  Its related entities and
    its relationships are always empty: the relationships are never read from
    the database. *)
Theorem queryKnowledge_direct_entities_only (w : World) (u : Uuid)
    (topic : str) (userId : Uuid) :
  auth_user w = Some u ->
  exists result,
    queryKnowledge topic userId w = (Ok result, w)
    /\ q_directEntities result
       = filter (fun node =>
                   includes (toLowerCase (kn_name node)) (toLowerCase topic))
           (fetched_nodes w u)
    /\ (forall node, In node (fetched_nodes w u) ->
                     same_name topic node = true ->
                     In node (q_directEntities result))
    /\ q_relatedEntities result = []
    /\ q_relationships result = [].
Proof.
  intros Hauth.
  unfold queryKnowledge, try_catch, bind, getKnowledgeNodes, bind,
    getCurrentUserId, getRelationships, ret.
  rewrite Hauth. fold (fetched_nodes w u). cbv beta iota zeta.
  eexists. split; [reflexivity|]. cbn [q_directEntities q_relatedEntities
                                         q_relationships].
  split; [reflexivity|]. split.
  - intros node Hin Hsame. apply filter_In. split; [exact Hin|].
    unfold same_name in Hsame. apply str_eqb_eq in Hsame. rewrite Hsame.
    apply includes_refl.
  - split; [|reflexivity].
    unfold related_ids. cbn [fold_left]. rewrite fold_set_delete_nil.
    apply filter_none.
Qed.

End QueryKnowledgeProperties.

Lemma queryKnowledge_direct_entities_only_witness :
  exists result,
    queryKnowledge (ext := ext_up) (lit "ad") alice world_three_nodes
    = (Ok result, world_three_nodes)
    /\ q_directEntities result
       = filter (fun node =>
                   includes (toLowerCase (Externals := ext_up) (kn_name node))
                     (toLowerCase (Externals := ext_up) (lit "ad")))
           (fetched_nodes world_three_nodes alice)
    /\ (forall node, In node (fetched_nodes world_three_nodes alice) ->
                     same_name (ext := ext_up) (lit "ad") node = true ->
                     In node (q_directEntities result))
    /\ q_relatedEntities result = []
    /\ q_relationships result = [].
Proof.
  exact (@queryKnowledge_direct_entities_only ext_up world_three_nodes alice
           (lit "ad") alice eq_refl).
Defined.

(** X9. With a user signed in, [saveFileMetadata] succeeds, and [getFiles]
    then returns the files it returned before followed by the new one, which
    belongs to that user and carries the name, type, size, path and summary
    given. *)
Theorem saveFileMetadata_getFiles (w : World) (u : Uuid) (name type : str)
    (size : N) (filePath summary : str) :
  auth_user w = Some u ->
  exists file w1 before,
    saveFileMetadata name type size filePath summary w = (Ok file, w1)
    /\ getFiles w = (Ok before, w)
    /\ getFiles w1 = (Ok (before ++ [file]), w1)
    /\ Forall (fun f => file_user_id f = u) (before ++ [file])
    /\ file_name file = name /\ file_type file = type
    /\ file_size file = size /\ file_path file = filePath
    /\ file_summary file = summary.
Proof.
  intros Hauth.
  set (file := {| file_id := next_id w; file_user_id := u;
                  file_name := name; file_type := type; file_size := size;
                  file_path := filePath; file_summary := summary;
                  file_created_at := clock w |}).
  assert (Hbefore : getFiles w
                    = (Ok (filter (fun r => N.eqb (file_user_id r) u)
                             (rls_files w)), w)).
  { unfold getFiles, bind, getCurrentUserId. now rewrite Hauth. }
  exists file, (add_file file w),
    (filter (fun r => N.eqb (file_user_id r) u) (rls_files w)).
  split.
  { unfold saveFileMetadata, bind, getCurrentUserId. now rewrite Hauth. }
  split; [exact Hbefore|]. split.
  { unfold getFiles, bind, getCurrentUserId. cbn [auth_user add_file].
    rewrite Hauth. unfold rls_files, is_auth_uid.
    cbn [auth_user add_file files]. rewrite Hauth, !filter_app.
    cbn [filter file_user_id file]. rewrite N.eqb_refl.
    cbn [filter file_user_id file]. now rewrite N.eqb_refl. }
  split; [|cbn; auto 10].
  apply Forall_app. split; [|now repeat constructor].
  apply Forall_forall. intros f Hf.
  apply filter_In in Hf as [_ Hf]. now apply N.eqb_eq in Hf.
Qed.

Lemma saveFileMetadata_getFiles_witness :
  exists file w1 before,
    saveFileMetadata doc_name doc_type doc_size doc_path (lit "a summary")
      world_alice = (Ok file, w1)
    /\ getFiles world_alice = (Ok before, world_alice)
    /\ getFiles w1 = (Ok (before ++ [file]), w1)
    /\ Forall (fun f => file_user_id f = alice) (before ++ [file])
    /\ file_name file = doc_name /\ file_type file = doc_type
    /\ file_size file = doc_size /\ file_path file = doc_path
    /\ file_summary file = lit "a summary".
Proof.
  exact (@saveFileMetadata_getFiles world_alice alice doc_name doc_type
           doc_size doc_path (lit "a summary") eq_refl).
Defined.

(* ================================================================== *)
(** * Properties of the emotion functions *)

Lemma Qle_bool_false (a b : Q) : Qle_bool a b = false -> (b < a)%Q.
Proof.
  intros H. apply Qnot_le_lt. intros Hle.
  apply Qle_bool_iff in Hle. congruence.
Qed.

(** X10. [mapScoreToEmotion] is monotone: its label is one of the seven of
    the scale from sad to happy, and a higher score never gets a label lower
    on that scale. *)
Theorem mapScoreToEmotion_monotone (a b : Q) :
  (a <= b)%Q ->
  In (mapScoreToEmotion a) emotion_scale
  /\ emotion_rank (mapScoreToEmotion a) <= emotion_rank (mapScoreToEmotion b).
Proof.
  intros Hab. unfold mapScoreToEmotion. split.
  - repeat match goal with
           | |- context [Qle_bool ?x a] => destruct (Qle_bool x a)
           end; cbn; tauto.
  - repeat match goal with
           | |- context [Qle_bool ?x a] =>
               let E := fresh "Ea" in
               destruct (Qle_bool x a) eqn:E;
               [apply Qle_bool_iff in E|apply Qle_bool_false in E]
           end;
    repeat match goal with
           | |- context [Qle_bool ?x b] =>
               let E := fresh "Eb" in
               destruct (Qle_bool x b) eqn:E;
               [apply Qle_bool_iff in E|apply Qle_bool_false in E]
           end;
    try (vm_compute; lia);
    exfalso; unfold double_0_7, double_0_3, double_0_1 in *; lra.
Qed.

Lemma mapScoreToEmotion_monotone_witness :
  (-(1 # 2) <= 1 # 5)%Q
  /\ In (mapScoreToEmotion (-(1 # 2))) emotion_scale
  /\ emotion_rank (mapScoreToEmotion (-(1 # 2)))
     <= emotion_rank (mapScoreToEmotion (1 # 5)).
Proof.
  split; [discriminate|].
  apply (@mapScoreToEmotion_monotone (-(1 # 2)) (1 # 5)). discriminate.
Defined.

(** X11. The transition between two emotions does not depend on its
    direction, and it lasts no time exactly when the two emotions are the
    same. *)
Theorem getEmotionTransitionConfig_symmetric (a b : str) :
  getEmotionTransitionConfig a b = getEmotionTransitionConfig b a
  /\ (duration (getEmotionTransitionConfig a b) = 0 <-> a = b).
Proof.
  unfold getEmotionTransitionConfig. rewrite (str_eqb_sym b a).
  destruct (str_eqb a b) eqn:E.
  - split; [reflexivity|]. apply str_eqb_eq in E. simpl. tauto.
  - assert (Hne : a <> b).
    { intros Heq. apply str_eqb_eq in Heq. congruence. }
    generalize (str_eqb a (lit "happy")) (str_eqb a (lit "sad"))
      (str_eqb a (lit "excited")) (str_eqb a (lit "confused"))
      (str_eqb b (lit "happy")) (str_eqb b (lit "sad"))
      (str_eqb b (lit "excited")) (str_eqb b (lit "confused"))
      (includes a (lit "neutral")) (includes b (lit "neutral")).
    intros [] [] [] [] [] [] [] [] [] []; simpl;
      (split; [reflexivity|split; [discriminate|contradiction]]).
Qed.

(* ================================================================== *)
(** * Properties of the messages *)

Lemma insert_recent_perm (m : MessageRow) (l : list MessageRow) :
  Permutation (insert_recent m l) (m :: l).
Proof.
  induction l as [|x t IH]; simpl; [reflexivity|].
  destruct (msg_created_at x <=? msg_created_at m); [reflexivity|].
  rewrite IH. apply perm_swap.
Qed.

Lemma newest_first_perm (l : list MessageRow) :
  Permutation (newest_first l) l.
Proof.
  induction l as [|x t IH]; simpl; [reflexivity|].
  rewrite insert_recent_perm. now constructor.
Qed.

Lemma insert_recent_sorted (m : MessageRow) (l : list MessageRow) :
  StronglySorted (fun a b => msg_created_at b <= msg_created_at a) l ->
  StronglySorted (fun a b => msg_created_at b <= msg_created_at a)
    (insert_recent m l).
Proof.
  induction 1 as [|x t Hs IH Hx]; simpl; [repeat constructor|].
  destruct (msg_created_at x <=? msg_created_at m) eqn:E.
  - apply Nat.leb_le in E. constructor; [now constructor|].
    constructor; [exact E|].
    eapply Forall_impl; [|exact Hx]. simpl. intros; lia.
  - apply Nat.leb_gt in E. constructor; [exact IH|].
    eapply Permutation_Forall; [symmetry; apply insert_recent_perm|].
    constructor; [lia|exact Hx].
Qed.

Lemma newest_first_sorted (l : list MessageRow) :
  StronglySorted (fun a b => msg_created_at b <= msg_created_at a)
    (newest_first l).
Proof.
  induction l as [|x t IH]; simpl; [constructor|].
  now apply insert_recent_sorted.
Qed.

Lemma newest_first_snoc (l : list MessageRow) (m : MessageRow) :
  Forall (fun x => msg_created_at x < msg_created_at m) l ->
  newest_first (l ++ [m]) = m :: newest_first l.
Proof.
  induction 1 as [|x t Hx _ IH]; [reflexivity|].
  cbn [app newest_first fold_right]. fold (newest_first (t ++ [m])).
  fold (newest_first t). rewrite IH. cbn [insert_recent].
  assert (E : (msg_created_at m <=? msg_created_at x) = false)
    by (apply Nat.leb_gt; lia).
  now rewrite E.
Qed.

Lemma lift_getCurrentUserId (d : Db) :
  lift getCurrentUserId d
  = match auth_user (core d) with
    | Some u => (DbOk u, d)
    | None => (DbErr (CoreError NotAuthenticated), d)
    end.
Proof.
  unfold lift, getCurrentUserId. destruct d as [w ms es ds c]. simpl.
  now destruct (auth_user w).
Qed.

(** The messages of the user [u], as the session of [u] reads them. *)
Lemma own_messages (d : Db) (u : Uuid) :
  auth_user (core d) = Some u ->
  filter (fun r => N.eqb (msg_user_id r) u) (rls_messages d)
  = filter (fun r => N.eqb (msg_user_id r) u) (messages d).
Proof.
  intros Hauth. unfold rls_messages, is_auth_uid. rewrite Hauth.
  rewrite filter_filter. apply filter_ext. intros r.
  now destruct (N.eqb (msg_user_id r) u).
Qed.

(** X12. [getRecentMessages] fails without a session.  With a user signed in
    it returns at most [limit] messages: the first [limit] of the messages
    of that user, and of no other, put in the order from the newest to the
    oldest. *)
Theorem getRecentMessages_contract (d : Db) (limit : nat) :
  (auth_user (core d) = None ->
   getRecentMessages limit d = (DbErr (CoreError NotAuthenticated), d))
  /\ (forall u, auth_user (core d) = Some u ->
      exists ordered,
        getRecentMessages limit d = (DbOk (firstn limit ordered), d)
        /\ length (firstn limit ordered) <= limit
        /\ Permutation ordered
             (filter (fun r => N.eqb (msg_user_id r) u) (messages d))
        /\ StronglySorted
             (fun a b => msg_created_at b <= msg_created_at a) ordered).
Proof.
  unfold getRecentMessages, dbind. rewrite lift_getCurrentUserId. split.
  - now intros ->.
  - intros u Hauth. rewrite Hauth, (@own_messages d u Hauth).
    eexists. split; [reflexivity|]. split; [apply firstn_le_length|].
    split; [apply newest_first_perm|apply newest_first_sorted].
Qed.

(** X13. With a user signed in, a message stored by [saveMessage] at a time
    later than that of all stored messages is the first that
    [getRecentMessages] returns afterwards, for every limit above zero; it
    carries the role, content and session given. *)
Theorem saveMessage_is_most_recent (d : Db) (u : Uuid) (role content : str)
    (sessionId : option Uuid) (score : option Q) (limit : nat) :
  auth_user (core d) = Some u ->
  Forall (fun m => msg_created_at m < clock (core d)) (messages d) ->
  0 < limit ->
  exists message d1 older,
    saveMessage role content sessionId score d = (DbOk message, d1)
    /\ getRecentMessages limit d1 = (DbOk (message :: older), d1)
    /\ msg_user_id message = u /\ msg_role message = role
    /\ msg_content message = content /\ msg_session_id message = sessionId.
Proof.
  intros Hauth Hold Hlimit.
  set (message := {| msg_id := next_id (core d); msg_user_id := u;
                     msg_role := role; msg_content := content;
                     msg_created_at := clock (core d);
                     msg_session_id := sessionId;
                     msg_sentiment_score := score |}).
  assert (Hauth1 : auth_user (core (add_message message d)) = Some u)
    by exact Hauth.
  exists message, (add_message message d).
  exists (firstn (pred limit)
            (newest_first
               (filter (fun r => N.eqb (msg_user_id r) u) (messages d)))).
  split.
  { unfold saveMessage, dbind. rewrite lift_getCurrentUserId, Hauth.
    reflexivity. }
  split; [|cbn; auto].
  unfold getRecentMessages, dbind.
  rewrite lift_getCurrentUserId, Hauth1,
    (@own_messages (add_message message d) u Hauth1).
  cbn [messages add_message]. rewrite filter_app.
  cbn [filter msg_user_id message]. rewrite N.eqb_refl.
  rewrite newest_first_snoc.
  - destruct limit; [lia|reflexivity].
  - apply Forall_forall. intros x Hx. apply filter_In in Hx as [Hx _].
    rewrite Forall_forall in Hold. exact (Hold x Hx).
Qed.

(* ================================================================== *)
(** * Properties of processMessage and trackEmotion *)

Lemma with_core_core (d : Db) : with_core (core d) d = d.
Proof. now destruct d. Qed.

Lemma saveMessage_run (d : Db) (u : Uuid) (role content : str)
    (sessionId : option Uuid) (score : option Q) :
  auth_user (core d) = Some u ->
  saveMessage role content sessionId score d
  = (DbOk {| msg_id := next_id (core d); msg_user_id := u; msg_role := role;
             msg_content := content; msg_created_at := clock (core d);
             msg_session_id := sessionId; msg_sentiment_score := score |},
     add_message
       {| msg_id := next_id (core d); msg_user_id := u; msg_role := role;
          msg_content := content; msg_created_at := clock (core d);
          msg_session_id := sessionId; msg_sentiment_score := score |} d).
Proof.
  intros Hauth. unfold saveMessage, dbind.
  now rewrite lift_getCurrentUserId, Hauth.
Qed.

Lemma lift_logEvent_run (d : Db) (u : Uuid) (type description : str)
    (id : option Uuid) (entityType : option str) (tags : list str) :
  auth_user (core d) = Some u ->
  exists w',
    lift (logEvent type description id entityType tags) d
    = (DbOk {| ev_id := next_id (core d); ev_user_id := u; ev_type := type;
               ev_description := description; ev_related_entity_id := id;
               ev_related_entity_type := entityType; ev_tags := tags;
               ev_timestamp := clock (core d) |}, with_core w' d)
    /\ auth_user w' = Some u
    /\ embed_calls w' = embed_calls (core d).
Proof.
  intros Hauth. unfold lift, logEvent, bind, getCurrentUserId.
  rewrite Hauth. eexists. split; [reflexivity|]. split; [exact Hauth|].
  reflexivity.
Qed.

Lemma getRecentMessages_run (d : Db) (limit : nat) :
  (auth_user (core d) = None ->
   getRecentMessages limit d = (DbErr (CoreError NotAuthenticated), d))
  /\ (forall u, auth_user (core d) = Some u ->
      exists rows,
        getRecentMessages limit d = (DbOk rows, d)
        /\ length rows <= limit
        /\ forall m, In m rows -> In m (messages d) /\ msg_user_id m = u).
Proof.
  unfold getRecentMessages, dbind. rewrite lift_getCurrentUserId. split.
  - now intros ->.
  - intros u Hauth. rewrite Hauth, (@own_messages d u Hauth).
    eexists. split; [reflexivity|]. split; [apply firstn_le_length|].
    intros m Hm.
    apply in_firstn in Hm.
    apply (Permutation_in _ (newest_first_perm _)) in Hm.
    apply filter_In in Hm as [Hm Hu]. now apply N.eqb_eq in Hu.
Qed.

Section ChatProperties.
Context {ext : Externals} {chat : ChatServices}.

(** [getRelevantContext] never fails and keeps the session; it gives the
    empty string when the embedding call fails. *)
Lemma getRelevantContext_total (w : World) (query : str) (userId : Uuid) :
  exists context w',
    getRelevantContext query userId w = (Ok context, w')
    /\ auth_user w' = auth_user w
    /\ (forall e, embeddings_create (embed_calls w) query = Err e ->
                  context = []).
Proof.
  pose proof (preserves_getRelevantContext query userId w) as [Hauth _].
  revert Hauth. unfold getRelevantContext, try_catch, bind.
  rewrite generateEmbedding_run.
  destruct (embeddings_create (embed_calls w) query) as [v|e].
  - destruct (searchEmbeddings v 5 (count_embed_call w))
      as [[rows|e'] w2]; [destruct (0 <? length rows)|];
      cbn; intros Hauth; eexists; eexists;
      (split; [reflexivity|]); (split; [exact Hauth|]); discriminate.
  - cbn. intros Hauth. eexists. eexists. split; [reflexivity|].
    split; [exact Hauth|]. reflexivity.
Qed.

(** What [processMessage] does with a user signed in, up to the answer of
    the chat model. *)
Lemma processMessage_run (d : Db) (u : Uuid) (userMessage : str)
    (userId sessionId : Uuid) :
  auth_user (core d) = Some u ->
  exists userRow d3 recent context,
    msg_user_id userRow = u /\ msg_role userRow = lit "user"
    /\ msg_content userRow = userMessage
    /\ msg_session_id userRow = Some sessionId
    /\ messages d3 = messages d ++ [userRow]
    /\ auth_user (core d3) = Some u
    /\ (forall m, In m recent ->
                  In m (messages d ++ [userRow]) /\ msg_user_id m = u)
    /\ length recent <= 20
    /\ (forall e,
          embeddings_create (embed_calls (core d)) userMessage = Err e ->
          context = [])
    /\ processMessage userMessage userId sessionId d
       = match chat_complete
                 (prompt_messages context (map to_chat recent)) with
         | Ok completion =>
             (DbOk {| cr_message := assistant_text completion;
                      cr_sessionId := sessionId |},
              add_message
                {| msg_id := next_id (core d3); msg_user_id := u;
                   msg_role := lit "assistant";
                   msg_content := assistant_text completion;
                   msg_created_at := clock (core d3);
                   msg_session_id := Some sessionId;
                   msg_sentiment_score := None |} d3)
         | Err e =>
             (DbErr (CoreError e),
              snd (dconsole_error "Error processing message:" (CoreError e)
                     d3))
         end.
Proof.
  intros Hauth.
  set (userRow := {| msg_id := next_id (core d); msg_user_id := u;
                     msg_role := lit "user"; msg_content := userMessage;
                     msg_created_at := clock (core d);
                     msg_session_id := Some sessionId;
                     msg_sentiment_score := None |}).
  set (d1 := add_message userRow d).
  assert (Hauth1 : auth_user (core d1) = Some u) by exact Hauth.
  destruct (@lift_logEvent_run d1 u (lit "message")
              (lit "User sent a message") (Some sessionId)
              (Some (lit "messages")) [] Hauth1)
    as [w2 [Hlog [Hauth2 Hcalls2]]].
  set (d2 := with_core w2 d1).
  destruct (proj2 (getRecentMessages_run d2 20) u Hauth2)
    as [recent [Hrecent [Hlen Hin]]].
  destruct (getRelevantContext_total (core d2) userMessage userId)
    as [context [w3 [Hctx [Hauth3 Hempty]]]].
  set (d3 := with_core w3 d2).
  exists userRow, d3, recent, context.
  repeat (split; [reflexivity|]).
  split; [exact (eq_trans Hauth3 Hauth2)|].
  split; [exact Hin|]. split; [exact Hlen|]. split.
  { intros e He. apply (Hempty e).
    change (embed_calls (core d2)) with (embed_calls w2).
    rewrite Hcalls2. exact He. }
  unfold processMessage, dtry_catch, dbind.
  rewrite (@saveMessage_run d u _ _ _ _ Hauth). fold userRow d1.
  rewrite Hlog. fold d2. rewrite Hrecent.
  unfold lift at 1. rewrite Hctx. fold d3.
  unfold lift at 1.
  destruct (chat_complete (prompt_messages context (map to_chat recent)))
    as [completion|e]; rewrite with_core_core.
  - rewrite (@saveMessage_run d3 u _ _ _ _
               (eq_trans Hauth3 Hauth2)).
    reflexivity.
  - reflexivity.
Qed.

End ChatProperties.

Lemma assistant_text_nonempty (content : option str) :
  assistant_text content <> [].
Proof. destruct content as [[|c r]|]; discriminate. Qed.

Section ChatTheorems.
Context {ext : Externals} {chat : ChatServices}.

(** X14. A call of [processMessage] that succeeds has stored two messages,
    the user's and then the assistant's, both for the signed-in user and in
    the session given; what it returns is the assistant's message, which is
    never empty. *)
Theorem processMessage_stores_both_messages (d d' : Db) (u : Uuid)
    (userMessage : str) (userId sessionId : Uuid) (response : ChatResponse) :
  auth_user (core d) = Some u ->
  processMessage userMessage userId sessionId d = (DbOk response, d') ->
  exists userRow assistantRow,
    messages d' = messages d ++ [userRow; assistantRow]
    /\ msg_user_id userRow = u /\ msg_role userRow = lit "user"
    /\ msg_content userRow = userMessage
    /\ msg_session_id userRow = Some sessionId
    /\ msg_user_id assistantRow = u
    /\ msg_role assistantRow = lit "assistant"
    /\ msg_content assistantRow = cr_message response
    /\ msg_session_id assistantRow = Some sessionId
    /\ cr_sessionId response = sessionId
    /\ cr_message response <> [].
Proof.
  intros Hauth Hrun.
  destruct (@processMessage_run ext chat d u userMessage userId sessionId
              Hauth)
    as [userRow [d3 [recent [context
         [Hu [Hrole [Hcontent [Hsession [Hmsgs [_ [_ [_ [_ Heq]]]]]]]]]]]]].
  rewrite Heq in Hrun.
  destruct (chat_complete (prompt_messages context (map to_chat recent)))
    as [completion|e]; [|discriminate].
  injection Hrun as <- <-. eexists userRow, _.
  split.
  { cbn [messages add_message]. rewrite Hmsgs, <- app_assoc. reflexivity. }
  cbn. repeat (split; [assumption || reflexivity|]).
  apply assistant_text_nonempty.
Qed.

(** X15. When the chat model fails, [processMessage] fails with its error,
    thrown again after being written to the console; the user's message
    stays stored and no message of the assistant is. *)
Theorem processMessage_chat_failure (d : Db) (u : Uuid) (userMessage : str)
    (userId sessionId : Uuid) (e : Error) :
  auth_user (core d) = Some u ->
  (forall prompt, chat_complete prompt = Err e) ->
  exists userRow d',
    processMessage userMessage userId sessionId d = (DbErr (CoreError e), d')
    /\ messages d' = messages d ++ [userRow]
    /\ msg_role userRow = lit "user" /\ msg_content userRow = userMessage
    /\ In (lit "Error processing message:", CoreError e) (db_console d').
Proof.
  intros Hauth Hdown.
  destruct (@processMessage_run ext chat d u userMessage userId sessionId
              Hauth)
    as [userRow [d3 [recent [context
         [_ [Hrole [Hcontent [_ [Hmsgs [_ [_ [_ [_ Heq]]]]]]]]]]]]].
  rewrite Hdown in Heq. exists userRow. eexists.
  split; [exact Heq|]. cbn. split; [exact Hmsgs|].
  split; [exact Hrole|]. split; [exact Hcontent|].
  apply in_or_app. right. now left.
Qed.

(** X16. A failure of the embedding call does not fail [processMessage]:
    the chat model is then asked with the system message followed by the
    conversation history alone, without a message of context, and its answer
    decides the outcome. *)
Theorem processMessage_without_context (d : Db) (u : Uuid)
    (userMessage : str) (userId sessionId : Uuid) (e : Error) :
  auth_user (core d) = Some u ->
  embeddings_create (embed_calls (core d)) userMessage = Err e ->
  exists history,
    fst (processMessage userMessage userId sessionId d)
    = match chat_complete (DEFAULT_SYSTEM_MESSAGE :: map to_chat history) with
      | Ok completion =>
          DbOk {| cr_message := assistant_text completion;
                  cr_sessionId := sessionId |}
      | Err e' => DbErr (CoreError e')
      end
    /\ length history <= 20
    /\ forall m, In m history -> msg_user_id m = u.
Proof.
  intros Hauth Hfail.
  destruct (@processMessage_run ext chat d u userMessage userId sessionId
              Hauth)
    as [userRow [d3 [recent [context
         [_ [_ [_ [_ [_ [_ [Hin [Hlen [Hempty Heq]]]]]]]]]]]]].
  rewrite (Hempty e Hfail) in Heq. exists recent. rewrite Heq.
  change (prompt_messages [] (map to_chat recent))
    with (DEFAULT_SYSTEM_MESSAGE :: map to_chat recent).
  split; [now destruct (chat_complete _)|].
  split; [exact Hlen|]. intros m Hm. now apply Hin.
Qed.

End ChatTheorems.

Lemma logEmotion_run (d : Db) (u : Uuid) (emotion : str) (score : Q)
    (sessionId : option Uuid) :
  auth_user (core d) = Some u ->
  logEmotion emotion score sessionId d
  = (DbOk {| emo_id := next_id (core d); emo_user_id := u;
             emo_session_id := sessionId; emo_emotion := emotion;
             emo_sentiment_score := score; emo_timestamp := clock (core d) |},
     add_emotion_log
       {| emo_id := next_id (core d); emo_user_id := u;
          emo_session_id := sessionId; emo_emotion := emotion;
          emo_sentiment_score := score; emo_timestamp := clock (core d) |} d).
Proof.
  intros Hauth. unfold logEmotion, dbind.
  now rewrite lift_getCurrentUserId, Hauth.
Qed.

Section EmotionTheorems.
Context {ext : Externals} {chat : ChatServices}.

Lemma lift_analyzeSentiment_run (d : Db) (text : str) :
  exists w',
    lift (analyzeSentiment text) d
    = (DbOk match sentiment_analysis text with
            | Some analysis => analysis
            | None => (0%Q, lit "neutral")
            end, with_core w' d)
    /\ auth_user w' = auth_user (core d).
Proof.
  unfold lift, analyzeSentiment.
  destruct (sentiment_analysis text) as [analysis|]; cbn;
    eexists; split; reflexivity.
Qed.

(** X17. With a user signed in [trackEmotion] succeeds whether or not the
    sentiment analysis does: it stores one emotion log of that user, for the
    session given, with the emotion and score of the analysis, or with
    [neutral] and the score 0 when the analysis failed, and returns the
    same. *)
Theorem trackEmotion_records_analysis (d : Db) (u : Uuid) (text : str)
    (userId : Uuid) (sessionId : option Uuid) :
  auth_user (core d) = Some u ->
  exists row d',
    trackEmotion text userId sessionId d
    = (DbOk (emo_emotion row, emo_sentiment_score row), d')
    /\ emotion_logs d' = emotion_logs d ++ [row]
    /\ emo_user_id row = u /\ emo_session_id row = sessionId
    /\ (emo_sentiment_score row, emo_emotion row)
       = match sentiment_analysis text with
         | Some analysis => analysis
         | None => (0%Q, lit "neutral")
         end.
Proof.
  intros Hauth.
  destruct (lift_analyzeSentiment_run d text) as [w1 [Hrun Hauth1]].
  set (analysis := match sentiment_analysis text with
                   | Some analysis => analysis
                   | None => (0%Q, lit "neutral")
                   end) in *.
  set (d1 := with_core w1 d) in *.
  assert (Hd1 : auth_user (core d1) = Some u)
    by exact (eq_trans Hauth1 Hauth).
  pose proof (@logEmotion_run d1 u (snd analysis) (fst analysis) sessionId
                Hd1) as Hlog.
  set (row := {| emo_id := next_id (core d1); emo_user_id := u;
                 emo_session_id := sessionId; emo_emotion := snd analysis;
                 emo_sentiment_score := fst analysis;
                 emo_timestamp := clock (core d1) |}) in *.
  destruct (@lift_logEvent_run (add_emotion_log row d1) u
              (lit "emotion_analysis")
              (lit "Analyzed emotion: " ++ snd analysis ++ lit " ("
                 ++ toFixed2 (fst analysis) ++ lit ")")
              sessionId (Some (lit "emotion"))
              [lit "emotion"; snd analysis] Hd1)
    as [w2 [Hevent _]].
  exists row. eexists. split.
  { unfold trackEmotion, dtry_catch, dbind.
    rewrite Hrun, Hlog, Hevent. reflexivity. }
  cbn. repeat (split; [reflexivity|]). now destruct analysis.
Qed.

End EmotionTheorems.

(* ================================================================== *)
(** * Properties of the daily summaries *)

Lemma filter_nil_forall {A} (p : A -> bool) (l : list A) :
  filter p l = [] -> forall x, In x l -> p x = false.
Proof.
  induction l as [|y l IH]; simpl; [now intros _ x []|].
  destruct (p y) eqn:E; [discriminate|].
  intros Hf x [<-|Hx]; auto.
Qed.

Lemma filter_unique {A} (p : A -> bool) (l : list A) (x : A) :
  NoDup l -> In x l ->
  (forall r, In r l -> (p r = true <-> r = x)) ->
  filter p l = [x].
Proof.
  induction l as [|y l IH]; simpl; [now intros _ []|].
  intros Hnd Hin Hp. apply NoDup_cons_iff in Hnd as [Hy Hnd].
  destruct Hin as [->|Hin].
  - rewrite (proj2 (Hp x (or_introl eq_refl)) eq_refl). f_equal.
    destruct (filter p l) as [|z t] eqn:E; [reflexivity|].
    assert (Hz : In z (filter p l)) by (rewrite E; now left).
    apply filter_In in Hz as [Hz Hpz].
    apply (Hp z (or_intror Hz)) in Hpz. subst z. contradiction.
  - destruct (p y) eqn:E.
    + apply (Hp y (or_introl eq_refl)) in E. subst y. contradiction.
    + apply IH; auto.
Qed.

Lemma filter_map_same {A} (p : A -> bool) (g : A -> A) (l : list A) :
  (forall x, p (g x) = p x) -> filter p (map g l) = map g (filter p l).
Proof.
  intros Hp. induction l as [|x l IH]; simpl; [reflexivity|].
  rewrite Hp. destruct (p x); simpl; now rewrite IH.
Qed.

Lemma NoDup_map_NoDup {A B} (f : A -> B) (l : list A) :
  NoDup (map f l) -> NoDup l.
Proof.
  induction l as [|x l IH]; simpl; [constructor|].
  intros H. apply NoDup_cons_iff in H as [Hx H].
  constructor; [|auto]. intros Hin. apply Hx. now apply in_map.
Qed.

(** At most one row has a given key. *)
Lemma filter_key_short {A K} (f : A -> K) (p : A -> bool) (k : K)
    (l : list A) :
  NoDup (map f l) ->
  (forall x, p x = true -> f x = k) ->
  filter p l = [] \/ exists x, filter p l = [x].
Proof.
  intros Hnd Hp. induction l as [|y l IH]; simpl; [now left|].
  simpl in Hnd. apply NoDup_cons_iff in Hnd as [Hy Hnd].
  destruct (p y) eqn:E; [|auto]. right. exists y. f_equal.
  destruct (filter p l) as [|z t] eqn:Ez; [reflexivity|].
  assert (Hz : In z (filter p l)) by (rewrite Ez; now left).
  apply filter_In in Hz as [Hz Hpz]. exfalso. apply Hy.
  rewrite (Hp y E), <- (Hp z Hpz). now apply in_map.
Qed.

Lemma same_day_key (u : Uuid) (date : N) (r : DailySummary) :
  same_day u date r = true <-> summary_key r = (u, date).
Proof.
  unfold same_day, summary_key. rewrite andb_true_iff, !N.eqb_eq.
  split; [intros [-> ->]; reflexivity|intros [= -> ->]; auto].
Qed.

Lemma getDailySummary_run (d : Db) (u : Uuid) (date : N) :
  auth_user (core d) = Some u ->
  getDailySummary date d
  = (match filter (same_day u date) (daily_summaries d) with
     | [data] => DbOk (Some data)
     | _ => DbOk None
     end, d).
Proof.
  intros Hauth. unfold getDailySummary, dbind.
  rewrite lift_getCurrentUserId, Hauth.
  unfold rls_daily_summaries, is_auth_uid. rewrite Hauth, filter_filter.
  rewrite (filter_ext _ (same_day u date)).
  - now destruct (filter (same_day u date) (daily_summaries d)) as [|? [|? ?]].
  - intros r. unfold same_day. now destruct (N.eqb (ds_user_id r) u).
Qed.

Lemma nullish_none {A} (a : option A) : nullish a None = a.
Proof. now destruct a. Qed.

(** What [saveDailySummary] does with a user signed in, the key of the table
    being what the schema says. *)
Lemma saveDailySummary_spec (d : Db) (u : Uuid) (date : N)
    (chatSummary knowledgeSummary emotionSummary emailSummary
       calendarSummary codeChanges : option str) :
  auth_user (core d) = Some u ->
  summaries_ok d ->
  exists old row d',
    getDailySummary date d = (DbOk old, d)
    /\ saveDailySummary date chatSummary knowledgeSummary emotionSummary
         emailSummary calendarSummary codeChanges d = (DbOk row, d')
    /\ getDailySummary date d' = (DbOk (Some row), d')
    /\ summaries_ok d'
    /\ summary_key row = (u, date)
    /\ ds_chat_summary row
       = nullish chatSummary (old_field old ds_chat_summary)
    /\ ds_knowledge_summary row
       = nullish knowledgeSummary (old_field old ds_knowledge_summary)
    /\ ds_emotion_summary row
       = nullish emotionSummary (old_field old ds_emotion_summary)
    /\ ds_email_summary row
       = nullish emailSummary (old_field old ds_email_summary)
    /\ ds_calendar_summary row
       = nullish calendarSummary (old_field old ds_calendar_summary)
    /\ ds_code_changes row
       = nullish codeChanges (old_field old ds_code_changes)
    /\ length (daily_summaries d')
       = length (daily_summaries d)
         + match old with Some _ => 0 | None => 1 end
    /\ (forall r, In r (daily_summaries d) ->
                  summary_key r <> (u, date) ->
                  In r (daily_summaries d')).
Proof.
  intros Hauth [Hids [Hlt Hkeys]].
  destruct (@filter_key_short _ _ summary_key (same_day u date) (u, date)
              (daily_summaries d) Hkeys
              (fun x => proj1 (same_day_key u date x)))
    as [Hsel|[ex Hsel]].
  - (* no summary yet: one is inserted *)
    set (row := {| ds_id := next_id (core d); ds_user_id := u;
                   ds_date := date; ds_chat_summary := chatSummary;
                   ds_knowledge_summary := knowledgeSummary;
                   ds_emotion_summary := emotionSummary;
                   ds_email_summary := emailSummary;
                   ds_calendar_summary := calendarSummary;
                   ds_code_changes := codeChanges;
                   ds_created_at := clock (core d);
                   ds_email_sent := false |}).
    exists None, row, (add_daily_summary row d).
    split; [now rewrite (@getDailySummary_run d u date Hauth), Hsel|].
    split.
    { unfold saveDailySummary, dbind.
      rewrite lift_getCurrentUserId, Hauth.
      now rewrite (@getDailySummary_run d u date Hauth), Hsel. }
    split.
    { rewrite (@getDailySummary_run (add_daily_summary row d) u date Hauth).
      cbn [daily_summaries add_daily_summary]. rewrite filter_app, Hsel.
      cbn [filter app]. unfold same_day at 1. cbn [ds_user_id ds_date row].
      now rewrite !N.eqb_refl. }
    split.
    { unfold summaries_ok. cbn [daily_summaries add_daily_summary core
                                  bump_id next_id].
      rewrite !map_app. cbn [map]. repeat split.
      - apply NoDup_app; [exact Hids|repeat constructor; auto|].
        intros i Hi [<-|[]]. apply in_map_iff in Hi as [x [Hx Hin]].
        rewrite Forall_forall in Hlt. specialize (Hlt x Hin).
        cbn [ds_id row] in Hx. lia.
      - apply Forall_app. split.
        + eapply Forall_impl; [|exact Hlt]. simpl. intros; lia.
        + constructor; [cbn; lia|constructor].
      - apply NoDup_app; [exact Hkeys|repeat constructor; auto|].
        intros k Hk [<-|[]]. apply in_map_iff in Hk as [x [Hx Hin]].
        change (summary_key x = (u, date)) in Hx.
        apply same_day_key in Hx.
        rewrite (filter_nil_forall _ _ Hsel x Hin) in Hx. discriminate. }
    split; [reflexivity|]. cbn [old_field]. rewrite !nullish_none.
    repeat (split; [reflexivity|]).
    split.
    { cbn [daily_summaries add_daily_summary]. rewrite length_app.
      reflexivity. }
    intros r Hr _. cbn [daily_summaries add_daily_summary].
    apply in_or_app. now left.
  - (* there is one: it is updated *)
    assert (Hex : In ex (daily_summaries d) /\ same_day u date ex = true).
    { apply filter_In. rewrite Hsel. now left. }
    destruct Hex as [Hin Hday].
    assert (Hkey : summary_key ex = (u, date)) by now apply same_day_key.
    assert (Huser : ds_user_id ex = u) by now injection Hkey.
    set (updated := fun r : DailySummary =>
           {| ds_id := ds_id r; ds_user_id := ds_user_id r;
              ds_date := ds_date r;
              ds_chat_summary := nullish chatSummary (ds_chat_summary ex);
              ds_knowledge_summary :=
                nullish knowledgeSummary (ds_knowledge_summary ex);
              ds_emotion_summary :=
                nullish emotionSummary (ds_emotion_summary ex);
              ds_email_summary := nullish emailSummary (ds_email_summary ex);
              ds_calendar_summary :=
                nullish calendarSummary (ds_calendar_summary ex);
              ds_code_changes := nullish codeChanges (ds_code_changes ex);
              ds_created_at := ds_created_at r;
              ds_email_sent := ds_email_sent r |}).
    set (hit := fun r : DailySummary =>
           is_auth_uid (core d) (ds_user_id r)
           && N.eqb (ds_id r) (ds_id ex)).
    set (g := fun r => if hit r then updated r else r).
    assert (Hhit : forall r, In r (daily_summaries d) ->
                             (hit r = true <-> r = ex)).
    { intros r Hr. unfold hit, is_auth_uid. rewrite Hauth.
      rewrite andb_true_iff, !N.eqb_eq. split.
      - intros [_ Hid]. now apply (NoDup_map_eq ds_id _ r ex Hids).
      - intros ->. auto. }
    assert (Hfilter : filter hit (daily_summaries d) = [ex]).
    { apply filter_unique; auto. now apply NoDup_map_NoDup in Hids. }
    assert (Hg_key : forall r, summary_key (g r) = summary_key r).
    { intros r. unfold g. now destruct (hit r). }
    assert (Hg_id : forall r, ds_id (g r) = ds_id r).
    { intros r. unfold g. now destruct (hit r). }
    exists (Some ex), (updated ex),
      (set_daily_summaries (map g (daily_summaries d)) d).
    split; [now rewrite (@getDailySummary_run d u date Hauth), Hsel|].
    split.
    { unfold saveDailySummary, dbind.
      rewrite lift_getCurrentUserId, Hauth.
      rewrite (@getDailySummary_run d u date Hauth), Hsel.
      fold updated. fold hit. fold g. now rewrite Hfilter. }
    split.
    { rewrite (@getDailySummary_run
                 (set_daily_summaries (map g (daily_summaries d)) d) u date
                 Hauth).
      cbn [daily_summaries set_daily_summaries].
      rewrite filter_map_same.
      - rewrite Hsel. cbn [map]. unfold g.
        now rewrite (proj2 (Hhit ex Hin) eq_refl).
      - intros r. unfold same_day.
        pose proof (Hg_key r) as Hk. unfold summary_key in Hk.
        now injection Hk as -> ->. }
    split.
    { unfold summaries_ok. cbn [daily_summaries set_daily_summaries core].
      rewrite !map_map.
      rewrite (map_ext (fun r => ds_id (g r)) ds_id Hg_id).
      rewrite (map_ext (fun r => summary_key (g r)) summary_key Hg_key).
      repeat split; [exact Hids| |exact Hkeys].
      apply Forall_forall. intros r Hr.
      apply in_map_iff in Hr as [x [<- Hx]]. rewrite Hg_id.
      rewrite Forall_forall in Hlt. now apply Hlt. }
    split; [exact Hkey|]. cbn [old_field].
    repeat (split; [reflexivity|]).
    split.
    { cbn [daily_summaries set_daily_summaries]. rewrite length_map. lia. }
    intros r Hr Hne. cbn [daily_summaries set_daily_summaries].
    apply in_map_iff. exists r. split; [|exact Hr].
    unfold g. destruct (hit r) eqn:E; [|reflexivity].
    apply (Hhit r Hr) in E. subst r. contradiction.
Qed.

(** X18. With a user signed in, [getDailySummary] after [saveDailySummary]
    returns the summary saved, the one of that user for that date; each of
    its six texts is the one given, or where none is given the one the
    summary had before, or none if there was no summary. *)
Theorem saveDailySummary_then_get (d : Db) (u : Uuid) (date : N)
    (chatSummary knowledgeSummary emotionSummary emailSummary
       calendarSummary codeChanges : option str) :
  auth_user (core d) = Some u ->
  summaries_ok d ->
  exists old row d',
    getDailySummary date d = (DbOk old, d)
    /\ saveDailySummary date chatSummary knowledgeSummary emotionSummary
         emailSummary calendarSummary codeChanges d = (DbOk row, d')
    /\ getDailySummary date d' = (DbOk (Some row), d')
    /\ ds_user_id row = u /\ ds_date row = date
    /\ ds_chat_summary row
       = nullish chatSummary (old_field old ds_chat_summary)
    /\ ds_knowledge_summary row
       = nullish knowledgeSummary (old_field old ds_knowledge_summary)
    /\ ds_emotion_summary row
       = nullish emotionSummary (old_field old ds_emotion_summary)
    /\ ds_email_summary row
       = nullish emailSummary (old_field old ds_email_summary)
    /\ ds_calendar_summary row
       = nullish calendarSummary (old_field old ds_calendar_summary)
    /\ ds_code_changes row
       = nullish codeChanges (old_field old ds_code_changes).
Proof.
  intros Hauth Hok.
  destruct (@saveDailySummary_spec d u date chatSummary knowledgeSummary
              emotionSummary emailSummary calendarSummary codeChanges
              Hauth Hok)
    as [old [row [d' [H1 [H2 [H3 [_ [Hkey [H5 [H6 [H7 [H8 [H9 [H10 _]]]]]]]]]]]]]].
  exists old, row, d'. injection Hkey as Hu Hd. auto 15.
Qed.

(** X19. [saveDailySummary] keeps the table in order: the ids stay pairwise
    different and a user keeps at most one summary for a date.  It adds a
    row exactly when that user had no summary for the date, and leaves the
    summaries of other users and other dates as they are. *)
Theorem saveDailySummary_keeps_one_per_day (d : Db) (u : Uuid) (date : N)
    (chatSummary knowledgeSummary emotionSummary emailSummary
       calendarSummary codeChanges : option str) :
  auth_user (core d) = Some u ->
  summaries_ok d ->
  exists old row d',
    getDailySummary date d = (DbOk old, d)
    /\ saveDailySummary date chatSummary knowledgeSummary emotionSummary
         emailSummary calendarSummary codeChanges d = (DbOk row, d')
    /\ summaries_ok d'
    /\ length (daily_summaries d')
       = length (daily_summaries d)
         + match old with Some _ => 0 | None => 1 end
    /\ (forall r, In r (daily_summaries d) ->
                  summary_key r <> (u, date) ->
                  In r (daily_summaries d')).
Proof.
  intros Hauth Hok.
  destruct (@saveDailySummary_spec d u date chatSummary knowledgeSummary
              emotionSummary emailSummary calendarSummary codeChanges
              Hauth Hok)
    as [old [row [d' [H1 [H2 [_ [H4 [_ [_ [_ [_ [_ [_ [_ [H11 H12]]]]]]]]]]]]]]].
  exists old, row, d'. auto.
Qed.

(* ================================================================== *)
(** * The further properties at sample inputs *)

Lemma summaries_ok_empty : summaries_ok db_alice.
Proof. repeat split; constructor. Qed.

Lemma summaries_ok_one : summaries_ok db_with_summary.
Proof.
  repeat split; cbn; repeat constructor; auto; cbn; lia.
Qed.

(** X12 at a database with one message. *)
Lemma getRecentMessages_contract_witness :
  exists ordered,
    getRecentMessages 20 db_one_message
    = (DbOk (firstn 20 ordered), db_one_message)
    /\ length (firstn 20 ordered) <= 20
    /\ Permutation ordered
         (filter (fun r => N.eqb (msg_user_id r) alice)
            (messages db_one_message))
    /\ StronglySorted (fun a b => msg_created_at b <= msg_created_at a)
         ordered.
Proof.
  exact (proj2 (getRecentMessages_contract db_one_message 20) alice eq_refl).
Defined.

(** X13 at the same database: the second message comes first. *)
Lemma saveMessage_is_most_recent_witness :
  exists message d1 older,
    saveMessage (lit "assistant") (lit "hi there") (Some session_one) None
      db_one_message = (DbOk message, d1)
    /\ getRecentMessages 20 d1 = (DbOk (message :: older), d1)
    /\ msg_user_id message = alice /\ msg_role message = lit "assistant"
    /\ msg_content message = lit "hi there"
    /\ msg_session_id message = Some session_one.
Proof.
  apply (@saveMessage_is_most_recent db_one_message alice (lit "assistant")
           (lit "hi there") (Some session_one) None 20 eq_refl).
  - cbn. repeat constructor.
  - lia.
Defined.

(** X14 with the embedding provider down and the chat model answering. *)
Lemma processMessage_stores_both_messages_witness :
  exists userRow assistantRow,
    messages db_after_chat = messages db_alice ++ [userRow; assistantRow]
    /\ msg_user_id userRow = alice /\ msg_role userRow = lit "user"
    /\ msg_content userRow = lit "hello"
    /\ msg_session_id userRow = Some session_one
    /\ msg_user_id assistantRow = alice
    /\ msg_role assistantRow = lit "assistant"
    /\ msg_content assistantRow
       = cr_message {| cr_message := lit "hi there";
                       cr_sessionId := session_one |}
    /\ msg_session_id assistantRow = Some session_one
    /\ cr_sessionId {| cr_message := lit "hi there";
                       cr_sessionId := session_one |} = session_one
    /\ cr_message {| cr_message := lit "hi there";
                     cr_sessionId := session_one |} <> [].
Proof.
  apply (@processMessage_stores_both_messages ext_down
           (chat_answers (lit "hi there")) db_alice db_after_chat alice
           (lit "hello") alice session_one
           {| cr_message := lit "hi there"; cr_sessionId := session_one |}
           eq_refl).
  vm_compute. reflexivity.
Defined.

(** X15 with the chat model down. *)
Lemma processMessage_chat_failure_witness :
  exists userRow d',
    processMessage (ext := ext_up) (chat := chat_down) (lit "hello") alice
      session_one db_alice = (DbErr (CoreError ProviderUnavailable), d')
    /\ messages d' = messages db_alice ++ [userRow]
    /\ msg_role userRow = lit "user" /\ msg_content userRow = lit "hello"
    /\ In (lit "Error processing message:", CoreError ProviderUnavailable)
         (db_console d').
Proof.
  apply (@processMessage_chat_failure ext_up chat_down db_alice alice
           (lit "hello") alice session_one ProviderUnavailable eq_refl).
  intros prompt. reflexivity.
Defined.

(** X16 with the embedding provider down. *)
Lemma processMessage_without_context_witness :
  exists history,
    fst (processMessage (ext := ext_down)
           (chat := chat_answers (lit "hi there")) (lit "hello") alice
           session_one db_alice)
    = match chat_complete (ChatServices := chat_answers (lit "hi there"))
              (DEFAULT_SYSTEM_MESSAGE :: map to_chat history) with
      | Ok completion =>
          DbOk {| cr_message := assistant_text completion;
                  cr_sessionId := session_one |}
      | Err e' => DbErr (CoreError e')
      end
    /\ length history <= 20
    /\ forall m, In m history -> msg_user_id m = alice.
Proof.
  exact (@processMessage_without_context ext_down
           (chat_answers (lit "hi there")) db_alice alice (lit "hello") alice
           session_one ProviderUnavailable eq_refl eq_refl).
Defined.

(** X17 with the sentiment analysis failing: [neutral] is stored. *)
Lemma trackEmotion_records_analysis_witness :
  exists row d',
    trackEmotion (ext := ext_up) (chat := chat_down) (lit "hello") alice
      (Some session_one) db_alice
    = (DbOk (emo_emotion row, emo_sentiment_score row), d')
    /\ emotion_logs d' = emotion_logs db_alice ++ [row]
    /\ emo_user_id row = alice /\ emo_session_id row = Some session_one
    /\ (emo_sentiment_score row, emo_emotion row) = (0%Q, lit "neutral").
Proof.
  exact (@trackEmotion_records_analysis ext_up chat_down db_alice alice
           (lit "hello") alice (Some session_one) eq_refl).
Defined.

(** X18 at a database with a chat summary for the day: a knowledge summary
    is added, the chat summary stays. *)
Lemma saveDailySummary_then_get_witness :
  exists old row d',
    getDailySummary 100%N db_with_summary = (DbOk old, db_with_summary)
    /\ saveDailySummary 100%N None (Some (lit "two new nodes")) None None
         None None db_with_summary = (DbOk row, d')
    /\ getDailySummary 100%N d' = (DbOk (Some row), d')
    /\ ds_user_id row = alice /\ ds_date row = 100%N
    /\ ds_chat_summary row = nullish None (old_field old ds_chat_summary)
    /\ ds_knowledge_summary row
       = nullish (Some (lit "two new nodes"))
           (old_field old ds_knowledge_summary)
    /\ ds_emotion_summary row
       = nullish None (old_field old ds_emotion_summary)
    /\ ds_email_summary row = nullish None (old_field old ds_email_summary)
    /\ ds_calendar_summary row
       = nullish None (old_field old ds_calendar_summary)
    /\ ds_code_changes row = nullish None (old_field old ds_code_changes).
Proof.
  exact (@saveDailySummary_then_get db_with_summary alice 100%N None
           (Some (lit "two new nodes")) None None None None eq_refl
           summaries_ok_one).
Defined.

(** X19 at the same database, for another day. *)
Lemma saveDailySummary_keeps_one_per_day_witness :
  exists old row d',
    getDailySummary 101%N db_with_summary = (DbOk old, db_with_summary)
    /\ saveDailySummary 101%N (Some (lit "a quiet day")) None None None None
         None db_with_summary = (DbOk row, d')
    /\ summaries_ok d'
    /\ length (daily_summaries d')
       = length (daily_summaries db_with_summary)
         + match old with Some _ => 0 | None => 1 end
    /\ (forall r, In r (daily_summaries db_with_summary) ->
                  summary_key r <> (alice, 101%N) ->
                  In r (daily_summaries d')).
Proof.
  exact (@saveDailySummary_keeps_one_per_day db_with_summary alice 101%N
           (Some (lit "a quiet day")) None None None None None eq_refl
           summaries_ok_one).
Defined.

(* ================================================================== *)
(** * Further properties of the store and of the context *)

Section AppendOnly.
Context {ext : Externals} {chat : ChatServices}.

(** X20. The embedding records are only ever added to: whatever happens
    between two states of the database (a sign-in, a tick, a call of any of
    the functions, those on the messages, emotion logs and daily summaries
    included, that ends well or not), the records of the first are the first
    records of the second, unchanged and in their order; and in every state
    reached from the empty one their ids are pairwise different. *)
Theorem embeddings_append_only (d d' : Db) :
  reachable d ->
  steps d d' ->
  (exists added, embeddings (core d') = embeddings (core d) ++ added)
  /\ NoDup (map emb_id (embeddings (core d'))).
Proof.
  intros Hreach Hsteps. pose proof (steps_grows Hsteps) as [Hadded Hfresh].
  split; [exact Hadded|].
  apply reachable_ids_fresh in Hreach. now destruct (Hfresh Hreach).
Qed.

End AppendOnly.

Section StoreTheorems.
Context {ext : Externals}.



End StoreTheorems.

(** X20 from the database where [alice] has stored her record to the one
    where [bob] has stored his and a chat message. *)
Lemma embeddings_append_only_witness :
  (exists added,
     embeddings (core db_bob_message)
     = embeddings (core (with_core world_alice_record db_alice)) ++ added)
  /\ NoDup (map emb_id (embeddings (core db_bob_message))).
Proof.
  apply (@embeddings_append_only ext_up (chat_answers (lit "hi there"))
           (with_core world_alice_record db_alice) db_bob_message).
  - apply rt_trans with (y := db_alice); apply rt_step.
    + exact (step_auth empty_db (Some alice)).
    + exact (step_saveEmbedding db_alice (lit "file") 7%N
               (lit "text of alice") (axis 0)).
  - apply rt_trans with (y := db_bob);
      [apply rt_step;
       exact (step_auth (with_core world_alice_record db_alice) (Some bob))|].
    apply rt_trans with (y := db_bob_record); apply rt_step.
    + exact (step_saveEmbedding db_bob (lit "file") 8%N (lit "text of bob")
               (axis 0)).
    + exact (step_saveMessage db_bob_record (lit "user") question
               (Some session_one) None).
Defined.


(* ================================================================== *)
(** * What a successful upload has stored *)

Lemma bind_embeddings {A B} (m : M A) (k : A -> M B) :
  (forall w, embeddings (snd (m w)) = embeddings w) ->
  (forall a w, embeddings (snd (k a w)) = embeddings w) ->
  forall w, embeddings (snd (bind m k w)) = embeddings w.
Proof.
  intros Hm Hk w. unfold bind. specialize (Hm w).
  destruct (m w) as [[a|e] w1]; simpl in *; [|exact Hm].
  now rewrite Hk.
Qed.

Lemma getCurrentUserId_embeddings (w : World) :
  embeddings (snd (getCurrentUserId w)) = embeddings w.
Proof. unfold getCurrentUserId. now destruct (auth_user w). Qed.

Lemma getKnowledgeNodes_embeddings (type : option str) (w : World) :
  embeddings (snd (getKnowledgeNodes type w)) = embeddings w.
Proof.
  unfold getKnowledgeNodes.
  apply bind_embeddings; [apply getCurrentUserId_embeddings|reflexivity].
Qed.

Lemma addKnowledgeRelation_embeddings (s t : Uuid) (type : str) (w : World) :
  embeddings (snd (addKnowledgeRelation s t type w)) = embeddings w.
Proof.
  unfold addKnowledgeRelation.
  apply bind_embeddings; [apply getCurrentUserId_embeddings|reflexivity].
Qed.

Lemma logEvent_embeddings (type description : str) (id : option Uuid)
    (entityType : option str) (tags : list str) (w : World) :
  embeddings (snd (logEvent type description id entityType tags w))
  = embeddings w.
Proof.
  unfold logEvent.
  apply bind_embeddings; [apply getCurrentUserId_embeddings|reflexivity].
Qed.

Lemma saveFileMetadata_embeddings (name type : str) (size : N)
    (filePath summary : str) (w : World) :
  embeddings (snd (saveFileMetadata name type size filePath summary w))
  = embeddings w.
Proof.
  unfold saveFileMetadata.
  apply bind_embeddings; [apply getCurrentUserId_embeddings|reflexivity].
Qed.

Section UploadProperties.
Context {ext : Externals}.

Lemma relationship_loop_embeddings (rels : list Relationship) :
  forall created w,
    embeddings (snd (relationship_loop rels created w)) = embeddings w.
Proof.
  induction rels as [|r rest IH]; intros created w; [reflexivity|].
  cbn [relationship_loop].
  apply bind_embeddings; [apply getKnowledgeNodes_embeddings|].
  intros nodes1. apply bind_embeddings; [apply getKnowledgeNodes_embeddings|].
  intros nodes2.
  destruct (filter _ nodes1); [|destruct (filter _ nodes2)].
  - apply bind_embeddings; [reflexivity|]. intros _. apply IH.
  - apply bind_embeddings; [reflexivity|]. intros _. apply IH.
  - apply bind_embeddings; [apply addKnowledgeRelation_embeddings|].
    intros relation.
    apply bind_embeddings; [apply logEvent_embeddings|]. intros _. apply IH.
Qed.

(** The records the entity loop adds are records of knowledge nodes. *)
Lemma entity_loop_records (source : str) (ents : list Entity) :
  forall created names w w',
    entity_loop source ents created w = (Ok names, w') ->
    exists records,
      embeddings w' = embeddings w ++ records
      /\ Forall (fun r => emb_source_type r = lit "knowledge_node") records.
Proof.
  induction ents as [|entity rest IH]; intros created names w w' Hrun.
  - injection Hrun as _ <-. exists []. now rewrite app_nil_r.
  - cbn [entity_loop] in Hrun. unfold bind in Hrun.
    destruct (addKnowledgeNode _ _ _ _ w) as [[node|e] wa] eqn:Ea;
      [|discriminate].
    destruct (generateEmbedding _ wa) as [[v|e] wb] eqn:Eb; [|discriminate].
    destruct (saveEmbedding _ _ _ _ wb) as [[record|e] wc] eqn:Ec;
      [|discriminate].
    destruct (logEvent _ _ _ _ _ wc) as [[ev|e] wd] eqn:Ed; [|discriminate].
    apply addKnowledgeNode_effect in Ea as [_ [Ra _]].
    apply generateEmbedding_effect in Eb as [_ Rb].
    apply saveEmbedding_effect in Ec as [_ [Rc [Hst _]]].
    apply logEvent_effect in Ed as [_ Rd].
    destruct (IH _ _ _ _ Hrun) as [records [Hr Hall]].
    exists (record :: records).
    rewrite Hr, Rd, Rc, Rb, Ra, <- app_assoc. split; [reflexivity|].
    now constructor.
Qed.

Lemma processTextForKnowledge_records (text source : str) (userId : Uuid)
    (w w' : World) (result : KnowledgeResult) :
  processTextForKnowledge text source userId w = (Ok result, w') ->
  exists records,
    embeddings w' = embeddings w ++ records
    /\ Forall (fun r => emb_source_type r = lit "knowledge_node") records.
Proof.
  unfold processTextForKnowledge, try_catch, bind.
  destruct (extractKnowledge text w) as [[extracted|e] w0] eqn:E0.
  - assert (H0 : embeddings w0 = embeddings w).
    { revert E0. unfold extractKnowledge.
      destruct (chat_extract text); intros [= _ <-]; reflexivity. }
    destruct (entity_loop source (fst extracted) [] w0)
      as [[names|e] w1] eqn:E1.
    + pose proof (relationship_loop_embeddings (snd extracted) [] w1) as H2.
      destruct (relationship_loop (snd extracted) [] w1) as [[rs|e] w2].
      * intros [= _ <-]. simpl in H2.
        destruct (entity_loop_records _ _ _ _ E1) as [records [Hr Hall]].
        exists records. now rewrite H2, Hr, H0.
      * discriminate.
    + discriminate.
  - discriminate.
Qed.

Lemma ingest_loop_records (fileName : str) (fileRecordId userId : Uuid)
    (chunks : list str) :
  forall i w w',
    ingest_loop fileName fileRecordId userId i chunks w = (Ok tt, w') ->
    exists added,
      embeddings w' = embeddings w ++ added
      /\ map emb_content
           (filter (fun r => str_eqb (emb_source_type r) (lit "file")) added)
         = chunks
      /\ Forall (fun r => emb_source_id r = fileRecordId)
           (filter (fun r => str_eqb (emb_source_type r) (lit "file"))
              added).
Proof.
  induction chunks as [|chunk rest IH]; intros i w w' Hrun.
  - injection Hrun as <-. exists []. rewrite app_nil_r. repeat split.
    constructor.
  - cbn [ingest_loop] in Hrun. unfold bind in Hrun.
    destruct (generateEmbedding chunk w) as [[v|e] wa] eqn:Ea;
      [|discriminate].
    destruct (saveEmbedding _ _ _ _ wa) as [[record|e] wb] eqn:Eb;
      [|discriminate].
    destruct (processTextForKnowledge _ _ _ wb) as [[k|e] wc] eqn:Ec;
      [|discriminate].
    apply generateEmbedding_effect in Ea as [_ Ra].
    apply saveEmbedding_effect in Eb as [_ [Rb [Hst [Hsid Hcontent]]]].
    apply processTextForKnowledge_records in Ec as [records [Rc Hall]].
    destruct (IH _ _ _ Hrun) as [added [Hadded [Hcontents Hids]]].
    exists (record :: records ++ added).
    assert (Hnone : filter (fun r => str_eqb (emb_source_type r) (lit "file"))
                      records = []).
    { clear -Hall. induction Hall as [|r l Hr _ IH]; [reflexivity|].
      cbn [filter]. rewrite Hr. exact IH. }
    rewrite Hadded, Rc, Rb, Ra, <- !app_assoc. split; [reflexivity|].
    cbn [filter]. rewrite Hst. cbn [str_eqb].
    change (str_eqb (lit "file") (lit "file")) with true. cbv iota.
    rewrite filter_app, Hnone. cbn [app map]. rewrite Hcontents, Hcontent.
    split; [reflexivity|]. now constructor.
Qed.

(** X22. A call of [processFile] that succeeds has added, among the
    embedding records, exactly one record of type [file] for each chunk of
    the text, in the order of the chunks, with the chunk as its content and
    the id of the file as its source; the records of before are still
    there. *)
Theorem processFile_stores_every_chunk (w w' : World) (filePath : str)
    (fileSize : N) (textContent fileName fileType : str) (userId : Uuid)
    (result : ProcessedFile) :
  processFile filePath fileSize textContent fileName fileType userId w
  = (Ok result, w') ->
  exists added,
    embeddings w' = embeddings w ++ added
    /\ map emb_content
         (filter (fun r => str_eqb (emb_source_type r) (lit "file")) added)
       = chunkText textContent default_maxChunkSize
    /\ Forall (fun r => emb_source_id r = pf_id result)
         (filter (fun r => str_eqb (emb_source_type r) (lit "file")) added)
    /\ pf_fileName result = fileName
    /\ pf_summary result = summarizeText textContent.
Proof.
  unfold processFile, try_catch, bind.
  pose proof (saveFileMetadata_embeddings fileName fileType fileSize filePath
                (summarizeText textContent) w) as H0.
  destruct (saveFileMetadata _ _ _ _ _ w) as [[fileRecord|e] w0];
    [|discriminate].
  simpl in H0.
  destruct (ingest_loop fileName (file_id fileRecord) userId 0
              (chunkText textContent default_maxChunkSize) w0)
    as [[[]|e] w1] eqn:E1; [|discriminate].
  pose proof (logEvent_embeddings (lit "file_upload")
                (lit "Processed file: " ++ fileName)
                (Some (file_id fileRecord)) (Some (lit "file"))
                [lit "upload"; fileType] w1) as H2.
  destruct (logEvent _ _ _ _ _ w1) as [[ev|e] w2]; [|discriminate].
  simpl in H2. intros [= <- <-].
  apply ingest_loop_records in E1 as [added [Ha [Hc Hi]]].
  exists added. rewrite H2, Ha, H0. cbn. auto.
Qed.

End UploadProperties.

(** X22 at the upload of a short text, which is one chunk. *)
Lemma processFile_stores_every_chunk_witness :
  exists added,
    embeddings world_file_processed = embeddings world_alice ++ added
    /\ map emb_content
         (filter (fun r => str_eqb (emb_source_type r) (lit "file")) added)
       = chunkText text_sentences default_maxChunkSize
    /\ Forall (fun r => emb_source_id r = 0%N)
         (filter (fun r => str_eqb (emb_source_type r) (lit "file")) added)
    /\ doc_name = doc_name
    /\ summarizeText text_sentences = summarizeText text_sentences.
Proof.
  apply (@processFile_stores_every_chunk ext_up world_alice
           world_file_processed doc_path 30%N text_sentences doc_name
           doc_type alice
           {| pf_id := 0%N; pf_fileName := doc_name; pf_filePath := doc_path;
              pf_summary := summarizeText text_sentences |}).
  vm_compute. reflexivity.
Defined.
